(** * OAuth 1.0a request signing of the NetSuite downloader

    A shallow embedding of [src/scripts/netsuite-downloader.js]
    (class [NetSuiteDownloader]: [validateConfig], [generateOAuthHeader],
    [encodeRFC3986]) together with the JavaScript built-ins these methods
    call, followed by the properties the specification states about them.

    JavaScript strings are sequences of UTF-16 code units; they are
    modelled as lists of [N].  Exceptions are modelled by the [result]
    type.  The clock, the random source and the URL parser are inputs. *)

From Stdlib Require Import String Ascii.
From Stdlib Require Import NArith ZArith List Bool Lia.
From Stdlib Require Import Sorting.Permutation.
From Stdlib Require Strings.Byte.
Import ListNotations.

Local Open Scope N_scope.

(* ================================================================== *)
(** ** JavaScript strings, values and exceptions *)

(** A JavaScript string: the list of its UTF-16 code units. *)
Definition jsstring := list N.

(** String literal of the source, as code units (ASCII literals only). *)
Definition js (s : string) : jsstring :=
  map N_of_ascii (list_ascii_of_string s).

(** A well-formed string only holds 16-bit code units. *)
Definition wf_string (s : jsstring) : bool := forallb (fun c => c <? 65536) s.

(** Exceptions raised by the modelled code. *)
Inductive exn : Type :=
| URIError                  (* thrown by encodeURIComponent *)
| Error (msg : jsstring).   (* [throw new Error(msg)] *)

Inductive result (A : Type) : Type :=
| Ok (a : A)
| Throw (e : exn).
Arguments Ok {A} a.
Arguments Throw {A} e.

Definition bind {A B} (c : result A) (k : A -> result B) : result B :=
  match c with
  | Ok a => k a
  | Throw e => Throw e
  end.

Notation "x <- c ;; k" := (bind c (fun x => k))
  (at level 61, c at next level, right associativity).

(** [xs.map(f)] where the callback may throw: stops at the first throw. *)
Fixpoint mapM {A B} (f : A -> result B) (xs : list A) : result (list B) :=
  match xs with
  | [] => Ok []
  | x :: xs' => y <- f x ;; ys <- mapM f xs' ;; Ok (y :: ys)
  end.

(** The JavaScript values that occur in the signer: [undefined] (a missing
    configuration entry), strings, and integral Numbers (the timestamp).
    [JNumber n] stands for the Number whose mathematical value is [n]; the
    model of [ToString] below is the plain decimal form, which is what
    JavaScript prints for integral Numbers below 10^21 in magnitude. *)
Inductive jsval : Type :=
| JUndefined
| JString (s : jsstring)
| JNumber (n : Z).

(** [ToBoolean]: [undefined], the empty string and [0] are falsy. *)
Definition ToBoolean (v : jsval) : bool :=
  match v with
  | JUndefined => false
  | JString s => match s with [] => false | _ => true end
  | JNumber n => negb (n =? 0)%Z
  end.

(** Digit of [Number.prototype.toString(radix)]: 0-9 then a-z. *)
Definition digitChar (d : N) : N := if d <? 10 then 48 + d else 87 + d.

Fixpoint toRadix (fuel : nat) (radix n : N) (acc : jsstring) : jsstring :=
  match fuel with
  | O => acc
  | S fuel' =>
      let acc' := digitChar (n mod radix) :: acc in
      if n / radix =? 0 then acc' else toRadix fuel' radix (n / radix) acc'
  end.

(** [n.toString(radix)] for a non-negative integer [n] and [2 <= radix]:
    the digits most significant first, lower case.  One more step than
    [n] has bits is always enough. *)
Definition Number_toString (radix n : N) : jsstring :=
  toRadix (S (N.to_nat (N.log2 n))) radix n [].

(** [ToString] of an integral Number. *)
Definition Number_ToString (n : Z) : jsstring :=
  if (n <? 0)%Z then js "-" ++ Number_toString 10 (Z.to_N (- n))
  else Number_toString 10 (Z.to_N n).

Definition ToString (v : jsval) : jsstring :=
  match v with
  | JUndefined => js "undefined"
  | JString s => s
  | JNumber n => Number_ToString n
  end.

(** [String.prototype.toUpperCase] on the ASCII letters.  The source only
    applies it to the output of [toString(16)], which is ASCII. *)
Definition toUpperCase (s : jsstring) : jsstring :=
  map (fun c => if (97 <=? c) && (c <=? 122) then c - 32 else c) s.

(** [StringPad(s, 2, "0", start)]. *)
Definition StringPad2 (s : jsstring) : jsstring :=
  match s with
  | [] => js "00"
  | [d] => [48; d]
  | _ => s
  end.

(** Membership of a code unit in a set of characters given as a string. *)
Definition char_in (set : jsstring) (c : N) : bool := existsb (N.eqb c) set.

(** [xs.join(sep)]. *)
Fixpoint join (sep : jsstring) (xs : list jsstring) : jsstring :=
  match xs with
  | [] => []
  | [x] => x
  | x :: xs' => x ++ sep ++ join sep xs'
  end.

(* ================================================================== *)
(** ** UTF-16 and UTF-8 *)

Definition isLeadingSurrogate (c : N) : bool := (0xD800 <=? c) && (c <=? 0xDBFF).
Definition isTrailingSurrogate (c : N) : bool := (0xDC00 <=? c) && (c <=? 0xDFFF).

(** [UTF16SurrogatePairToCodePoint]. *)
Definition UTF16SurrogatePairToCodePoint (lead trail : N) : N :=
  (lead - 0xD800) * 0x400 + (trail - 0xDC00) + 0x10000.

(** The UTF-8 transformation of a code point into octets. *)
Definition utf8_octets (cp : N) : list N :=
  if cp <? 0x80 then [cp]
  else if cp <? 0x800 then
    [N.lor 0xC0 (N.shiftr cp 6); N.lor 0x80 (N.land cp 0x3F)]
  else if cp <? 0x10000 then
    [N.lor 0xE0 (N.shiftr cp 12);
     N.lor 0x80 (N.land (N.shiftr cp 6) 0x3F);
     N.lor 0x80 (N.land cp 0x3F)]
  else
    [N.lor 0xF0 (N.shiftr cp 18);
     N.lor 0x80 (N.land (N.shiftr cp 12) 0x3F);
     N.lor 0x80 (N.land (N.shiftr cp 6) 0x3F);
     N.lor 0x80 (N.land cp 0x3F)].

(* ================================================================== *)
(** ** [encodeURIComponent] and [encodeRFC3986] *)

(** The grammar of ECMAScript: uriAlpha, DecimalDigit, uriMark. *)
Definition uriAlpha : jsstring :=
  js "abcdefghijklmnopqrstuvwxyzABCDEFGHIJKLMNOPQRSTUVWXYZ".
Definition DecimalDigit : jsstring := js "0123456789".
Definition uriMark : jsstring := js "-_.!~*'()".

(** The characters [encodeURIComponent] leaves alone. *)
Definition uriUnescaped (c : N) : bool :=
  char_in uriAlpha c || char_in DecimalDigit c || char_in uriMark c.

(** One octet of the abstract operation Encode: ["%"] followed by the octet
    as an upper-case hexadecimal number padded to two digits. *)
Definition encodeOctet (octet : N) : jsstring :=
  js "%" ++ StringPad2 (toUpperCase (Number_toString 16 octet)).

(** The abstract operation Encode of ECMAScript, on the unescaped set of
    [encodeURIComponent]: a code unit of the set is copied; otherwise the
    code point at that position is read (CodePointAt), an unpaired
    surrogate throws URIError, and the octets of the code point are
    appended in escaped form. *)
Fixpoint Encode (unescaped : N -> bool) (s : jsstring) : result jsstring :=
  match s with
  | [] => Ok []
  | c :: rest =>
      if unescaped c then
        r <- Encode unescaped rest ;; Ok (c :: r)
      else if isLeadingSurrogate c then
        match rest with
        | [] => Throw URIError
        | d :: rest' =>
            if isTrailingSurrogate d then
              r <- Encode unescaped rest' ;;
              Ok (flat_map encodeOctet
                    (utf8_octets (UTF16SurrogatePairToCodePoint c d)) ++ r)
            else Throw URIError
        end
      else if isTrailingSurrogate c then Throw URIError
      else
        r <- Encode unescaped rest ;;
        Ok (flat_map encodeOctet (utf8_octets c) ++ r)
  end.

(** [encodeURIComponent(v)]: [ToString], then Encode. *)
Definition encodeURIComponent (v : jsval) : result jsstring :=
  Encode uriUnescaped (ToString v).

(** [s.replace(/[!'()*]/g, c => '%' + c.charCodeAt(0).toString(16).toUpperCase())]:
    every code unit of the class is replaced by the callback's result. *)
Definition replaceReserved (s : jsstring) : jsstring :=
  flat_map
    (fun c =>
       if char_in (js "!'()*") c
       then js "%" ++ toUpperCase (Number_toString 16 c)
       else [c])
    s.

(** [encodeRFC3986(str)], lines 79-82 of the source. *)
Definition encodeRFC3986 (str : jsval) : result jsstring :=
  r <- encodeURIComponent str ;; Ok (replaceReserved r).


(* ================================================================== *)
(** ** Node's [crypto]: buffers, SHA-256, HMAC, base64 and hex

    [crypto.createHmac('sha256', key).update(data).digest('base64')] and
    [crypto.randomBytes(16).toString('hex')] are library calls; they are
    modelled by the algorithms they are documented to run (FIPS 180-4,
    RFC 2104, RFC 4648), on octets held as [N]. *)

(** Conversion of a string to a UTF-8 buffer, as Node does for string
    arguments of [createHmac] and [update]: an unpaired surrogate becomes
    U+FFFD. *)
Fixpoint Buffer_from_utf8 (s : jsstring) : list N :=
  match s with
  | [] => []
  | c :: rest =>
      if isLeadingSurrogate c then
        match rest with
        | [] => utf8_octets 0xFFFD
        | d :: rest' =>
            if isTrailingSurrogate d then
              utf8_octets (UTF16SurrogatePairToCodePoint c d)
                ++ Buffer_from_utf8 rest'
            else utf8_octets 0xFFFD ++ Buffer_from_utf8 rest
        end
      else if isTrailingSurrogate c then
        utf8_octets 0xFFFD ++ Buffer_from_utf8 rest
      else utf8_octets c ++ Buffer_from_utf8 rest
  end.

Module SHA256.

(** 32-bit words as [N], reduced modulo 2^32 after each addition. *)
Definition w32 (x : N) : N := x mod 0x100000000.
Definition add32 (x y : N) : N := w32 (x + y).
Definition not32 (x : N) : N := N.lxor (w32 x) 0xFFFFFFFF.
Definition rotr (n x : N) : N :=
  N.lor (N.shiftr x n) (w32 (N.shiftl x (32 - n))).

Definition Ch (x y z : N) : N := N.lxor (N.land x y) (N.land (not32 x) z).
Definition Maj (x y z : N) : N :=
  N.lxor (N.lxor (N.land x y) (N.land x z)) (N.land y z).
Definition Sigma0 (x : N) : N := N.lxor (N.lxor (rotr 2 x) (rotr 13 x)) (rotr 22 x).
Definition Sigma1 (x : N) : N := N.lxor (N.lxor (rotr 6 x) (rotr 11 x)) (rotr 25 x).
Definition sigma0 (x : N) : N := N.lxor (N.lxor (rotr 7 x) (rotr 18 x)) (N.shiftr x 3).
Definition sigma1 (x : N) : N := N.lxor (N.lxor (rotr 17 x) (rotr 19 x)) (N.shiftr x 10).

(** The prime numbers below [n], in ascending order. *)
Definition is_prime (n : nat) : bool :=
  forallb (fun d => negb (Nat.eqb (Nat.modulo n d) 0)) (seq 2 (n - 2)).
Definition primes_below (n : nat) : list N :=
  map N.of_nat (filter is_prime (seq 2 (n - 2))).

(** Integer cube root, one bit at a time from bit [bits - 1] down. *)
Fixpoint cube_root_bits (bits : nat) (n r : N) : N :=
  match bits with
  | O => r
  | S bits' =>
      let r' := r + 2 ^ N.of_nat bits' in
      cube_root_bits bits' n (if r' * r' * r' <=? n then r' else r)
  end.

(** The round constants: the first 32 bits of the fractional parts of the
    cube roots of the first 64 primes. *)
Definition K : list N :=
  Eval vm_compute in
    map (fun p => w32 (cube_root_bits 36 (p * 2 ^ 96) 0)) (primes_below 312).

(** Big-endian octets of a word, [n] of them. *)
Fixpoint be_octets (n : nat) (x : N) : list N :=
  match n with
  | O => []
  | S n' => be_octets n' (N.shiftr x 8) ++ [N.land x 0xFF]
  end.

(** Padding: 0x80, zeros up to 56 modulo 64, the bit length on 64 bits. *)
Definition pad (msg : list N) : list N :=
  let len := N.of_nat (length msg) in
  let zeros := N.to_nat ((64 + 55 - len mod 64) mod 64) in
  msg ++ [0x80] ++ repeat 0 zeros ++ be_octets 8 (8 * len).

(** The big-endian words of a run of octets, four octets per word. *)
Fixpoint words (bs : list N) : list N :=
  match bs with
  | a :: b :: c :: d :: rest =>
      (N.shiftl a 24 + N.shiftl b 16 + N.shiftl c 8 + d) :: words rest
  | _ => []
  end.

(** Message schedule: the sixteen words of the block, extended to 64. *)
Fixpoint extend (n : nat) (w : list N) : list N :=
  match n with
  | O => w
  | S n' =>
      let i := length w in
      let at_ k := nth (i - k) w 0 in
      extend n'
        (w ++ [add32 (add32 (sigma1 (at_ 2%nat)) (at_ 7%nat))
                     (add32 (sigma0 (at_ 15%nat)) (at_ 16%nat))])
  end.

Record state := mk { a : N; b : N; c : N; d : N; e : N; f : N; g : N; h : N }.

Definition round (s : state) (kw : N * N) : state :=
  let t1 := add32 (add32 (add32 (h s) (Sigma1 (e s)))
                         (add32 (Ch (e s) (f s) (g s)) (fst kw))) (snd kw) in
  let t2 := add32 (Sigma0 (a s)) (Maj (a s) (b s) (c s)) in
  mk (add32 t1 t2) (a s) (b s) (c s) (add32 (d s) t1) (e s) (f s) (g s).

(** The initial hash value: the first 32 bits of the fractional parts of
    the square roots of the first 8 primes. *)
Definition H0 : state :=
  Eval vm_compute in
    match map (fun p => w32 (N.sqrt (p * 2 ^ 64))) (primes_below 20) with
    | [a0; b0; c0; d0; e0; f0; g0; h0] => mk a0 b0 c0 d0 e0 f0 g0 h0
    | _ => mk 0 0 0 0 0 0 0 0
    end.

Definition compress (hs : state) (block : list N) : state :=
  let w := extend 48 (words block) in
  let s := fold_left round (combine K w) hs in
  mk (add32 (a hs) (a s)) (add32 (b hs) (b s)) (add32 (c hs) (c s))
     (add32 (d hs) (d s)) (add32 (e hs) (e s)) (add32 (f hs) (f s))
     (add32 (g hs) (g s)) (add32 (h hs) (h s)).

(** The 64-octet blocks of the padded message, folded from the left. *)
Fixpoint blocks (n : nat) (hs : state) (bs : list N) : state :=
  match n with
  | O => hs
  | S n' => blocks n' (compress hs (firstn 64 bs)) (skipn 64 bs)
  end.

Definition digest (msg : list N) : list N :=
  let p := pad msg in
  let s := blocks (length p / 64) H0 p in
  flat_map (be_octets 4) [a s; b s; c s; d s; e s; f s; g s; h s].

End SHA256.

(** HMAC (RFC 2104) over SHA-256, block size 64. *)
Definition hmac_sha256 (key data : list N) : list N :=
  let k0 := if (64 <? length key)%nat then SHA256.digest key else key in
  let k := k0 ++ repeat 0 (64 - length k0) in
  SHA256.digest (map (N.lxor 0x5c) k
                   ++ SHA256.digest (map (N.lxor 0x36) k ++ data)).

(** The standard base64 alphabet. *)
Definition base64_alphabet : jsstring :=
  js "ABCDEFGHIJKLMNOPQRSTUVWXYZabcdefghijklmnopqrstuvwxyz0123456789+/".

Definition b64 (i : N) : N := nth (N.to_nat i) base64_alphabet 0.

(** [buf.toString('base64')]: three octets give four characters; a rest
    of one or two octets is padded with ["="]. *)
Fixpoint base64 (bs : list N) : jsstring :=
  match bs with
  | [] => []
  | [x] =>
      [b64 (N.shiftr x 2); b64 (N.shiftl (N.land x 3) 4); 61; 61]
  | [x; y] =>
      [b64 (N.shiftr x 2);
       b64 (N.lor (N.shiftl (N.land x 3) 4) (N.shiftr y 4));
       b64 (N.shiftl (N.land y 15) 2); 61]
  | x :: y :: z :: rest =>
      [b64 (N.shiftr x 2);
       b64 (N.lor (N.shiftl (N.land x 3) 4) (N.shiftr y 4));
       b64 (N.lor (N.shiftl (N.land y 15) 2) (N.shiftr z 6));
       b64 (N.land z 63)] ++ base64 rest
  end.

(** [buf.toString('hex')]: two lower-case hexadecimal digits per octet. *)
Definition hexEncode (bs : list N) : jsstring :=
  flat_map (fun x => [digitChar (x / 16); digitChar (x mod 16)]) bs.

(** [crypto.createHmac('sha256', key).update(data).digest('base64')]. *)
Definition createHmac_sha256_base64 (key data : jsstring) : jsstring :=
  base64 (hmac_sha256 (Buffer_from_utf8 key) (Buffer_from_utf8 data)).


(* ================================================================== *)
(** ** Objects, arrays of keys and the URL object *)

(** Equality and the order of strings, code unit by code unit: the order
    [Array.prototype.sort] uses without a comparator. *)
Fixpoint str_eqb (x y : jsstring) : bool :=
  match x, y with
  | [], [] => true
  | c :: x', d :: y' => (c =? d) && str_eqb x' y'
  | _, _ => false
  end.

Fixpoint str_leb (x y : jsstring) : bool :=
  match x, y with
  | [], _ => true
  | _ :: _, [] => false
  | c :: x', d :: y' =>
      if c <? d then true else if d <? c then false else str_leb x' y'
  end.

(** A plain object: its own enumerable string-keyed properties in
    insertion order, each key once.  (JavaScript enumerates keys that are
    array indices before the others; the only enumeration in the source,
    [Object.keys(allParams)], is sorted at once, and the sorted array does
    not depend on the order enumerated, see [paramString_order_invariant].) *)
Definition object := list (jsstring * jsval).

(** [o[key]]: the value of the property, [undefined] when there is none. *)
Fixpoint obj_get (o : object) (key : jsstring) : jsval :=
  match o with
  | [] => JUndefined
  | (k, v) :: o' => if str_eqb key k then v else obj_get o' key
  end.

(** Definition of an own property: an existing key keeps its place and
    takes the new value, a new key goes last. *)
Fixpoint obj_define (o : object) (key : jsstring) (v : jsval) : object :=
  match o with
  | [] => [(key, v)]
  | (k, v') :: o' =>
      if str_eqb key k then (k, v) :: o' else (k, v') :: obj_define o' key v
  end.

(** [o[key] = v] on an object literal with a string value [v]: the
    inherited [__proto__] setter ignores a string, every other key is
    defined on the object. *)
Definition obj_assign (o : object) (key : jsstring) (v : jsval) : object :=
  if str_eqb key (js "__proto__") then o else obj_define o key v.

(** [{ ...o1, ...o2 }]. *)
Definition obj_spread (o1 o2 : object) : object :=
  fold_left (fun o kv => obj_define o (fst kv) (snd kv)) (o1 ++ o2) [].

Definition Object_keys (o : object) : list jsstring := map fst o.

(** Insertion into a list ordered by [leb], and the sort built on it. *)
Section Insertion.
Context {A : Type} (leb : A -> A -> bool).

Fixpoint insert_by (x : A) (l : list A) : list A :=
  match l with
  | [] => [x]
  | y :: l' => if leb x y then x :: l else y :: insert_by x l'
  end.

Definition sort_by (l : list A) : list A := fold_right insert_by [] l.

Fixpoint sorted_by (l : list A) : bool :=
  match l with
  | [] => true
  | x :: l' => forallb (leb x) l' && sorted_by l'
  end.
End Insertion.

(** [keys.sort()]: ascending in the order of [str_leb].  The order is
    total and antisymmetric, so the sorted array does not depend on the
    algorithm the engine runs (see [Array_sort_unique] below). *)
Definition Array_sort (l : list jsstring) : list jsstring := sort_by str_leb l.

(** The URL record [new URL(url)] holds (WHATWG URL): scheme, host, port
    ([None] when absent or the default of the scheme), path, fragment;
    the query is kept in the parsed form its [searchParams] object
    iterates over, names and values decoded, in the order of the URL. *)
Record URL : Type := mkURL {
  url_scheme : jsstring;
  url_host : jsstring;
  url_port : option N;
  url_path : jsstring;
  url_query : list (jsstring * jsstring);
  url_fragment : option jsstring
}.

(** The getters the source reads. *)
Definition protocol (u : URL) : jsstring := url_scheme u ++ js ":".
Definition host (u : URL) : jsstring :=
  match url_port u with
  | None => url_host u
  | Some p => url_host u ++ js ":" ++ Number_toString 10 p
  end.
Definition pathname (u : URL) : jsstring := url_path u.
Definition searchParams (u : URL) : list (jsstring * jsstring) := url_query u.

(* ================================================================== *)
(** ** [NetSuiteDownloader] *)

(** [validateConfig()], lines 12-18 of the source; the console output
    that follows (lines 20-26) is not modelled. *)
Definition required : list jsstring :=
  [js "accountId"; js "consumerKey"; js "consumerSecret";
   js "tokenId"; js "tokenSecret"; js "restletUrl"].

Definition validateConfig (config : object) : result unit :=
  let missing :=
    filter (fun key => negb (ToBoolean (obj_get config key))) required in
  if (0 <? length missing)%nat then
    Throw (Error (js "Missing required configuration: "
                    ++ join (js ", ") missing))
  else Ok tt.

(** An instance: the configuration object it was constructed with. *)
Record NetSuiteDownloader : Type := { config : object }.

(** [new NetSuiteDownloader(config)], lines 7-10. *)
Definition constructor (cfg : object) : result NetSuiteDownloader :=
  _ <- validateConfig cfg ;; Ok {| config := cfg |}.

(** What one call reads from its environment: [Date.now()] (milliseconds
    since the epoch) and the random source of [crypto], the octets it has
    still to give, in the order in which it gives them. *)
Record Env : Type := { Date_now : Z; random_source : nat -> Byte.byte }.

(** [crypto.randomBytes(size)]: a buffer of the next [size] octets of the
    source. *)
Definition crypto_randomBytes (env : Env) (size : nat) : list N :=
  map (fun i => Byte.to_N (random_source env i)) (seq 0 size).

(** The buffer of line 32, [crypto.randomBytes(16)]. *)
Definition randomBytes16 (env : Env) : list N := crypto_randomBytes env 16.

(** The environment of the invocation that follows, when nothing else
    draws from the source in between: the clock reads [now], and the
    source has given the 16 octets of line 32. *)
Definition next_call (env : Env) (now : Z) : Env :=
  {| Date_now := now;
     random_source := fun i => random_source env (16 + i) |}.

Definition dquote : jsstring := [34].

(** The local constants of [generateOAuthHeader(url, method)], lines
    30-54, for an instance [this], an environment and [urlObj], the
    object [new URL(url)] of line 35. *)
Section generateOAuthHeader.

Variable this : NetSuiteDownloader.
Variable env : Env.
Variable urlObj : URL.

(** Line 31: [Math.floor(Date.now() / 1000)], a Number. *)
Definition timestamp : jsval := JNumber (Date_now env / 1000)%Z.

(** Line 32: [crypto.randomBytes(16).toString('hex')]. *)
Definition nonce : jsval := JString (hexEncode (crypto_randomBytes env 16)).

(** Line 36. *)
Definition baseUrl : jsstring :=
  protocol urlObj ++ js "//" ++ host urlObj ++ pathname urlObj.

(** Lines 39-42: the loop over [urlObj.searchParams]. *)
Definition queryParams : object :=
  fold_left (fun o kv => obj_assign o (fst kv) (JString (snd kv)))
            (searchParams urlObj) [].

(** Lines 44-51. *)
Definition oauthParams : object :=
  [ (js "oauth_consumer_key", obj_get (config this) (js "consumerKey"));
    (js "oauth_nonce", nonce);
    (js "oauth_signature_method", JString (js "HMAC-SHA256"));
    (js "oauth_timestamp", timestamp);
    (js "oauth_token", obj_get (config this) (js "tokenId"));
    (js "oauth_version", JString (js "1.0")) ].

(** Line 54: [{ ...oauthParams, ...queryParams }]. *)
Definition allParams : object := obj_spread oauthParams queryParams.

End generateOAuthHeader.

(** Lines 56-59:
    [Object.keys(allParams).sort().map(key => ...).join('&')]. *)
Definition paramItem (allParams : object) (key : jsstring) : result jsstring :=
  k <- encodeRFC3986 (JString key) ;;
  v <- encodeRFC3986 (obj_get allParams key) ;;
  Ok (k ++ js "=" ++ v).

Definition paramString (allParams : object) : result jsstring :=
  items <- mapM (paramItem allParams) (Array_sort (Object_keys allParams)) ;;
  Ok (join (js "&") items).

(** Line 61. *)
Definition baseString (method baseUrl paramString : jsstring) : result jsstring :=
  u <- encodeRFC3986 (JString baseUrl) ;;
  p <- encodeRFC3986 (JString paramString) ;;
  Ok (method ++ js "&" ++ u ++ js "&" ++ p).

(** Line 62. *)
Definition signingKey (this : NetSuiteDownloader) : result jsstring :=
  cs <- encodeRFC3986 (obj_get (config this) (js "consumerSecret")) ;;
  ts <- encodeRFC3986 (obj_get (config this) (js "tokenSecret")) ;;
  Ok (cs ++ js "&" ++ ts).

(** Line 63. *)
Definition signature (this : NetSuiteDownloader) (baseString : jsstring)
  : result jsstring :=
  key <- signingKey this ;;
  Ok (createHmac_sha256_base64 key baseString).

(** Lines 66-75: the array literal of the [return] statement. *)
Definition headerItems (this : NetSuiteDownloader) (env : Env)
    (signature : jsstring) : result (list jsstring) :=
  realm <- encodeRFC3986 (obj_get (config this) (js "accountId")) ;;
  consumer_key <- encodeRFC3986 (obj_get (config this) (js "consumerKey")) ;;
  nonce' <- encodeRFC3986 (nonce env) ;;
  signature' <- encodeRFC3986 (JString signature) ;;
  timestamp' <- encodeRFC3986 (timestamp env) ;;
  token <- encodeRFC3986 (obj_get (config this) (js "tokenId")) ;;
  Ok [ js "realm=" ++ dquote ++ realm ++ dquote;
       js "oauth_consumer_key=" ++ dquote ++ consumer_key ++ dquote;
       js "oauth_nonce=" ++ dquote ++ nonce' ++ dquote;
       js "oauth_signature=" ++ dquote ++ signature' ++ dquote;
       js "oauth_signature_method=" ++ dquote ++ js "HMAC-SHA256" ++ dquote;
       js "oauth_timestamp=" ++ dquote ++ timestamp' ++ dquote;
       js "oauth_token=" ++ dquote ++ token ++ dquote;
       js "oauth_version=" ++ dquote ++ js "1.0" ++ dquote ].

(** [generateOAuthHeader(url, method)], lines 30-76, with [urlObj] the
    parsed [url].  The only exception of the steps modelled is the
    URIError of an encoder, so the order in which they run does not show
    in the result. *)
Definition generateOAuthHeader (this : NetSuiteDownloader) (env : Env)
    (urlObj : URL) (method : jsstring) : result jsstring :=
  paramString' <- paramString (allParams this env urlObj) ;;
  baseString' <- baseString method (baseUrl urlObj) paramString' ;;
  signature' <- signature this baseString' ;;
  items <- headerItems this env signature' ;;
  Ok (js "OAuth " ++ join (js ", ") items).

(** A signing call from scratch, as the callers make it: construction,
    then the header. *)
Definition sign (cfg : object) (env : Env) (urlObj : URL) (method : jsstring)
  : result jsstring :=
  this <- constructor cfg ;;
  generateOAuthHeader this env urlObj method.


(* ================================================================== *)
(** ** The specification's own words, as definitions

    These follow the text of the specification, not the source; the
    theorems below compare them with the functions above. *)

(** RFC 3986 unreserved characters: letters, digits, [-], [.], [_], [~]. *)
Definition unreserved (b : N) : bool :=
  ((65 <=? b) && (b <=? 90)) || ((97 <=? b) && (b <=? 122))
  || ((48 <=? b) && (b <=? 57)) || char_in (js "-._~") b.

Definition hexUpper (d : N) : N := nth (N.to_nat d) (js "0123456789ABCDEF") 0.

(** [%XX]: the two upper-case hexadecimal digits of the octet. *)
Definition pct_escape (b : N) : jsstring :=
  js "%" ++ [hexUpper (b / 16); hexUpper (b mod 16)].

(** The value of an upper-case hexadecimal digit; 16 for any other
    character. *)
Definition hex_value (c : N) : N :=
  if (48 <=? c) && (c <=? 57) then c - 48
  else if (65 <=? c) && (c <=? 70) then c - 55
  else 16.

Definition percent_encode_octets (bs : list N) : jsstring :=
  flat_map (fun b => if unreserved b then [b] else pct_escape b) bs.

(** The code points of a string; [None] when a surrogate is unpaired. *)
Fixpoint code_points (s : jsstring) : option (list N) :=
  match s with
  | [] => Some []
  | c :: rest =>
      if isLeadingSurrogate c then
        match rest with
        | d :: rest' =>
            if isTrailingSurrogate d then
              option_map (cons (UTF16SurrogatePairToCodePoint c d))
                         (code_points rest')
            else None
        | [] => None
        end
      else if isTrailingSurrogate c then None
      else option_map (cons c) (code_points rest)
  end.

(** The UTF-8 octets of a string that has them. *)
Definition utf8_of_string (s : jsstring) : option (list N) :=
  option_map (flat_map utf8_octets) (code_points s).

(** Percent-encoding as the specification words it: the unreserved
    characters pass, every other octet of the UTF-8 form becomes [%XX].
    A string without a UTF-8 form has no encoding (URIError). *)
Definition percent_encode (s : jsstring) : result jsstring :=
  match utf8_of_string s with
  | Some bs => Ok (percent_encode_octets bs)
  | None => Throw URIError
  end.

(** [String.prototype.isWellFormed]: no surrogate is unpaired. *)
Definition isWellFormed (s : jsstring) : bool :=
  match code_points s with Some _ => true | None => false end.

Definition isASCII (s : jsstring) : bool := forallb (fun c => c <? 128) s.

(** A value whose text is a JavaScript string without unpaired
    surrogate: the values an encoder accepts. *)
Definition encodable (v : jsval) : bool :=
  wf_string (ToString v) && isWellFormed (ToString v).

(** Order of encoded pairs: by encoded key, ties by encoded value. *)
Definition pair_leb (p q : jsstring * jsstring) : bool :=
  if str_eqb (fst p) (fst q) then str_leb (snd p) (snd q)
  else str_leb (fst p) (fst q).

Definition encodePair (kv : jsstring * jsval) : result (jsstring * jsstring) :=
  k <- encodeRFC3986 (JString (fst kv)) ;;
  v <- encodeRFC3986 (snd kv) ;;
  Ok (k, v).

Definition renderPair (p : jsstring * jsstring) : jsstring :=
  fst p ++ js "=" ++ snd p.

(** The canonical parameter string of the specification: encode every
    pair, sort the encoded pairs, join them with [&]. *)
Definition canonical_parameter_string (params : object) : result jsstring :=
  pairs <- mapM encodePair params ;;
  Ok (join (js "&") (map renderPair (sort_by pair_leb pairs))).

(** A string of unreserved characters only. *)
Definition all_unreserved (s : jsstring) : bool := forallb unreserved s.

(** The signature base string of the specification, with the method
    token upper-cased. *)
Definition signature_base_string (method baseUrl params : jsstring)
  : result jsstring :=
  u <- encodeRFC3986 (JString baseUrl) ;;
  p <- encodeRFC3986 (JString params) ;;
  Ok (toUpperCase method ++ js "&" ++ u ++ js "&" ++ p).

(** The signing key of the specification: an absent token secret leaves
    the part after [&] empty. *)
Definition signing_key (consumerSecret tokenSecret : jsval) : result jsstring :=
  cs <- encodeRFC3986 consumerSecret ;;
  ts <- match tokenSecret with
        | JUndefined => Ok []
        | _ => encodeRFC3986 tokenSecret
        end ;;
  Ok (cs ++ js "&" ++ ts).

(** The name of a rendered header pair: what stands before its [=]. *)
Fixpoint param_name (item : jsstring) : jsstring :=
  match item with
  | [] => []
  | c :: item' => if c =? 61 then [] else c :: param_name item'
  end.

(** The names of the parameters of the header, in the order rendered. *)
Definition header_names : list jsstring :=
  [js "realm"; js "oauth_consumer_key"; js "oauth_nonce"; js "oauth_signature";
   js "oauth_signature_method"; js "oauth_timestamp"; js "oauth_token";
   js "oauth_version"].

(** The six protocol parameters of the signed set. *)
Definition protocol_names : list jsstring :=
  [js "oauth_consumer_key"; js "oauth_nonce"; js "oauth_signature_method";
   js "oauth_timestamp"; js "oauth_token"; js "oauth_version"].

(** The value the query string gives to a name: that of its last pair. *)
Fixpoint query_value (query : list (jsstring * jsstring)) (name : jsstring)
  : option jsstring :=
  match query with
  | [] => None
  | (k, v) :: query' =>
      match query_value query' name with
      | Some v' => Some v'
      | None => if str_eqb name k then Some v else None
      end
  end.

Definition is_string (v : jsval) : bool :=
  match v with JString _ => true | _ => false end.

(** The number a decimal numeral denotes, with an optional minus sign. *)
Definition decimal_value (digits : jsstring) : N :=
  fold_left (fun n c => 10 * n + (c - 48)) digits 0.

Definition integer_value (numeral : jsstring) : Z :=
  match numeral with
  | 45 :: digits => (- Z.of_N (decimal_value digits))%Z
  | _ => Z.of_N (decimal_value numeral)
  end.

Definition isDecimalDigit (c : N) : bool := (48 <=? c) && (c <=? 57).

(** Printable ASCII. *)
Definition printable (c : N) : bool := (32 <=? c) && (c <=? 126).

(* ================================================================== *)
(** ** Two relations the proofs go through *)

(** Encode followed by the [replace] of the source, against the octets
    of the code points. *)
Definition encode_agrees (s : jsstring) : Prop :=
  match Encode uriUnescaped s, code_points s with
  | Ok r, Some cps =>
      replaceReserved r = percent_encode_octets (flat_map utf8_octets cps)
  | Throw e, None => e = URIError
  | _, _ => False
  end.

(** Two runs that throw the same way or return the same elements. *)
Definition same_outcome {B} (r r' : result (list B)) : Prop :=
  match r, r' with
  | Ok ys, Ok ys' => Permutation ys ys'
  | Throw e, Throw e' => e = e'
  | _, _ => False
  end.

(* ================================================================== *)
(** ** A worked call *)

Module Sample.

Definition cfg : object :=
  [ (js "accountId", JString (js "ACCT1"));
    (js "consumerKey", JString (js "CK"));
    (js "consumerSecret", JString (js "CS"));
    (js "tokenId", JString (js "TK"));
    (js "tokenSecret", JString (js "TS"));
    (js "restletUrl",
      JString (js "https://example.com/app.nl?script=1&deploy=1")) ].

Definition this : NetSuiteDownloader := {| config := cfg |}.

(** The source gives the octets 1 to 15, then 255, then zeros. *)
Definition env : Env :=
  {| Date_now := 1700000000123;
     random_source :=
       fun i =>
         nth i [Byte.x01; Byte.x02; Byte.x03; Byte.x04; Byte.x05; Byte.x06;
                Byte.x07; Byte.x08; Byte.x09; Byte.x0a; Byte.x0b; Byte.x0c;
                Byte.x0d; Byte.x0e; Byte.x0f; Byte.xff] Byte.x00 |}.

(** [new URL("https://example.com/app.nl?script=1&deploy=1")]. *)
Definition url : URL :=
  mkURL (js "https") (js "example.com") None (js "/app.nl")
        [(js "script", js "1"); (js "deploy", js "1")] None.

(** [new URL("https://example.com/app.nl?a.b=1&a/b=2")]. *)
Definition url_mixed : URL :=
  mkURL (js "https") (js "example.com") None (js "/app.nl")
        [(js "a.b", js "1"); (js "a/b", js "2")] None.

(** The signature and the header the source computes for this call. *)
Definition signature : jsstring :=
  js "+n3eg/p0dOrMXTCRfuFXJVq2kWDMGcotBO+Uo7Pzdbk=".

Definition header : jsstring :=
  js "OAuth realm=" ++ dquote ++ js "ACCT1" ++ dquote
  ++ js ", oauth_consumer_key=" ++ dquote ++ js "CK" ++ dquote
  ++ js ", oauth_nonce=" ++ dquote
  ++ js "0102030405060708090a0b0c0d0e0fff" ++ dquote
  ++ js ", oauth_signature=" ++ dquote
  ++ js "%2Bn3eg%2Fp0dOrMXTCRfuFXJVq2kWDMGcotBO%2BUo7Pzdbk%3D" ++ dquote
  ++ js ", oauth_signature_method=" ++ dquote ++ js "HMAC-SHA256" ++ dquote
  ++ js ", oauth_timestamp=" ++ dquote ++ js "1700000000" ++ dquote
  ++ js ", oauth_token=" ++ dquote ++ js "TK" ++ dquote
  ++ js ", oauth_version=" ++ dquote ++ js "1.0" ++ dquote.

(** A string with characters of every kind: unreserved ones, the marks
    the source escapes itself, delimiters, a space, and text outside
    ASCII (two BMP characters and a surrogate pair). *)
Definition text : jsstring :=
  js "Az09-._~ !'()*&=/:?%" ++ [0xE9; 0x20AC; 0xD83D; 0xDE00].

(** [new URL("https://example.com/app.nl?oauth_token=OTHER&script=1")]. *)
Definition url_override : URL :=
  mkURL (js "https") (js "example.com") None (js "/app.nl")
        [(js "oauth_token", js "OTHER"); (js "script", js "1")] None.

(** A configuration without [tokenSecret]. *)
Definition cfg_no_token_secret : object :=
  [ (js "accountId", JString (js "ACCT1"));
    (js "consumerKey", JString (js "CK"));
    (js "consumerSecret", JString (js "CS"));
    (js "tokenId", JString (js "TK"));
    (js "restletUrl",
      JString (js "https://example.com/app.nl?script=1&deploy=1")) ].

(** The configuration [cfg] with an empty [tokenSecret]. *)
Definition cfg_blank_token_secret : object :=
  obj_define cfg (js "tokenSecret") (JString []).

(** A configuration whose [tokenSecret] is empty and whose [accountId]
    is a lone surrogate, which no encoder accepts. *)
Definition cfg_empty_token_secret : object :=
  [ (js "accountId", JString [0xD800]);
    (js "consumerKey", JString (js "CK"));
    (js "consumerSecret", JString (js "CS"));
    (js "tokenId", JString (js "TK"));
    (js "tokenSecret", JString []);
    (js "restletUrl",
      JString (js "https://example.com/app.nl?script=1&deploy=1")) ].

End Sample.


(* ================================================================== *)
(** ** Further definitions

    Readers of the texts the signer writes, the rest of
    [src/scripts/netsuite-downloader.js] ([testAuth], the checks and the
    loop of [downloadTodaysDueDateLogs]) and the caller of the downloader
    in [src/scripts/run-analysis.js]; their properties are at the end of
    the file. *)

Module More.

(** A second URL with the query string of [Sample.url] in the other
    order. *)
Definition url_swapped : URL :=
  mkURL (js "https") (js "example.com") None (js "/app.nl")
        [(js "deploy", js "1"); (js "script", js "1")] None.

(** An instance for an account whose id has two underscores. *)
Definition test_account : NetSuiteDownloader :=
  {| config := [ (js "accountId", JString (js "1234567_SB1_RP")) ] |}.

(** A configuration whose account, consumer key and token hold the
    five marks [encodeURIComponent] leaves alone, and a space. *)
Definition cfg_marks : object :=
  [ (js "accountId", JString (js "AC!'CT 1"));
    (js "consumerKey", JString (js "C(K)"));
    (js "consumerSecret", JString (js "CS"));
    (js "tokenId", JString (js "T*K"));
    (js "tokenSecret", JString (js "TS"));
    (js "restletUrl",
      JString (js "https://example.com/app.nl?script=1&deploy=1")) ].

Definition this_marks : NetSuiteDownloader := {| config := cfg_marks |}.

(** The header the source computes for it, on the clock, the random
    source and the URL of the worked call. *)
Definition header_marks : jsstring :=
  js "OAuth realm=" ++ dquote ++ js "AC%21%27CT%201" ++ dquote
  ++ js ", oauth_consumer_key=" ++ dquote ++ js "C%28K%29" ++ dquote
  ++ js ", oauth_nonce=" ++ dquote
  ++ js "0102030405060708090a0b0c0d0e0fff" ++ dquote
  ++ js ", oauth_signature=" ++ dquote
  ++ js "WyOKDyWvmwjw8%2B1JZKqQhqNWmXQ7d2bJjiZe7sPltO4%3D" ++ dquote
  ++ js ", oauth_signature_method=" ++ dquote ++ js "HMAC-SHA256" ++ dquote
  ++ js ", oauth_timestamp=" ++ dquote ++ js "1700000000" ++ dquote
  ++ js ", oauth_token=" ++ dquote ++ js "T%2AK" ++ dquote
  ++ js ", oauth_version=" ++ dquote ++ js "1.0" ++ dquote.




End More.

(** The characters of an encoded text: the unreserved ones and [%]. *)
Definition escaped_char (c : N) : bool := unreserved c || (c =? 37).

(** The characters [encodeURIComponent] writes: the former and the five
    marks the source escapes afterwards. *)
Definition component_char (c : N) : bool :=
  escaped_char c || char_in (js "!'()*") c.

Definition isHexLower (c : N) : bool := char_in (js "0123456789abcdef") c.
Definition isHexUpper (c : N) : bool := char_in (js "0123456789ABCDEF") c.

(** [s.split(sep)] for a separator of one code unit: the pieces between
    the separators; the empty string gives one empty piece. *)
Fixpoint split (sep : N) (s : jsstring) : list jsstring :=
  match s with
  | [] => [[]]
  | c :: rest =>
      if c =? sep then [] :: split sep rest
      else match split sep rest with
           | [] => [[c]]
           | piece :: pieces => (c :: piece) :: pieces
           end
  end.

(** A reader of an encoded text, in three steps: [%XX] gives the octet
    of value [XX] and any other character its own code; the octets are
    read as UTF-8, the first octet of a character telling its length;
    the code points are written in UTF-16. *)
Fixpoint unescape (s : jsstring) : list N :=
  match s with
  | [] => []
  | c :: rest =>
      if c =? 37 then
        match rest with
        | h :: l :: rest' => (16 * hex_value h + hex_value l) :: unescape rest'
        | _ => []
        end
      else c :: unescape rest
  end.

Fixpoint utf8_decode (bs : list N) : list N :=
  match bs with
  | [] => []
  | o1 :: rest =>
      if o1 <? 0x80 then o1 :: utf8_decode rest
      else if o1 <? 0xE0 then
        match rest with
        | o2 :: rest' =>
            ((o1 - 0xC0) * 64 + (o2 - 0x80)) :: utf8_decode rest'
        | _ => []
        end
      else if o1 <? 0xF0 then
        match rest with
        | o2 :: o3 :: rest' =>
            ((o1 - 0xE0) * 4096 + (o2 - 0x80) * 64 + (o3 - 0x80))
              :: utf8_decode rest'
        | _ => []
        end
      else
        match rest with
        | o2 :: o3 :: o4 :: rest' =>
            ((o1 - 0xF0) * 262144 + (o2 - 0x80) * 4096 + (o3 - 0x80) * 64
             + (o4 - 0x80)) :: utf8_decode rest'
        | _ => []
        end
  end.

Definition utf16_units (cp : N) : jsstring :=
  if cp <? 0x10000 then [cp]
  else [0xD800 + (cp - 0x10000) / 0x400; 0xDC00 + (cp - 0x10000) mod 0x400].

Definition decodeRFC3986 (r : jsstring) : jsstring :=
  flat_map utf16_units (utf8_decode (unescape r)).

(** A text without the code unit [sep]. *)
Definition lacks (sep : N) (s : jsstring) : bool :=
  forallb (fun c => negb (c =? sep)) s.

(** One parameter of the header as lines 67-74 write it:
    [name="value"]. *)
Definition render_field (f : jsstring * jsstring) : jsstring :=
  fst f ++ js "=" ++ dquote ++ snd f ++ dquote.

(** A reader of the header, as a server takes it apart: the scheme
    [OAuth] and a space, then the pieces between commas; of each piece
    the spaces in front are dropped, the name is the text before [=] and
    the value the text between the two double quotes that follow. *)
Fixpoint skip_spaces (s : jsstring) : jsstring :=
  match s with
  | 32 :: rest => skip_spaces rest
  | _ => s
  end.

Definition read_field (piece : jsstring) : option (jsstring * jsstring) :=
  match split 61 (skip_spaces piece) with
  | [name; quoted] =>
      match split 34 quoted with
      | [ []; value; [] ] => Some (name, value)
      | _ => None
      end
  | _ => None
  end.

Fixpoint read_fields (pieces : list jsstring)
  : option (list (jsstring * jsstring)) :=
  match pieces with
  | [] => Some []
  | piece :: pieces' =>
      match read_field piece, read_fields pieces' with
      | Some f, Some fs => Some (f :: fs)
      | _, _ => None
      end
  end.

Definition read_header (header : jsstring)
  : option (list (jsstring * jsstring)) :=
  match header with
  | 79 :: 65 :: 117 :: 116 :: 104 :: 32 :: rest => read_fields (split 44 rest)
  | _ => None
  end.

(** A name the reader gets back: not empty, no space in front, without
    [=], comma and double quote; a value: without those three. *)
Definition field_name (name : jsstring) : bool :=
  match name with
  | [] => false
  | c :: _ => negb (c =? 32) && lacks 61 name && lacks 44 name && lacks 34 name
  end.

Definition field_value (value : jsstring) : bool :=
  lacks 61 value && lacks 44 value && lacks 34 value.

(* ================================================================== *)
(** ** [DueDateLogAnalyzer] of [src/scripts/run-analysis.js]: construction

    The caller of the downloader reads its configuration from the
    environment variables of the process, a map from names to strings. *)

Module GeminiAnalyzer.

(** [new GeminiAnalyzer(apiKey)], lines 6-11 of its file: the instance
    keeps the key. *)
Definition constructor (apiKey : jsval) : result jsval :=
  if negb (ToBoolean apiKey) then Throw (Error (js "Gemini API key is required"))
  else Ok apiKey.

End GeminiAnalyzer.

Module DueDateLogAnalyzer.

(** [process.env.NAME]: the string of the variable, [undefined] when it
    is not set. *)
Definition process_env_get (process_env : jsstring -> option jsstring)
    (name : jsstring) : jsval :=
  match process_env name with
  | Some s => JString s
  | None => JUndefined
  end.

(** Lines 7-15: the object literal [this.config]. *)
Definition config_of (process_env : jsstring -> option jsstring) : object :=
  [ (js "accountId", process_env_get process_env (js "NETSUITE_PROD_ACCOUNT_ID"));
    (js "consumerKey", process_env_get process_env (js "NETSUITE_PROD_CONSUMER_KEY"));
    (js "consumerSecret",
      process_env_get process_env (js "NETSUITE_PROD_CONSUMER_SECRET"));
    (js "tokenId", process_env_get process_env (js "NETSUITE_PROD_TOKEN_ID"));
    (js "tokenSecret", process_env_get process_env (js "NETSUITE_PROD_TOKEN_SECRET"));
    (js "restletUrl", process_env_get process_env (js "NETSUITE_PROD_RESTLET_URL"));
    (js "geminiApiKey", process_env_get process_env (js "GEMINI_API_KEY")) ].

(** The variables read, in the order of the literal. *)
Definition variables : list jsstring :=
  [js "NETSUITE_PROD_ACCOUNT_ID"; js "NETSUITE_PROD_CONSUMER_KEY";
   js "NETSUITE_PROD_CONSUMER_SECRET"; js "NETSUITE_PROD_TOKEN_ID";
   js "NETSUITE_PROD_TOKEN_SECRET"; js "NETSUITE_PROD_RESTLET_URL";
   js "GEMINI_API_KEY"].

(** [validateConfig()], lines 23-30. *)
Definition required : list jsstring :=
  [js "accountId"; js "consumerKey"; js "consumerSecret";
   js "tokenId"; js "tokenSecret"; js "restletUrl"; js "geminiApiKey"].

Definition validateConfig (config : object) : result unit :=
  let missing :=
    filter (fun key => negb (ToBoolean (obj_get config key))) required in
  if (0 <? length missing)%nat then
    Throw (Error (js "Missing required configuration: "
                    ++ join (js ", ") missing))
  else Ok tt.

(** An instance: its configuration, its downloader and the key its
    analyzer keeps. *)
Record instance : Type := {
  config : object;
  netsuiteDownloader : NetSuiteDownloader;
  geminiAnalyzer : jsval
}.

(** [new DueDateLogAnalyzer()], lines 5-21: the two collaborators are
    constructed first, the own validation runs last. *)
Definition constructor (process_env : jsstring -> option jsstring)
  : result instance :=
  let config := config_of process_env in
  netsuiteDownloader <- constructor config ;;
  geminiAnalyzer <- GeminiAnalyzer.constructor (obj_get config (js "geminiApiKey")) ;;
  _ <- validateConfig config ;;
  Ok {| config := config;
        netsuiteDownloader := netsuiteDownloader;
        geminiAnalyzer := geminiAnalyzer |}.

End DueDateLogAnalyzer.

(** An environment with the seven variables set, and one where the key
    of the analyzer and the token secret are not. *)
Definition process_env_full (name : jsstring) : option jsstring :=
  if existsb (str_eqb name) DueDateLogAnalyzer.variables then Some (js "x")
  else None.

Definition process_env_partial (name : jsstring) : option jsstring :=
  if str_eqb name (js "GEMINI_API_KEY") then None
  else if str_eqb name (js "NETSUITE_PROD_TOKEN_SECRET") then Some []
  else process_env_full name.

(* ================================================================== *)
(** ** [testAuth]: the address of the request *)

(** [String.prototype.toLowerCase] on the ASCII letters; the theorems on
    it take an ASCII account id. *)
Definition toLowerCase (s : jsstring) : jsstring :=
  map (fun c => if (65 <=? c) && (c <=? 90) then c + 32 else c) s.

(** [s.replace(pattern, replacement)] with a pattern and a replacement of
    one character each: a string pattern replaces its first occurrence
    only. *)
Fixpoint replace (pattern replacement : N) (s : jsstring) : jsstring :=
  match s with
  | [] => []
  | c :: rest =>
      if c =? pattern then replacement :: rest
      else c :: replace pattern replacement rest
  end.

(** Values of the second part of the file: a TypeError besides the
    exceptions above. *)
Inductive exception : Type :=
| Exn (e : exn)
| TypeError.

Inductive completion (A : Type) : Type :=
| Normal (a : A)
| Abrupt (e : exception).
Arguments Normal {A} a.
Arguments Abrupt {A} e.

Definition cbind {A B} (c : completion A) (k : A -> completion B)
  : completion B :=
  match c with
  | Normal a => k a
  | Abrupt e => Abrupt e
  end.

Notation "x <~ c ;; k" := (cbind c (fun x => k))
  (at level 61, c at next level, right associativity).

(** Lines 240-241 of [testAuth()]: the method [toLowerCase] exists on a
    string only. *)
Definition testAuth_url (this : NetSuiteDownloader) : completion jsstring :=
  match obj_get (config this) (js "accountId") with
  | JString accountId =>
      let baseUrl :=
        js "https://" ++ replace 95 45 (toLowerCase accountId)
        ++ js ".suitetalk.api.netsuite.com" in
      Normal (baseUrl ++ js "/services/rest/record/v1/metadata-catalog")
  | _ => Abrupt TypeError
  end.

(* ================================================================== *)
(** ** The response of the RESTlet

    [JSON.parse] gives [null], booleans, Numbers, strings, arrays and
    objects; [undefined] is what reading an absent member gives.  Numbers
    are integral, as above.  An object holds every name once, in the
    order of insertion. *)

#[local] Set Warnings "-register-all".

Inductive value : Type :=
| VUndefined
| VNull
| VBoolean (b : bool)
| VNumber (n : Z)
| VString (s : jsstring)
| VArray (items : list value)
| VObject (members : list (jsstring * value)).

(** [ToBoolean]. *)
Definition truthy (v : value) : bool :=
  match v with
  | VUndefined | VNull => false
  | VBoolean b => b
  | VNumber n => negb (n =? 0)%Z
  | VString s => match s with [] => false | _ => true end
  | VArray _ | VObject _ => true
  end.

(** The own member of a name, [undefined] when there is none. *)
Fixpoint member (members : list (jsstring * value)) (name : jsstring) : value :=
  match members with
  | [] => VUndefined
  | (k, v) :: members' => if str_eqb name k then v else member members' name
  end.

(** [v.name], for the names the source reads: [error], [code],
    [message], [success], [length], [name], [size].  None of them is
    inherited from a prototype, [length] of strings and arrays apart;
    reading a member of [null] or [undefined] is a TypeError. *)
Definition Get (v : value) (name : jsstring) : completion value :=
  match v with
  | VUndefined | VNull => Abrupt TypeError
  | VBoolean _ | VNumber _ => Normal VUndefined
  | VString s =>
      if str_eqb name (js "length") then Normal (VNumber (Z.of_nat (length s)))
      else Normal VUndefined
  | VArray items =>
      if str_eqb name (js "length")
      then Normal (VNumber (Z.of_nat (length items)))
      else Normal VUndefined
  | VObject members => Normal (member members name)
  end.

(** [v === literal] for a string or boolean literal. *)
Definition strict_equals_string (v : value) (literal : jsstring) : bool :=
  match v with
  | VString s => str_eqb s literal
  | _ => false
  end.

Definition strict_equals_boolean (v : value) (literal : bool) : bool :=
  match v with
  | VBoolean b => Bool.eqb b literal
  | _ => false
  end.

Definition strict_equals_number (v : value) (literal : Z) : bool :=
  match v with
  | VNumber n => (n =? literal)%Z
  | _ => false
  end.

(** [ToString] of a value, as a template literal applies it.  An array
    is joined with commas, [null] and [undefined] elements giving the
    empty string; an object without a member [toString] of its own is
    [[object Object]], and one with such a member (never a function in
    parsed JSON) has no primitive value: TypeError. *)
Fixpoint ToStringV (v : value) : completion jsstring :=
  match v with
  | VUndefined => Normal (js "undefined")
  | VNull => Normal (js "null")
  | VBoolean b => Normal (if b then js "true" else js "false")
  | VNumber n => Normal (Number_ToString n)
  | VString s => Normal s
  | VArray items =>
      let fix elements (l : list value) : completion (list jsstring) :=
        match l with
        | [] => Normal []
        | x :: l' =>
            s <~ match x with
                 | VUndefined | VNull => Normal []
                 | _ => ToStringV x
                 end ;;
            ss <~ elements l' ;;
            Normal (s :: ss)
        end in
      ss <~ elements items ;; Normal (join (js ",") ss)
  | VObject members =>
      if existsb (fun m => str_eqb (fst m) (js "toString")) members
      then Abrupt TypeError
      else Normal (js "[object Object]")
  end.

Definition throw_Error {A} (message : jsstring) : completion A :=
  Abrupt (Exn (Error message)).

(** Lines 102-119 of [downloadTodaysDueDateLogs()]: the checks on the
    parsed response before any file is written. *)
Definition checkResponse (response : value) : completion unit :=
  error <~ Get response (js "error") ;;
  if truthy error then
    code <~ Get error (js "code") ;;
    if strict_equals_string code (js "INVALID_LOGIN_ATTEMPT") then
      message <~ Get error (js "message") ;;
      message' <~ ToStringV message ;;
      throw_Error (js "Authentication failed: " ++ message'
                     ++ js ". Check your OAuth credentials and integration setup.")
    else
      code' <~ ToStringV code ;;
      message <~ Get error (js "message") ;;
      message' <~ ToStringV message ;;
      throw_Error (js "NetSuite API error: " ++ code' ++ js " - " ++ message')
  else if negb (truthy response) then
    throw_Error (js "NetSuite RESTlet error: No response received")
  else
    success <~ Get response (js "success") ;;
    if strict_equals_boolean success false then
      message <~ Get response (js "message") ;;
      error' <~ Get response (js "error") ;;
      text <~ ToStringV (if truthy message then message
                         else if truthy error' then error'
                         else VString (js "Unknown error")) ;;
      throw_Error (js "NetSuite RESTlet error: " ++ text)
    else if negb (strict_equals_boolean success true) then
      throw_Error (js "NetSuite RESTlet error: Unexpected response format")
    else Normal tt.

(** [a || b]: the first operand when it is truthy, else the second. *)
Definition or_else (a b : value) : value := if truthy a then a else b.

(** The loop of lines 136-154 over the entries of the array
    [response.logFiles].  The file system is not modelled: a call of
    [fs.writeFileSync] is recorded as the pair of its path and its
    content, and the exceptions of the file system itself are left out.
    [path.join] on two strings is a parameter, as are the directory
    [logs] of the working directory and the date of the call. *)
Section downloadTodaysDueDateLogs.

Variable path_join : jsstring -> jsstring -> jsstring.
Variable logsDir : jsstring.
Variable today : jsstring.

(** Line 138: the name of the entry, or a name made of the date and the
    position counted from one. *)
Definition defaultName (i : nat) : jsstring :=
  js "dueDateLogs-" ++ today ++ js "-" ++ Number_ToString (Z.of_nat (i + 1))
  ++ js ".txt".

Definition fileName (i : nat) (logData : value) : completion value :=
  name <~ Get logData (js "name") ;;
  Normal (or_else name (VString (defaultName i))).

(** Lines 137-153, one round: the writes asked (one, or none when the
    round fails before line 142) and the record pushed.  [path.join]
    throws a TypeError when the name is not a string; the template
    literal of line 153 applies [ToString] to the size. *)
Definition processLogData (i : nat) (logData : value)
  : list (jsstring * value) * completion value :=
  match fileName i logData with
  | Normal (VString name) =>
      let filePath := path_join logsDir name in
      match Get logData (js "content") with
      | Normal content' =>
          let content := or_else content' (VString []) in
          ([(filePath, content)],
           type <~ Get logData (js "type") ;;
           size <~ Get logData (js "size") ;;
           length' <~ Get content (js "length") ;;
           modified <~ Get logData (js "modified") ;;
           fileId <~ Get logData (js "fileId") ;;
           _ <~ ToStringV (or_else size length') ;;
           Normal (VObject
                     [ (js "name", VString name);
                       (js "path", VString filePath);
                       (js "type", or_else type (VString (js "duedate")));
                       (js "size", or_else size length');
                       (js "modified", or_else modified (VString today));
                       (js "fileId", or_else fileId VNull) ]))
      | Abrupt e => ([], Abrupt e)
      end
  | Normal _ => ([], Abrupt TypeError)
  | Abrupt e => ([], Abrupt e)
  end.

(** The loop from index [i] on, with the writes done and the records
    pushed so far: an exception leaves the writes done. *)
Fixpoint processLogFiles (i : nat) (responseLogFiles : list value)
    (writes : list (jsstring * value)) (logFiles : list value)
  : list (jsstring * value) * completion (list value) :=
  match responseLogFiles with
  | [] => (writes, Normal logFiles)
  | logData :: rest =>
      match processLogData i logData with
      | (written, Normal record) =>
          processLogFiles (S i) rest (writes ++ written) (logFiles ++ [record])
      | (written, Abrupt e) => (writes ++ written, Abrupt e)
      end
  end.

End downloadTodaysDueDateLogs.

(** An entry [path.join] gets through: not [null], and with a name that
    is a string or falsy. *)
Definition named (logData : value) : bool :=
  match Get logData (js "name") with
  | Normal (VString _) => true
  | Normal name => negb (truthy name)
  | Abrupt _ => false
  end.

(** White space and line terminators of ECMAScript, the characters
    [String.prototype.trim] removes at both ends. *)
Definition isWhiteSpace (c : N) : bool :=
  ((9 <=? c) && (c <=? 13)) || (c =? 32) || (c =? 0xA0) || (c =? 0x1680)
  || ((0x2000 <=? c) && (c <=? 0x200A)) || (c =? 0x2028) || (c =? 0x2029)
  || (c =? 0x202F) || (c =? 0x205F) || (c =? 0x3000) || (c =? 0xFEFF).

Fixpoint trimStart (s : jsstring) : jsstring :=
  match s with
  | [] => []
  | c :: rest => if isWhiteSpace c then trimStart rest else s
  end.

Definition trim (s : jsstring) : jsstring := rev (trimStart (rev (trimStart s))).

Definition is_primitive (v : value) : bool :=
  match v with
  | VArray _ | VObject _ => false
  | _ => true
  end.

(** An entry the loop gets through: its content too is a string or
    falsy, which is what [fs.writeFileSync] takes in every version of
    Node, and its size is no array or object. *)
Definition usable (logData : value) : bool :=
  named logData
  && match Get logData (js "content") with
     | Normal (VString _) => true
     | Normal content => negb (truthy content)
     | Abrupt _ => false
     end
  && match Get logData (js "size") with
     | Normal size => is_primitive size
     | Abrupt _ => false
     end.

(** An entry whose type too is no array or object. *)
Definition analyzable (logData : value) : bool :=
  usable logData
  && match Get logData (js "type") with
     | Normal type => is_primitive type
     | Abrupt _ => false
     end.

(** An entry whose file is written and whose round fails all the same:
    the size has no text. *)
Definition entry_without_size_text : value :=
  VObject [ (js "name", VString (js "b.txt"));
            (js "size", VObject [ (js "toString", VNull) ]) ].

(** An instance of [path.join] for plain file names. *)
Definition join_plain (dir file : jsstring) : jsstring := dir ++ js "/" ++ file.

(** Line 131 and the test of line 133: the entries the loop runs over.
    [response.logFiles || []] is the member when truthy; an array gives
    its elements, a string its characters; a Number or [true] has no
    [length], so that the test fails as it does for the empty array.  An
    object as member, whose [length] would have to be converted to a
    Number, is left out: [None]. *)
Definition entries_of (logFiles : value) : option (list value) :=
  match logFiles with
  | VArray entries => Some entries
  | VString s => Some (map (fun c => VString [c]) s)
  | VObject _ => None
  | _ => Some []
  end.

(** [downloadTodaysDueDateLogs()] from line 102 on, for the parsed
    response: the checks, the template literal of line 121 (it applies
    [ToString] to [response.message]), the loop, and the object of lines
    159-165.  The result is the writes asked and the completion of the
    call; [None] stands for the responses left out by [entries_of]. *)
Definition downloadTodaysDueDateLogs
    (path_join : jsstring -> jsstring -> jsstring) (logsDir today : jsstring)
    (response : value)
  : option (list (jsstring * value) * completion value) :=
  match (_ <~ checkResponse response ;;
         message <~ Get response (js "message") ;;
         _ <~ ToStringV message ;;
         logFiles <~ Get response (js "logFiles") ;;
         Normal (message, logFiles)) with
  | Abrupt e => Some ([], Abrupt e)
  | Normal (message, logFiles') =>
      match entries_of logFiles' with
      | None => None
      | Some responseLogFiles =>
          match processLogFiles path_join logsDir today 0 responseLogFiles [] []
          with
          | (writes, Abrupt e) => Some (writes, Abrupt e)
          | (writes, Normal logFiles) =>
              Some (writes,
                    Normal
                      (VObject
                         [ (js "success", VBoolean true);
                           (js "logFiles", VArray logFiles);
                           (js "totalFiles",
                             VNumber (Z.of_nat (length logFiles)));
                           (js "date", VString today);
                           (js "message", message) ]))
          end
      end
  end.

(* ================================================================== *)
(** ** [runDailyAnalysis] of the caller: the first step *)

(** [logFiles.forEach(file => console.log(...))], lines 51-53: only an
    array has the method; the callback reads [file.name] and [file.size]
    into a template literal. *)
Definition forEach_log (logFiles : value) : completion unit :=
  match logFiles with
  | VArray files =>
      (fix each (l : list value) : completion unit :=
         match l with
         | [] => Normal tt
         | file :: l' =>
             name <~ Get file (js "name") ;;
             _ <~ ToStringV name ;;
             size <~ Get file (js "size") ;;
             _ <~ ToStringV size ;;
             each l'
         end) files
  | _ => Abrupt TypeError
  end.

(** Where lines 42-57 and the handler of lines 82-87 lead, given the
    completion of the download: to the report that no log was found, to
    the analysis of the files, or to the handler with the exception. *)
Inductive step : Type :=
| createNoLogsReport
| analyzeLogFiles (logFiles : value)
| createErrorReport (error : exception).

Definition runDailyAnalysis (download : completion value) : step :=
  let body :=
    logFiles <~ download ;;
    length' <~ Get logFiles (js "length") ;;
    if strict_equals_number length' 0 then Normal createNoLogsReport
    else
      _ <~ ToStringV length' ;;
      _ <~ forEach_log logFiles ;;
      Normal (analyzeLogFiles logFiles) in
  match body with
  | Normal s => s
  | Abrupt e => createErrorReport e
  end.

(** A response with an error text and one that is accepted. *)
Definition response_error_text : value :=
  VObject [ (js "success", VBoolean false);
            (js "error", VString (js "Search limit exceeded")) ].

Definition response_accepted : value :=
  VObject [ (js "success", VBoolean true);
            (js "message", VString (js "Found 0 files"));
            (js "logFiles", VArray []) ].

(** An accepted response with two files, and one whose message has no
    text. *)
Definition response_two_files : value :=
  VObject [ (js "success", VBoolean true);
            (js "message", VString (js "Found 2 files"));
            (js "logFiles",
              VArray [ VObject [ (js "name", VString (js "a.txt"));
                                 (js "content", VString (js "line")) ];
                       VObject [ (js "content", VString (js "other")) ] ]) ].

Definition response_message_without_text : value :=
  VObject [ (js "success", VBoolean true);
            (js "message", VObject [ (js "toString", VBoolean false) ]);
            (js "logFiles", VArray []) ].

Definition is_object (v : value) : bool :=
  match v with VObject _ => true | _ => false end.

(** Neither [null] or [undefined] nor an object: a boolean, a Number, a
    string or an array. *)
Definition is_plain (v : value) : bool :=
  match v with
  | VBoolean _ | VNumber _ | VString _ | VArray _ => true
  | _ => false
  end.

Module MoreResponses.

(** Three entries: one with a name and a content, one without a name,
    one that is only a string. *)
Definition entries : list value :=
  [ VObject [ (js "name", VString (js "a.txt"));
              (js "content", VString (js "line")) ];
    VObject [ (js "content", VString (js "other")) ];
    VString (js "text") ].

End MoreResponses.

(* ================================================================== *)
(** ** The caller of [src/unnamed/part_004]

    A later form of [DueDateLogAnalyzer.runDailyAnalysis], which takes
    the files out of the object the download returns and counts the
    lines of their contents itself. *)

Module part_004.

(** Lines 45-66 and the handler of lines 118-127: where the first step
    leads. *)
Definition runDailyAnalysis (download : completion value) : step :=
  let body :=
    result <~ download ;;
    logFiles' <~ Get result (js "logFiles") ;;
    let logFiles := or_else logFiles' (VArray []) in
    length' <~ Get logFiles (js "length") ;;
    _ <~ ToStringV length' ;;
    if strict_equals_number length' 0 then Normal createNoLogsReport
    else
      match logFiles with
      | VArray _ => Normal (analyzeLogFiles logFiles)
      | _ => Abrupt TypeError
      end in
  match body with
  | Normal s => s
  | Abrupt e => createErrorReport e
  end.

(** Lines 80-84, the head of the callback of [logFiles.forEach]: the
    number of lines of the content that are not blank.  Only a string has
    the method [split]. *)
Definition lines (logFile : value) : completion Z :=
  name <~ Get logFile (js "name") ;;
  _ <~ ToStringV name ;;
  type <~ Get logFile (js "type") ;;
  _ <~ ToStringV type ;;
  content' <~ Get logFile (js "content") ;;
  match or_else content' (VString []) with
  | VString content =>
      Normal (Z.of_nat
                (length (filter (fun line => (0 <? length (trim line))%nat)
                                (split 10 content))))
  | _ => Abrupt TypeError
  end.

End part_004.
(* ================================================================== *)
(** ** Basic facts: strings, exceptions, finite checks *)

(** Splits a conjunction into its parts, without touching the parts. *)
Ltac split_all := repeat match goal with |- _ /\ _ => split end.

Lemma Ok_inj {A : Type} (x y : A) : Ok x = Ok y -> x = y.
Proof. intros H. now injection H. Qed.

Lemma str_eqb_eq (x y : jsstring) : str_eqb x y = true <-> x = y.
Proof.
  revert y; induction x as [|c x IH]; intros [|d y]; simpl; split;
    try discriminate; try reflexivity.
  - intros H. apply andb_true_iff in H as [Hc Hx].
    apply N.eqb_eq in Hc. apply IH in Hx. congruence.
  - intros H. injection H as -> ->. rewrite N.eqb_refl. now apply IH.
Qed.

Lemma str_eqb_refl (x : jsstring) : str_eqb x x = true.
Proof. now apply str_eqb_eq. Qed.

Lemma str_eqb_neq (x y : jsstring) : str_eqb x y = false <-> x <> y.
Proof.
  split.
  - intros H E. apply str_eqb_eq in E. congruence.
  - intros H. destruct (str_eqb x y) eqn:E; [|reflexivity].
    apply str_eqb_eq in E. contradiction.
Qed.

(** A property of code units checked below a bound by enumeration. *)
Lemma forall_below (P : N -> bool) (n : nat) :
  forallb P (map N.of_nat (seq 0 n)) = true ->
  forall x, x < N.of_nat n -> P x = true.
Proof.
  intros H x Hx. rewrite forallb_forall in H. apply H.
  apply in_map_iff. exists (N.to_nat x). split.
  - apply N2Nat.id.
  - apply in_seq. lia.
Qed.

Lemma char_in_above (set : jsstring) (c : N) :
  forallb (fun k => k <? 128) set = true -> 128 <= c -> char_in set c = false.
Proof.
  unfold char_in. induction set as [|k set IH]; simpl; intros H Hc.
  - reflexivity.
  - apply andb_true_iff in H as [Hk Hs]. apply N.ltb_lt in Hk.
    rewrite (IH Hs Hc), orb_false_r. apply N.eqb_neq. lia.
Qed.

Lemma uriUnescaped_above (c : N) : 128 <= c -> uriUnescaped c = false.
Proof.
  intros Hc. unfold uriUnescaped.
  now rewrite !char_in_above by (reflexivity || assumption).
Qed.

Lemma unreserved_above (c : N) : 128 <= c -> unreserved c = false.
Proof.
  intros Hc. unfold unreserved.
  rewrite char_in_above by (reflexivity || assumption).
  replace (c <=? 90) with false by (symmetry; apply N.leb_gt; lia).
  replace (c <=? 122) with false by (symmetry; apply N.leb_gt; lia).
  replace (c <=? 57) with false by (symmetry; apply N.leb_gt; lia).
  now rewrite !andb_false_r.
Qed.

Lemma reserved_above (c : N) : 128 <= c -> char_in (js "!'()*") c = false.
Proof. intros Hc. now apply char_in_above. Qed.

(** [encodeURIComponent] leaves alone the unreserved characters and the
    five marks the source escapes afterwards, and nothing else. *)
Lemma uriUnescaped_split (c : N) :
  uriUnescaped c = unreserved c || char_in (js "!'()*") c.
Proof.
  destruct (N.lt_ge_cases c 128) as [Hc|Hc].
  - apply Bool.eqb_prop. revert c Hc.
    apply (forall_below
             (fun c => Bool.eqb (uriUnescaped c)
                                (unreserved c || char_in (js "!'()*") c)) 128).
    vm_compute. reflexivity.
  - now rewrite uriUnescaped_above, unreserved_above, reserved_above.
Qed.

(* ================================================================== *)
(** ** The library calls on known answers *)

(** SHA-256 of the one-block and the two-block message of FIPS 180-4,
    HMAC-SHA256 of test case 2 of RFC 4231, base64 of RFC 4648. *)
Example sha256_abc :
  hexEncode (SHA256.digest (js "abc"))
  = js "ba7816bf8f01cfea414140de5dae2223b00361a396177a9cb410ff61f20015ad"
  /\ hexEncode (SHA256.digest
                  (js "abcdbcdecdefdefgefghfghighijhijkijkljklmklmnlmnomnopnopq"))
     = js "248d6a61d20638b8e5c026930c3e6039a33ce45964ff2167f6ecedd419db06c1"
  /\ length SHA256.K = 64%nat
  /\ nth 0 SHA256.K 0 = 0x428a2f98 /\ nth 63 SHA256.K 0 = 0xc67178f2
  /\ SHA256.a SHA256.H0 = 0x6a09e667 /\ SHA256.h SHA256.H0 = 0x5be0cd19.
Proof. split_all; vm_compute; reflexivity. Qed.

Example hmac_sha256_rfc4231 :
  hexEncode (hmac_sha256 (js "Jefe") (js "what do ya want for nothing?"))
  = js "5bdcc146bf60754e6a042426089575c75a003f089d2739839dec58b964ec3843".
Proof. vm_compute. reflexivity. Qed.

Example base64_rfc4648 :
  base64 (js "foobar") = js "Zm9vYmFy"
  /\ base64 (js "fooba") = js "Zm9vYmE="
  /\ base64 (js "foob") = js "Zm9vYg==".
Proof. repeat split; reflexivity. Qed.

(* ================================================================== *)
(** ** Percent-encoding *)

(** The escape of the built-in and the [%XX] of the specification agree
    on octets, and the later [replace] leaves such an escape alone. *)
Lemma replaceReserved_encodeOctet (o : N) :
  o < 256 -> replaceReserved (encodeOctet o) = pct_escape o.
Proof.
  intros Ho. apply str_eqb_eq. revert o Ho.
  apply (forall_below
           (fun o => str_eqb (replaceReserved (encodeOctet o)) (pct_escape o)) 256).
  vm_compute. reflexivity.
Qed.

(** A mark that [encodeURIComponent] copies is escaped by the callback
    of [replace] exactly as [%XX] asks; an unreserved character stays. *)
Lemma replaceReserved_unescaped (c : N) :
  uriUnescaped c = true ->
  replaceReserved [c] = if unreserved c then [c] else pct_escape c.
Proof.
  intros Hu. destruct (N.lt_ge_cases c 128) as [Hc|Hc].
  - assert (H : implb (uriUnescaped c)
                  (str_eqb (replaceReserved [c])
                           (if unreserved c then [c] else pct_escape c)) = true).
    { clear Hu. revert c Hc.
      apply (forall_below
               (fun c => implb (uriUnescaped c)
                           (str_eqb (replaceReserved [c])
                              (if unreserved c then [c] else pct_escape c))) 128).
      vm_compute. reflexivity. }
    rewrite Hu in H. simpl in H. now apply str_eqb_eq in H.
  - rewrite uriUnescaped_above in Hu by assumption. discriminate.
Qed.

Lemma replaceReserved_app (x y : jsstring) :
  replaceReserved (x ++ y) = replaceReserved x ++ replaceReserved y.
Proof. apply flat_map_app. Qed.

(** Range of an octet [N.lor k y], checked for every [y] below [n]. *)
Ltac octet_range k n :=
  match goal with
  | Hy : ?y < _ |- _ =>
      let H := fresh in
      assert (H : (128 <=? N.lor k y) && (N.lor k y <? 256) = true)
        by (revert y Hy;
            apply (forall_below
                     (fun y => (128 <=? N.lor k y) && (N.lor k y <? 256)) n);
            vm_compute; reflexivity);
      apply andb_true_iff in H as [?H ?H];
      split; [now apply N.leb_le | now apply N.ltb_lt]
  end.

Lemma lor_continuation (y : N) : y < 64 -> 128 <= N.lor 0x80 y < 256.
Proof. intros Hy. octet_range 0x80 64%nat. Qed.

Lemma lor_lead2 (y : N) : y < 32 -> 128 <= N.lor 0xC0 y < 256.
Proof. intros Hy. octet_range 0xC0 32%nat. Qed.

Lemma lor_lead3 (y : N) : y < 16 -> 128 <= N.lor 0xE0 y < 256.
Proof. intros Hy. octet_range 0xE0 16%nat. Qed.

Lemma lor_lead4 (y : N) : y < 8 -> 128 <= N.lor 0xF0 y < 256.
Proof. intros Hy. octet_range 0xF0 8%nat. Qed.

Lemma land_63 (x : N) : N.land x 0x3F < 64.
Proof.
  change 0x3F with (N.ones 6). rewrite N.land_ones.
  apply N.mod_lt. discriminate.
Qed.

Lemma shiftr_lt (x k m : N) : x < m * 2 ^ k -> N.shiftr x k < m.
Proof.
  intros H. rewrite N.shiftr_div_pow2.
  apply N.Div0.div_lt_upper_bound. lia.
Qed.

(** The octets of a code point outside ASCII lie in 128..255. *)
Lemma utf8_octets_high (cp : N) :
  128 <= cp -> cp < 0x110000 ->
  Forall (fun o => 128 <= o < 256) (utf8_octets cp).
Proof.
  intros Hlo Hhi. unfold utf8_octets.
  destruct (N.ltb_spec cp 0x80) as [H1|H1]; [lia|].
  destruct (N.ltb_spec cp 0x800) as [H2|H2];
    [|destruct (N.ltb_spec cp 0x10000) as [H3|H3]];
    repeat match goal with
           | |- Forall _ (_ :: _) => apply Forall_cons
           | |- Forall _ [] => apply Forall_nil
           end;
    try (apply lor_continuation, land_63).
  - apply lor_lead2, shiftr_lt. simpl; lia.
  - apply lor_lead3, shiftr_lt. simpl; lia.
  - apply lor_lead4, shiftr_lt. simpl; lia.
Qed.

(** What the built-in appends for a code point it escapes is, after the
    [replace] of the source, the [%XX] form of its octets. *)
Lemma escape_code_point (cp : N) :
  uriUnescaped cp = false -> cp < 0x110000 ->
  replaceReserved (flat_map encodeOctet (utf8_octets cp))
  = percent_encode_octets (utf8_octets cp).
Proof.
  intros Hu Hcp.
  assert (H : Forall (fun o => o < 256 /\ unreserved o = false) (utf8_octets cp)).
  { destruct (N.lt_ge_cases cp 128) as [Hc|Hc].
    - unfold utf8_octets. rewrite (proj2 (N.ltb_lt cp 0x80) Hc).
      constructor; [|constructor]. split; [lia|].
      rewrite uriUnescaped_split in Hu. now apply orb_false_iff in Hu.
    - eapply Forall_impl; [|apply utf8_octets_high; assumption].
      intros o [Ho1 Ho2]. split; [lia|]. now apply unreserved_above. }
  induction H as [|o os [Ho Hr] _ IH]; [reflexivity|].
  change (flat_map encodeOctet (o :: os))
    with (encodeOctet o ++ flat_map encodeOctet os).
  change (percent_encode_octets (o :: os))
    with ((if unreserved o then [o] else pct_escape o)
            ++ percent_encode_octets os).
  now rewrite replaceReserved_app, IH, Hr, replaceReserved_encodeOctet.
Qed.

Lemma surrogate_pair_range (c d : N) :
  isLeadingSurrogate c = true -> isTrailingSurrogate d = true ->
  0x10000 <= UTF16SurrogatePairToCodePoint c d < 0x110000.
Proof.
  unfold isLeadingSurrogate, isTrailingSurrogate, UTF16SurrogatePairToCodePoint.
  intros Hc Hd.
  apply andb_true_iff in Hc as [Hc1 Hc2]. apply andb_true_iff in Hd as [Hd1 Hd2].
  apply N.leb_le in Hc1, Hc2, Hd1, Hd2. lia.
Qed.

Lemma surrogate_above (c : N) :
  isLeadingSurrogate c = true \/ isTrailingSurrogate c = true -> 128 <= c.
Proof.
  unfold isLeadingSurrogate, isTrailingSurrogate.
  intros [H|H]; apply andb_true_iff in H as [H1 H2]; apply N.leb_le in H1; lia.
Qed.

Lemma percent_encode_octets_app (x y : list N) :
  percent_encode_octets (x ++ y)
  = percent_encode_octets x ++ percent_encode_octets y.
Proof. apply flat_map_app. Qed.

Lemma encode_agrees_len (n : nat) :
  forall s, (length s <= n)%nat -> wf_string s = true -> encode_agrees s.
Proof.
  unfold encode_agrees.
  induction n as [|n IH]; intros [|c rest] Hlen Hwf; try reflexivity.
  - simpl in Hlen. lia.
  - simpl in Hlen, Hwf. apply andb_true_iff in Hwf as [Hc Hrest].
    apply N.ltb_lt in Hc.
    assert (IHrest := IH rest ltac:(lia) Hrest).
    cbn [Encode code_points].
    destruct (uriUnescaped c) eqn:Hu.
    + (* copied by the built-in *)
      assert (H128 : c < 128).
      { destruct (N.lt_ge_cases c 128); [assumption|].
        rewrite uriUnescaped_above in Hu by assumption. discriminate. }
      destruct (isLeadingSurrogate c) eqn:Hl;
        [pose proof (surrogate_above c (or_introl Hl)); lia|].
      destruct (isTrailingSurrogate c) eqn:Ht;
        [pose proof (surrogate_above c (or_intror Ht)); lia|].
      destruct (Encode uriUnescaped rest) as [r|e];
        destruct (code_points rest) as [cps|];
        cbn [bind option_map]; try assumption.
      change (c :: r) with ([c] ++ r).
      rewrite replaceReserved_app, IHrest, replaceReserved_unescaped by assumption.
      cbn [flat_map]. rewrite percent_encode_octets_app.
      unfold utf8_octets. rewrite (proj2 (N.ltb_lt c 0x80) H128).
      unfold percent_encode_octets at 2. cbn [flat_map]. now rewrite app_nil_r.
    + destruct (isLeadingSurrogate c) eqn:Hl.
      * destruct rest as [|d rest']; [reflexivity|].
        simpl in Hrest. apply andb_true_iff in Hrest as [Hd Hrest'].
        destruct (isTrailingSurrogate d) eqn:Htd; [|reflexivity].
        assert (IH' := IH rest' ltac:(simpl in Hlen; lia) Hrest').
        pose proof (surrogate_pair_range c d Hl Htd) as Hcp.
        destruct (Encode uriUnescaped rest') as [r|e];
          destruct (code_points rest') as [cps|];
          cbn [bind option_map]; try assumption.
        cbn [flat_map].
        rewrite replaceReserved_app, IH', escape_code_point,
          percent_encode_octets_app; [reflexivity| |lia].
        apply uriUnescaped_above. lia.
      * destruct (isTrailingSurrogate c) eqn:Ht; [reflexivity|].
        destruct (Encode uriUnescaped rest) as [r|e];
          destruct (code_points rest) as [cps|];
          cbn [bind option_map]; try assumption.
        cbn [flat_map].
        rewrite replaceReserved_app, IHrest, escape_code_point,
          percent_encode_octets_app; [reflexivity|assumption|lia].
Qed.

Lemma encodeRFC3986_percent_encode (s : jsstring) :
  wf_string s = true -> encodeRFC3986 (JString s) = percent_encode s.
Proof.
  intros Hwf. pose proof (encode_agrees_len (length s) s (le_n _) Hwf) as H.
  unfold encode_agrees in H.
  unfold encodeRFC3986, encodeURIComponent, percent_encode, utf8_of_string.
  cbn [ToString].
  destruct (Encode uriUnescaped s) as [r|e];
    destruct (code_points s) as [cps|]; cbn [bind option_map];
    try contradiction; congruence.
Qed.

(* ================================================================== *)
(** ** Sorting *)

Section SortFacts.

Context {A : Type} (leb : A -> A -> bool).
Hypothesis leb_total : forall x y, leb x y = true \/ leb y x = true.
Hypothesis leb_trans :
  forall x y z, leb x y = true -> leb y z = true -> leb x z = true.
Hypothesis leb_antisym :
  forall x y, leb x y = true -> leb y x = true -> x = y.

Lemma leb_refl x : leb x x = true.
Proof. now destruct (leb_total x x). Qed.

Lemma insert_by_perm x l : Permutation (x :: l) (insert_by leb x l).
Proof.
  induction l as [|y l IH]; simpl.
  - apply Permutation_refl.
  - destruct (leb x y).
    + apply Permutation_refl.
    + eapply perm_trans; [apply perm_swap|]. now apply perm_skip.
Qed.

Lemma sort_by_perm l : Permutation l (sort_by leb l).
Proof.
  induction l as [|x l IH]; simpl.
  - apply perm_nil.
  - eapply perm_trans; [apply perm_skip, IH|]. apply insert_by_perm.
Qed.

Lemma forallb_perm (p : A -> bool) l l' :
  Permutation l l' -> forallb p l = forallb p l'.
Proof.
  induction 1; simpl; try congruence.
  now rewrite !andb_assoc, (andb_comm (p y)).
Qed.

Lemma insert_by_sorted x l :
  sorted_by leb l = true -> sorted_by leb (insert_by leb x l) = true.
Proof.
  induction l as [|y l IH]; simpl; intros Hs.
  - reflexivity.
  - apply andb_true_iff in Hs as [Hy Hl].
    destruct (leb x y) eqn:Hxy; simpl.
    + rewrite Hxy, Hy, Hl. simpl. rewrite andb_true_r.
      apply forallb_forall. intros z Hz.
      rewrite forallb_forall in Hy. eauto.
    + rewrite (IH Hl), andb_true_r.
      rewrite <- (forallb_perm (leb y) _ _ (insert_by_perm x l)). simpl.
      rewrite Hy, andb_true_r.
      destruct (leb_total x y); congruence.
Qed.

Lemma sort_by_sorted l : sorted_by leb (sort_by leb l) = true.
Proof.
  induction l as [|x l IH]; simpl; [reflexivity|].
  now apply insert_by_sorted.
Qed.

(** Two sorted arrangements of the same elements are the same list. *)
Lemma sorted_by_unique l :
  forall l', sorted_by leb l = true -> sorted_by leb l' = true ->
             Permutation l l' -> l = l'.
Proof.
  induction l as [|x l IH]; intros [|y l'] Hs Hs' Hp.
  - reflexivity.
  - now apply Permutation_nil in Hp.
  - symmetry in Hp. now apply Permutation_nil in Hp.
  - simpl in Hs, Hs'.
    apply andb_true_iff in Hs as [Hx Hl].
    apply andb_true_iff in Hs' as [Hy Hl'].
    rewrite forallb_forall in Hx, Hy.
    assert (Hxy : leb x y = true).
    { assert (Hin : In y (x :: l))
        by (eapply Permutation_in; [symmetry; eassumption|now left]).
      destruct Hin as [->|Hin]; [apply leb_refl|now apply Hx]. }
    assert (Hyx : leb y x = true).
    { assert (Hin : In x (y :: l'))
        by (eapply Permutation_in; [eassumption|now left]).
      destruct Hin as [->|Hin]; [apply leb_refl|now apply Hy]. }
    assert (x = y) by now apply leb_antisym. subst y.
    f_equal. apply IH; try assumption.
    now apply Permutation_cons_inv in Hp.
Qed.

Lemma sort_by_unique l l' :
  Permutation l l' -> sorted_by leb l' = true -> l' = sort_by leb l.
Proof.
  intros Hp Hs. apply sorted_by_unique; try assumption.
  - apply sort_by_sorted.
  - eapply perm_trans; [symmetry; eassumption|apply sort_by_perm].
Qed.

Lemma sort_by_perm_eq l l' :
  Permutation l l' -> sort_by leb l = sort_by leb l'.
Proof.
  intros Hp. apply sort_by_unique.
  - eapply perm_trans; [symmetry; eassumption|apply sort_by_perm].
  - apply sort_by_sorted.
Qed.

End SortFacts.

Lemma str_leb_total (x y : jsstring) : str_leb x y = true \/ str_leb y x = true.
Proof.
  revert y; induction x as [|c x IH]; intros [|d y]; simpl; auto.
  destruct (N.ltb_spec c d), (N.ltb_spec d c); auto.
Qed.

Lemma str_leb_trans (x y z : jsstring) :
  str_leb x y = true -> str_leb y z = true -> str_leb x z = true.
Proof.
  revert y z; induction x as [|c x IH]; intros [|d y] [|e z]; simpl;
    try discriminate; try reflexivity.
  destruct (N.ltb_spec c d), (N.ltb_spec d c), (N.ltb_spec d e),
    (N.ltb_spec e d), (N.ltb_spec c e), (N.ltb_spec e c);
    try discriminate; try reflexivity; try lia.
  apply IH.
Qed.

Lemma str_leb_antisym (x y : jsstring) :
  str_leb x y = true -> str_leb y x = true -> x = y.
Proof.
  revert y; induction x as [|c x IH]; intros [|d y]; simpl;
    try discriminate; try reflexivity.
  destruct (N.ltb_spec c d), (N.ltb_spec d c); try discriminate; try lia.
  intros H1 H2. f_equal; [lia|now apply IH].
Qed.

(** Whatever algorithm sorts the keys, the sorted array is this one. *)
Lemma Array_sort_unique (l l' : list jsstring) :
  Permutation l l' -> sorted_by str_leb l' = true -> l' = Array_sort l.
Proof.
  apply sort_by_unique.
  - apply str_leb_total.
  - apply str_leb_trans.
  - apply str_leb_antisym.
Qed.

Lemma Array_sort_perm (l : list jsstring) : Permutation l (Array_sort l).
Proof. apply sort_by_perm. Qed.

Lemma Array_sort_sorted (l : list jsstring) :
  sorted_by str_leb (Array_sort l) = true.
Proof. apply sort_by_sorted; [apply str_leb_total|apply str_leb_trans]. Qed.

Lemma pair_leb_total p q : pair_leb p q = true \/ pair_leb q p = true.
Proof.
  unfold pair_leb.
  destruct (str_eqb (fst p) (fst q)) eqn:E.
  - apply str_eqb_eq in E. rewrite E, str_eqb_refl. apply str_leb_total.
  - apply str_eqb_neq in E.
    assert (E' : str_eqb (fst q) (fst p) = false)
      by (apply str_eqb_neq; congruence).
    rewrite E'. apply str_leb_total.
Qed.

Lemma pair_leb_antisym p q :
  pair_leb p q = true -> pair_leb q p = true -> p = q.
Proof.
  unfold pair_leb. destruct p as [k v], q as [k' v']; simpl.
  destruct (str_eqb k k') eqn:E.
  - apply str_eqb_eq in E. subst k'. rewrite str_eqb_refl.
    intros H1 H2. f_equal. now apply str_leb_antisym.
  - apply str_eqb_neq in E.
    assert (E' : str_eqb k' k = false) by (apply str_eqb_neq; congruence).
    rewrite E'. intros H1 H2.
    exfalso. apply E. now apply str_leb_antisym.
Qed.

Lemma pair_leb_trans p q r :
  pair_leb p q = true -> pair_leb q r = true -> pair_leb p r = true.
Proof.
  unfold pair_leb. destruct p as [k1 v1], q as [k2 v2], r as [k3 v3]; simpl.
  destruct (str_eqb k1 k2) eqn:E12.
  - apply str_eqb_eq in E12. subst k2.
    destruct (str_eqb k1 k3); [apply str_leb_trans|auto].
  - apply str_eqb_neq in E12. intros H12.
    destruct (str_eqb k2 k3) eqn:E23.
    + apply str_eqb_eq in E23. subst k3. intros _.
      apply str_eqb_neq in E12. now rewrite E12.
    + intros H23. destruct (str_eqb k1 k3) eqn:E13.
      * apply str_eqb_eq in E13. subst k3.
        exfalso. apply E12. now apply str_leb_antisym.
      * eapply str_leb_trans; eassumption.
Qed.

(* ================================================================== *)
(** ** Objects *)

Lemma obj_get_define (o : object) (k k' : jsstring) (v : jsval) :
  obj_get (obj_define o k v) k' = if str_eqb k' k then v else obj_get o k'.
Proof.
  induction o as [|[k0 v0] o IH]; simpl.
  - reflexivity.
  - destruct (str_eqb k k0) eqn:E; simpl.
    + apply str_eqb_eq in E. subst k0. now destruct (str_eqb k' k).
    + rewrite IH. destruct (str_eqb k' k0) eqn:E0; [|reflexivity].
      apply str_eqb_eq in E0. subst k0.
      destruct (str_eqb k' k) eqn:E1; [|reflexivity].
      apply str_eqb_eq in E1. subst k'. rewrite str_eqb_refl in E. discriminate.
Qed.

Lemma obj_define_keys (o : object) (k k' : jsstring) (v : jsval) :
  In k' (Object_keys (obj_define o k v)) <-> k' = k \/ In k' (Object_keys o).
Proof.
  unfold Object_keys. induction o as [|[k0 v0] o IH]; simpl.
  - intuition.
  - destruct (str_eqb k k0) eqn:E; simpl.
    + apply str_eqb_eq in E. subst k0. intuition.
    + rewrite IH. intuition.
Qed.

Lemma obj_define_NoDup (o : object) (k : jsstring) (v : jsval) :
  NoDup (Object_keys o) -> NoDup (Object_keys (obj_define o k v)).
Proof.
  unfold Object_keys. induction o as [|[k0 v0] o IH]; simpl; intros Hn.
  - constructor; [intros []|constructor].
  - inversion Hn as [|? ? Hnin Hn']; subst.
    destruct (str_eqb k k0) eqn:E; simpl.
    + now constructor.
    + constructor; [|now apply IH].
      intros Hin. apply (obj_define_keys o k k0 v) in Hin as [->|Hin].
      * rewrite str_eqb_refl in E. discriminate.
      * contradiction.
Qed.

Lemma fold_define_NoDup (l o : object) :
  NoDup (Object_keys o) ->
  NoDup (Object_keys
           (fold_left (fun o kv => obj_define o (fst kv) (snd kv)) l o)).
Proof.
  revert o. induction l as [|[k v] l IH]; simpl; intros o Hn; [assumption|].
  now apply IH, obj_define_NoDup.
Qed.

Lemma fold_define_keys (l o : object) (k : jsstring) :
  In k (Object_keys
          (fold_left (fun o kv => obj_define o (fst kv) (snd kv)) l o))
  <-> In k (Object_keys l) \/ In k (Object_keys o).
Proof.
  revert o. induction l as [|[k0 v0] l IH]; simpl; intros o.
  - intuition.
  - rewrite IH, obj_define_keys. intuition.
Qed.

(** A key the later entries do not mention keeps its value. *)
Lemma fold_define_get_other (l o : object) (k : jsstring) :
  ~ In k (Object_keys l) ->
  obj_get (fold_left (fun o kv => obj_define o (fst kv) (snd kv)) l o) k
  = obj_get o k.
Proof.
  revert o. induction l as [|[k0 v0] l IH]; simpl; intros o Hn; [reflexivity|].
  rewrite IH by tauto. rewrite obj_get_define.
  destruct (str_eqb k k0) eqn:E; [|reflexivity].
  apply str_eqb_eq in E. subst k0. tauto.
Qed.

(** A key the later entries mention takes their value. *)
Lemma fold_define_get_in (l o : object) (k : jsstring) (v : jsval) :
  NoDup (Object_keys l) -> In (k, v) l ->
  obj_get (fold_left (fun o kv => obj_define o (fst kv) (snd kv)) l o) k = v.
Proof.
  revert o. induction l as [|[k0 v0] l IH]; simpl; intros o Hn Hin; [easy|].
  inversion Hn as [|? ? Hnin Hn']; subst.
  destruct Hin as [E|Hin].
  - injection E as -> ->.
    rewrite fold_define_get_other by assumption.
    now rewrite obj_get_define, str_eqb_refl.
  - now apply IH.
Qed.

Lemma obj_get_in (o : object) (k : jsstring) (v : jsval) :
  NoDup (Object_keys o) -> In (k, v) o -> obj_get o k = v.
Proof.
  induction o as [|[k0 v0] o IH]; simpl; intros Hn Hin; [easy|].
  inversion Hn as [|? ? Hnin Hn']; subst.
  destruct Hin as [E|Hin].
  - injection E as -> ->. now rewrite str_eqb_refl.
  - destruct (str_eqb k k0) eqn:E; [|now apply IH].
    apply str_eqb_eq in E. subst k0.
    exfalso. apply Hnin. change k with (fst (k, v)). now apply in_map.
Qed.

Lemma obj_get_notin (o : object) (k : jsstring) :
  ~ In k (Object_keys o) -> obj_get o k = JUndefined.
Proof.
  induction o as [|[k0 v0] o IH]; simpl; intros Hn; [reflexivity|].
  destruct (str_eqb k k0) eqn:E.
  - apply str_eqb_eq in E. subst k0. tauto.
  - apply IH. tauto.
Qed.

(** The value of a key does not depend on the order of the properties. *)
Lemma obj_get_perm (o1 o2 : object) (k : jsstring) :
  NoDup (Object_keys o1) -> Permutation o1 o2 -> obj_get o1 k = obj_get o2 k.
Proof.
  intros Hn Hp.
  assert (Hk : Permutation (Object_keys o1) (Object_keys o2))
    by now apply Permutation_map.
  assert (Hn2 : NoDup (Object_keys o2))
    by (eapply Permutation_NoDup; eassumption).
  destruct (in_dec (list_eq_dec N.eq_dec) k (Object_keys o1)) as [Hin|Hnin].
  - apply in_map_iff in Hin as [[k' v] [E Hin]]. simpl in E. subst k'.
    rewrite (obj_get_in o1 k v) by assumption.
    symmetry. apply obj_get_in; [assumption|].
    eapply Permutation_in; eassumption.
  - rewrite obj_get_notin by assumption.
    symmetry. apply obj_get_notin.
    intros Hin. apply Hnin. eapply Permutation_in; [symmetry|]; eassumption.
Qed.

(** An object is its keys paired with their values. *)
Lemma obj_keys_values (o : object) :
  NoDup (Object_keys o) ->
  map (fun k => (k, obj_get o k)) (Object_keys o) = o.
Proof.
  intros Hn.
  assert (H : forall l, incl l o ->
                        map (fun k => (k, obj_get o k)) (Object_keys l) = l).
  { induction l as [|[k v] l IH]; simpl; intros Hi; [reflexivity|].
    rewrite IH by (intros x Hx; apply Hi; now right).
    rewrite (obj_get_in o k v); [reflexivity|assumption|].
    apply Hi. now left. }
  apply H, incl_refl.
Qed.

(* ================================================================== *)
(** ** [map] with a callback that may throw *)

Lemma mapM_ext_in {A B} (f g : A -> result B) (l : list A) :
  (forall x, In x l -> f x = g x) -> mapM f l = mapM g l.
Proof.
  induction l as [|x l IH]; simpl; intros H; [reflexivity|].
  rewrite H by now left. rewrite IH; [reflexivity|].
  intros y Hy. apply H. now right.
Qed.

Lemma mapM_map {A B C} (f : B -> result C) (g : A -> B) (l : list A) :
  mapM f (map g l) = mapM (fun x => f (g x)) l.
Proof.
  induction l as [|x l IH]; simpl; [reflexivity|]. now rewrite IH.
Qed.

Lemma mapM_fmap {A B C} (f : A -> result B) (h : B -> C) (l : list A) :
  mapM (fun x => y <- f x ;; Ok (h y)) l
  = (ys <- mapM f l ;; Ok (map h ys)).
Proof.
  induction l as [|x l IH]; simpl; [reflexivity|].
  rewrite IH. destruct (f x); simpl; [|reflexivity].
  now destruct (mapM f l).
Qed.

Lemma mapM_perm {A B} (f : A -> result B) (e0 : exn) (l l' : list A) :
  (forall x e, f x = Throw e -> e = e0) ->
  Permutation l l' -> same_outcome (mapM f l) (mapM f l').
Proof.
  intros He Hp. unfold same_outcome.
  induction Hp as [|x l l' Hp IH|x y l|l l' l'' Hp1 IH1 Hp2 IH2]; simpl.
  - apply perm_nil.
  - destruct (f x) eqn:Ex; simpl; [|reflexivity].
    destruct (mapM f l), (mapM f l'); simpl; try contradiction;
      [now apply perm_skip|assumption].
  - destruct (f x) as [bx|ex] eqn:Ex; destruct (f y) as [by'|ey] eqn:Ey;
      destruct (mapM f l) as [bl|el]; simpl;
      try reflexivity; try apply perm_swap;
      apply He in Ex; apply He in Ey; congruence.
  - destruct (mapM f l), (mapM f l'), (mapM f l''); simpl in *;
      try contradiction; try congruence.
    eapply perm_trans; eassumption.
Qed.

(* ================================================================== *)
(** ** The encoder: what it throws, what it leaves alone *)

Lemma Encode_throw_len (n : nat) :
  forall s e, (length s <= n)%nat ->
              Encode uriUnescaped s = Throw e -> e = URIError.
Proof.
  induction n as [|n IH]; intros [|c rest] e Hlen; simpl in Hlen;
    try discriminate; try lia.
  cbn [Encode].
  destruct (uriUnescaped c).
  - destruct (Encode uriUnescaped rest) eqn:E; simpl; [discriminate|].
    intros H. injection H as <-. apply (IH rest); [lia|assumption].
  - destruct (isLeadingSurrogate c).
    + destruct rest as [|d rest']; [congruence|].
      destruct (isTrailingSurrogate d); [|congruence].
      destruct (Encode uriUnescaped rest') eqn:E; simpl; [discriminate|].
      intros H. injection H as <-. apply (IH rest'); [simpl in Hlen; lia|assumption].
    + destruct (isTrailingSurrogate c); [congruence|].
      destruct (Encode uriUnescaped rest) eqn:E; simpl; [discriminate|].
      intros H. injection H as <-. apply (IH rest); [lia|assumption].
Qed.

(** The only exception of the encoder is URIError. *)
Lemma encodeRFC3986_throw (v : jsval) (e : exn) :
  encodeRFC3986 v = Throw e -> e = URIError.
Proof.
  unfold encodeRFC3986, encodeURIComponent.
  destruct (Encode uriUnescaped (ToString v)) eqn:E; simpl; [discriminate|].
  intros H. injection H as <-.
  eapply Encode_throw_len; [apply le_n|eassumption].
Qed.

Lemma unreserved_uriUnescaped (c : N) :
  unreserved c = true -> uriUnescaped c = true.
Proof. intros H. now rewrite uriUnescaped_split, H. Qed.

(** A string of unreserved characters is its own encoding. *)
Lemma Encode_unreserved (k : jsstring) :
  all_unreserved k = true -> Encode uriUnescaped k = Ok k.
Proof.
  induction k as [|c k IH]; simpl; intros H; [reflexivity|].
  apply andb_true_iff in H as [Hc Hk].
  now rewrite (unreserved_uriUnescaped c Hc), (IH Hk).
Qed.

Lemma replaceReserved_unreserved (k : jsstring) :
  all_unreserved k = true -> replaceReserved k = k.
Proof.
  induction k as [|c k IH]; intros H; [reflexivity|].
  simpl in H. apply andb_true_iff in H as [Hc Hk].
  change (c :: k) with ([c] ++ k) at 1.
  rewrite replaceReserved_app, (IH Hk),
    (replaceReserved_unescaped c (unreserved_uriUnescaped c Hc)), Hc.
  reflexivity.
Qed.

Lemma encodeRFC3986_unreserved (k : jsstring) :
  all_unreserved k = true -> encodeRFC3986 (JString k) = Ok k.
Proof.
  intros H. unfold encodeRFC3986, encodeURIComponent. cbn [ToString].
  rewrite (Encode_unreserved k H). cbn [bind].
  now rewrite replaceReserved_unreserved.
Qed.

(* ================================================================== *)
(** ** The canonical parameter string *)

Lemma paramItem_encodePair (o : object) (k : jsstring) :
  paramItem o k = (p <- encodePair (k, obj_get o k) ;; Ok (renderPair p)).
Proof.
  unfold paramItem, encodePair, renderPair. simpl.
  destruct (encodeRFC3986 (JString k)); simpl; [|reflexivity].
  now destruct (encodeRFC3986 (obj_get o k)).
Qed.

(** The parameter string, as the encoded pairs of the keys in sorted
    order. *)
Lemma paramString_pairs (o : object) :
  paramString o
  = (pairs <- mapM encodePair
                (map (fun k => (k, obj_get o k)) (Array_sort (Object_keys o))) ;;
     Ok (join (js "&") (map renderPair pairs))).
Proof.
  unfold paramString.
  rewrite (mapM_ext_in (paramItem o)
             (fun k => p <- encodePair (k, obj_get o k) ;; Ok (renderPair p)))
    by (intros; apply paramItem_encodePair).
  rewrite (mapM_fmap (fun k => encodePair (k, obj_get o k)) renderPair).
  rewrite mapM_map.
  now destruct (mapM _ _).
Qed.

Lemma encodePair_throw (kv : jsstring * jsval) (e : exn) :
  encodePair kv = Throw e -> e = URIError.
Proof.
  unfold encodePair.
  destruct (encodeRFC3986 (JString (fst kv))) eqn:E1; simpl.
  - destruct (encodeRFC3986 (snd kv)) eqn:E2; simpl; [discriminate|].
    intros H. injection H as <-. eapply encodeRFC3986_throw; eassumption.
  - intros H. injection H as <-. eapply encodeRFC3986_throw; eassumption.
Qed.

Lemma encodePair_keys (l : object) :
  forall ps, forallb (fun kv => all_unreserved (fst kv)) l = true ->
             mapM encodePair l = Ok ps -> map fst ps = Object_keys l.
Proof.
  induction l as [|[k v] l IH]; simpl; intros ps Hu.
  - intros H. now injection H as <-.
  - apply andb_true_iff in Hu as [Hk Hl].
    unfold encodePair at 1. simpl.
    rewrite (encodeRFC3986_unreserved k Hk). simpl.
    destruct (encodeRFC3986 v); simpl; [|discriminate].
    destruct (mapM encodePair l) as [ps'|] eqn:E; simpl; [|discriminate].
    intros H. injection H as <-. simpl. f_equal. now apply IH.
Qed.

(** Pairs with distinct keys in ascending order are in the order of the
    specification: no tie is ever decided by a value. *)
Lemma sorted_pairs (ps : list (jsstring * jsstring)) :
  sorted_by str_leb (map fst ps) = true -> NoDup (map fst ps) ->
  sorted_by pair_leb ps = true.
Proof.
  induction ps as [|p ps IH]; simpl; intros Hs Hn; [reflexivity|].
  apply andb_true_iff in Hs as [Hp Hs].
  inversion Hn as [|? ? Hnin Hn']; subst.
  rewrite IH, andb_true_r by assumption.
  apply forallb_forall. intros q Hq.
  rewrite forallb_forall in Hp.
  unfold pair_leb.
  destruct (str_eqb (fst p) (fst q)) eqn:E.
  - apply str_eqb_eq in E. exfalso. apply Hnin. rewrite E. now apply in_map.
  - apply Hp. now apply in_map.
Qed.

Lemma forallb_perm_obj (p : jsstring * jsval -> bool) (l l' : object) :
  Permutation l l' -> forallb p l = forallb p l'.
Proof.
  induction 1; simpl; try congruence.
  now rewrite !andb_assoc, (andb_comm (p y)).
Qed.

(** On an object whose keys are unreserved the source computes the
    canonical parameter string of the specification. *)
Lemma paramString_canonical_unreserved (o : object) :
  NoDup (Object_keys o) ->
  forallb (fun kv => all_unreserved (fst kv)) o = true ->
  paramString o = canonical_parameter_string o.
Proof.
  intros Hn Hu. rewrite paramString_pairs. unfold canonical_parameter_string.
  set (o' := map (fun k => (k, obj_get o k)) (Array_sort (Object_keys o))).
  assert (Hp : Permutation o o').
  { rewrite <- (obj_keys_values o Hn) at 1.
    apply Permutation_map, Array_sort_perm. }
  assert (Hk' : Object_keys o' = Array_sort (Object_keys o)).
  { unfold o', Object_keys. rewrite map_map. simpl. apply map_id. }
  pose proof (mapM_perm encodePair URIError o o' encodePair_throw Hp) as H.
  unfold same_outcome in H.
  destruct (mapM encodePair o) as [ps|e] eqn:E1;
    destruct (mapM encodePair o') as [ps'|e'] eqn:E2;
    try contradiction; simpl; [|congruence].
  do 3 f_equal.
  apply sort_by_unique; try assumption.
  - apply pair_leb_total.
  - apply pair_leb_trans.
  - apply pair_leb_antisym.
  - assert (Hf : map fst ps' = Array_sort (Object_keys o)).
    { rewrite <- Hk'. apply encodePair_keys; [|assumption].
      now rewrite <- (forallb_perm_obj _ o o' Hp). }
    apply sorted_pairs; rewrite Hf.
    + apply Array_sort_sorted.
    + eapply Permutation_NoDup; [apply Array_sort_perm|assumption].
Qed.

(** The merged object of a call: its keys. *)
Lemma queryParams_keys_fold (l : list (jsstring * jsstring)) :
  forall (o : object) (k : jsstring),
    In k (Object_keys
            (fold_left (fun o kv => obj_assign o (fst kv) (JString (snd kv))) l o)) ->
    In k (map fst l) \/ In k (Object_keys o).
Proof.
  induction l as [|[k0 v0] l IH]; simpl; intros o k Hin; [now right|].
  apply IH in Hin as [Hin|Hin]; [tauto|].
  unfold obj_assign in Hin.
  destruct (str_eqb k0 (js "__proto__")); [tauto|].
  apply obj_define_keys in Hin. intuition.
Qed.

Lemma queryParams_NoDup_fold (l : list (jsstring * jsstring)) :
  forall o : object,
    NoDup (Object_keys o) ->
    NoDup (Object_keys
             (fold_left (fun o kv => obj_assign o (fst kv) (JString (snd kv))) l o)).
Proof.
  induction l as [|[k0 v0] l IH]; simpl; intros o Hn; [assumption|].
  apply IH. unfold obj_assign.
  destruct (str_eqb k0 (js "__proto__")); [assumption|].
  now apply obj_define_NoDup.
Qed.

Lemma allParams_NoDup this env urlObj :
  NoDup (Object_keys (allParams this env urlObj)).
Proof. apply fold_define_NoDup. constructor. Qed.

Lemma allParams_keys this env urlObj (k : jsstring) :
  In k (Object_keys (allParams this env urlObj)) ->
  In k protocol_names \/ In k (map fst (searchParams urlObj)).
Proof.
  unfold allParams, obj_spread. intros Hin.
  apply fold_define_keys in Hin as [Hin|[]].
  unfold Object_keys in Hin. rewrite map_app in Hin.
  apply in_app_or in Hin as [Hin|Hin]; [now left|right].
  apply (queryParams_keys_fold _ [] k) in Hin as [Hin|[]]. exact Hin.
Qed.


(* ================================================================== *)
(** ** The encoder, the parameter string, the base string, the constructor *)

(** [%XX] is a percent sign and two upper-case hexadecimal digits whose
    value is the octet. *)
Lemma pct_escape_value (b : N) :
  b < 256 ->
  exists h l, pct_escape b = [37; h; l]
              /\ hex_value h < 16 /\ hex_value l < 16
              /\ 16 * hex_value h + hex_value l = b.
Proof.
  intros Hb. exists (hexUpper (b / 16)), (hexUpper (b mod 16)).
  split; [reflexivity|].
  assert (H : (hex_value (hexUpper (b / 16)) <? 16)
              && (hex_value (hexUpper (b mod 16)) <? 16)
              && (16 * hex_value (hexUpper (b / 16))
                  + hex_value (hexUpper (b mod 16)) =? b) = true).
  { revert b Hb.
    apply (forall_below
             (fun b => (hex_value (hexUpper (b / 16)) <? 16)
                       && (hex_value (hexUpper (b mod 16)) <? 16)
                       && (16 * hex_value (hexUpper (b / 16))
                           + hex_value (hexUpper (b mod 16)) =? b)) 256).
    vm_compute. reflexivity. }
  apply andb_true_iff in H as [H H3]. apply andb_true_iff in H as [H1 H2].
  apply N.ltb_lt in H1, H2. apply N.eqb_eq in H3. auto.
Qed.

(** C1.  [encodeRFC3986] leaves exactly the RFC 3986 unreserved characters
    (letters, digits, [-], [.], [_], [~]) as they are and escapes every
    other octet of the UTF-8 form of its input as [%XX] in upper-case
    hexadecimal, for every string: it is the function [percent_encode]
    written from the specification (which, like the source, has no result
    for a string with an unpaired surrogate, a string without a UTF-8
    form).  In particular each of [! ' ( ) * space & = / : ?] is escaped
    and each unreserved character is kept. *)
Theorem encodeRFC3986_rfc3986 (s : jsstring) (Hwf : wf_string s = true) :
  encodeRFC3986 (JString s) = percent_encode s
  /\ (forall c, unreserved c = true -> encodeRFC3986 (JString [c]) = Ok [c])
  /\ (forall c, In c (js "!'()* &=/:?") ->
                encodeRFC3986 (JString [c]) = Ok (pct_escape c)).
Proof.
  split; [now apply encodeRFC3986_percent_encode|split].
  - intros c Hc. apply encodeRFC3986_unreserved. simpl. now rewrite Hc.
  - intros c Hc. simpl in Hc.
    repeat (destruct Hc as [<-|Hc]; [vm_compute; reflexivity|]).
    contradiction.
Qed.

Lemma encodeRFC3986_rfc3986_witness :
  wf_string Sample.text = true
  /\ encodeRFC3986 (JString Sample.text)
     = Ok (js "Az09-._~%20%21%27%28%29%2A%26%3D%2F%3A%3F%25%C3%A9%E2%82%AC%F0%9F%98%80")
  /\ percent_encode Sample.text = encodeRFC3986 (JString Sample.text).
Proof.
  split; [reflexivity|split; [reflexivity|]].
  symmetry. apply (encodeRFC3986_rfc3986 Sample.text). reflexivity.
Defined.

(** C2, as the source has it.  The parameter string lists the encoded
    [key=value] pairs of the merged parameters in the order of their
    un-encoded keys (code unit order), joined with [&]; the merged object
    holds each key once, so no tie is decided by a value.  When the keys
    of the query string consist of unreserved characters, as the six OAuth
    names do, this is the order by encoded key of the specification. *)
Theorem paramString_ordered (this : NetSuiteDownloader) (env : Env) (urlObj : URL) :
  let o := allParams this env urlObj in
  let ks := Array_sort (Object_keys o) in
  (Permutation (Object_keys o) ks /\ NoDup ks /\ sorted_by str_leb ks = true
   /\ paramString o
      = (pairs <- mapM encodePair (map (fun k => (k, obj_get o k)) ks) ;;
         Ok (join (js "&") (map renderPair pairs))))
  /\ (forallb (fun kv => all_unreserved (fst kv)) (searchParams urlObj) = true ->
      paramString o = canonical_parameter_string o).
Proof.
  intros o ks. split; [repeat split|].
  - apply Array_sort_perm.
  - eapply Permutation_NoDup; [apply Array_sort_perm|apply allParams_NoDup].
  - apply Array_sort_sorted.
  - apply paramString_pairs.
  - intros Hq. apply paramString_canonical_unreserved.
    + apply allParams_NoDup.
    + apply forallb_forall. intros [k v] Hin. simpl.
      assert (Hk : In k (Object_keys o))
        by (change k with (fst (k, v)); now apply in_map).
      apply allParams_keys in Hk as [Hk|Hk].
      * simpl in Hk.
        repeat (destruct Hk as [<-|Hk]; [reflexivity|]). contradiction.
      * apply in_map_iff in Hk as [[k' v'] [E Hk]]. simpl in E. subst k'.
        rewrite forallb_forall in Hq. apply (Hq _ Hk).
Qed.

Lemma paramString_ordered_witness :
  forallb (fun kv => all_unreserved (fst kv)) (searchParams Sample.url) = true
  /\ paramString (allParams Sample.this Sample.env Sample.url)
     = canonical_parameter_string (allParams Sample.this Sample.env Sample.url).
Proof.
  split; [reflexivity|].
  apply (proj2 (paramString_ordered Sample.this Sample.env Sample.url)).
  reflexivity.
Defined.

(** C2 as stated fails: with the query [a.b=1&a/b=2] the source puts
    [a.b] before [a/b] (["."] is below ["/"]), while the encoded keys
    [a.b] and [a%2Fb] sort the other way (["%"] is below ["."]). *)
Lemma paramString_not_by_encoded_key :
  paramString (allParams Sample.this Sample.env Sample.url_mixed)
  = Ok (js "a.b=1&a%2Fb=2&oauth_consumer_key=CK&oauth_nonce=0102030405060708090a0b0c0d0e0fff&oauth_signature_method=HMAC-SHA256&oauth_timestamp=1700000000&oauth_token=TK&oauth_version=1.0")
  /\ canonical_parameter_string (allParams Sample.this Sample.env Sample.url_mixed)
     = Ok (js "a%2Fb=2&a.b=1&oauth_consumer_key=CK&oauth_nonce=0102030405060708090a0b0c0d0e0fff&oauth_signature_method=HMAC-SHA256&oauth_timestamp=1700000000&oauth_token=TK&oauth_version=1.0")
  /\ paramString (allParams Sample.this Sample.env Sample.url_mixed)
     <> canonical_parameter_string (allParams Sample.this Sample.env Sample.url_mixed).
Proof.
  split; [vm_compute; reflexivity|split; [vm_compute; reflexivity|]].
  intros H. vm_compute in H. discriminate H.
Qed.

(** C8.  The parameter string does not depend on the order in which the
    object presents its properties: two objects that hold the same
    (key, value) pairs give the same string, identical code unit by code
    unit (including the case where it throws). *)
Theorem paramString_order_invariant (o1 o2 : object) :
  NoDup (Object_keys o1) -> Permutation o1 o2 ->
  paramString o1 = paramString o2.
Proof.
  intros Hn Hp. unfold paramString.
  assert (Hk : Array_sort (Object_keys o1) = Array_sort (Object_keys o2)).
  { apply sort_by_perm_eq.
    - apply str_leb_total.
    - apply str_leb_trans.
    - apply str_leb_antisym.
    - now apply Permutation_map. }
  rewrite <- Hk.
  rewrite (mapM_ext_in (paramItem o1) (paramItem o2)); [reflexivity|].
  intros k _. unfold paramItem. now rewrite (obj_get_perm o1 o2 k Hn Hp).
Qed.

Lemma paramString_order_invariant_witness :
  paramString (allParams Sample.this Sample.env Sample.url)
  = paramString (rev (allParams Sample.this Sample.env Sample.url)).
Proof.
  apply paramString_order_invariant.
  - apply allParams_NoDup.
  - apply Permutation_rev.
Defined.

(** C3, as the source has it.  The base string is the method token as the
    caller passed it (the source does not change its case), ["&"], the
    encoding of the base URL, ["&"], the encoding of the parameter string,
    both by [encodeRFC3986]; the base URL is scheme, ["://"], host (with
    the port when the URL has one) and path, whatever the query string and
    the fragment are.  For a token that is already upper case this is the
    base string of the specification. *)
Theorem baseString_shape (method : jsstring) (urlObj : URL) (params : jsstring) :
  baseUrl urlObj
  = url_scheme urlObj ++ js "://" ++ host urlObj ++ url_path urlObj
  /\ (forall query fragment,
        baseUrl (mkURL (url_scheme urlObj) (url_host urlObj) (url_port urlObj)
                       (url_path urlObj) query fragment)
        = baseUrl urlObj)
  /\ (forall u p,
        encodeRFC3986 (JString (baseUrl urlObj)) = Ok u ->
        encodeRFC3986 (JString params) = Ok p ->
        baseString method (baseUrl urlObj) params
        = Ok (method ++ [38] ++ u ++ [38] ++ p))
  /\ (toUpperCase method = method ->
      baseString method (baseUrl urlObj) params
      = signature_base_string method (baseUrl urlObj) params).
Proof.
  repeat split.
  - unfold baseUrl, protocol, pathname. now rewrite <- !app_assoc.
  - intros u p Hu Hp. unfold baseString. now rewrite Hu, Hp.
  - intros Hm. unfold baseString, signature_base_string. now rewrite Hm.
Qed.

Lemma baseString_shape_witness :
  toUpperCase (js "POST") = js "POST"
  /\ baseString (js "POST") (baseUrl Sample.url) (js "script=1")
     = signature_base_string (js "POST") (baseUrl Sample.url) (js "script=1").
Proof.
  split; [reflexivity|].
  apply (baseString_shape (js "POST") Sample.url (js "script=1")).
  reflexivity.
Defined.

(** C3 as stated fails: the token [post] stays in lower case. *)
Lemma baseString_keeps_case :
  baseString (js "post") (baseUrl Sample.url) (js "script=1")
  = Ok (js "post&https%3A%2F%2Fexample.com%2Fapp.nl&script%3D1")
  /\ signature_base_string (js "post") (baseUrl Sample.url) (js "script=1")
     = Ok (js "POST&https%3A%2F%2Fexample.com%2Fapp.nl&script%3D1").
Proof. split; vm_compute; reflexivity. Qed.

(** C6.  A configuration in which a required entry is missing or empty
    is refused by the constructor with an error whose message lists, in
    the order of [required], exactly the entries that are missing; a
    signing call on such a configuration ends in that error whatever the
    clock, the random octets, the URL and the method are, so before any
    encoding or HMAC: no URIError of an encoder can take its place.  An
    empty or absent [tokenSecret] is one such entry. *)
Theorem constructor_rejects_missing (cfg : object) (env : Env) (urlObj : URL)
    (method : jsstring) :
  (exists key, In key required /\ ToBoolean (obj_get cfg key) = false) ->
  exists missing,
    missing <> []
    /\ missing = filter (fun key => negb (ToBoolean (obj_get cfg key))) required
    /\ (forall key, In key missing
                    <-> In key required /\ ToBoolean (obj_get cfg key) = false)
    /\ (ToBoolean (obj_get cfg (js "tokenSecret")) = false ->
        In (js "tokenSecret") missing)
    /\ constructor cfg
       = Throw (Error (js "Missing required configuration: "
                         ++ join (js ", ") missing))
    /\ sign cfg env urlObj method
       = Throw (Error (js "Missing required configuration: "
                         ++ join (js ", ") missing)).
Proof.
  intros [key [Hreq Hfalsy]].
  set (missing := filter (fun key => negb (ToBoolean (obj_get cfg key))) required).
  assert (Hin : forall k, In k missing
                          <-> In k required /\ ToBoolean (obj_get cfg k) = false).
  { intros k. unfold missing. rewrite filter_In, negb_true_iff. reflexivity. }
  assert (Hne : missing <> []).
  { intros E. assert (Hk : In key missing) by (apply Hin; auto).
    rewrite E in Hk. exact Hk. }
  assert (Hv : validateConfig cfg
               = Throw (Error (js "Missing required configuration: "
                                 ++ join (js ", ") missing))).
  { unfold validateConfig. fold missing.
    destruct missing; [contradiction|reflexivity]. }
  exists missing.
  split; [assumption|]. split; [reflexivity|]. split; [assumption|].
  split; [|split].
  - intros Hts. apply Hin. split; [|assumption]. simpl. tauto.
  - unfold constructor. now rewrite Hv.
  - unfold sign, constructor. now rewrite Hv.
Qed.

Lemma constructor_rejects_missing_witness :
  ToBoolean (obj_get Sample.cfg_empty_token_secret (js "tokenSecret")) = false
  /\ generateOAuthHeader {| config := Sample.cfg_empty_token_secret |}
       Sample.env Sample.url (js "POST") = Throw URIError
  /\ exists missing,
       missing <> []
       /\ missing
          = filter (fun key =>
                      negb (ToBoolean (obj_get Sample.cfg_empty_token_secret key)))
                   required
       /\ (forall key,
             In key missing
             <-> In key required
                 /\ ToBoolean (obj_get Sample.cfg_empty_token_secret key) = false)
       /\ (ToBoolean (obj_get Sample.cfg_empty_token_secret (js "tokenSecret")) = false ->
           In (js "tokenSecret") missing)
       /\ constructor Sample.cfg_empty_token_secret
          = Throw (Error (js "Missing required configuration: "
                            ++ join (js ", ") missing))
       /\ sign Sample.cfg_empty_token_secret Sample.env Sample.url (js "POST")
          = Throw (Error (js "Missing required configuration: "
                            ++ join (js ", ") missing)).
Proof.
  split; [reflexivity|split; [vm_compute; reflexivity|]].
  apply (constructor_rejects_missing Sample.cfg_empty_token_secret
           Sample.env Sample.url (js "POST")).
  exists (js "tokenSecret"). split; [|reflexivity]. simpl. tauto.
Defined.

(** The message of the refusal, on an example. *)
Example constructor_message :
  constructor Sample.cfg_no_token_secret
  = Throw (Error (js "Missing required configuration: tokenSecret"))
  /\ constructor []
     = Throw (Error (js "Missing required configuration: accountId, consumerKey, consumerSecret, tokenId, tokenSecret, restletUrl")).
Proof. split; reflexivity. Qed.

(* ================================================================== *)
(** ** The header *)

(** Inversion of a successful sequence of calls. *)
Ltac bind_inv H :=
  repeat match type of H with
         | bind ?c _ = Ok _ =>
             let r := fresh "r" in
             let E := fresh "E" in
             destruct c as [r|] eqn:E; cbn [bind] in H; [|discriminate H]
         end.

(** The worked call: signature base string, signature and header. *)
Example sample_header :
  (p <- paramString (allParams Sample.this Sample.env Sample.url) ;;
   baseString (js "POST") (baseUrl Sample.url) p)
  = Ok (js "POST&https%3A%2F%2Fexample.com%2Fapp.nl&deploy%3D1%26oauth_consumer_key%3DCK%26oauth_nonce%3D0102030405060708090a0b0c0d0e0fff%26oauth_signature_method%3DHMAC-SHA256%26oauth_timestamp%3D1700000000%26oauth_token%3DTK%26oauth_version%3D1.0%26script%3D1")
  /\ signingKey Sample.this = Ok (js "CS&TS")
  /\ generateOAuthHeader Sample.this Sample.env Sample.url (js "POST")
     = Ok Sample.header
  /\ sign Sample.cfg Sample.env Sample.url (js "POST") = Ok Sample.header.
Proof. split_all; vm_compute; reflexivity. Qed.
(** C7, as the source has it.  The pairs of the header come in a fixed
    order: [realm] first, then the seven [oauth_] parameters in
    alphabetical order.  With [realm] in front the names are not in
    alphabetical order as a whole. *)
Theorem header_order (this : NetSuiteDownloader) (env : Env) (urlObj : URL)
    (method header : jsstring) :
  generateOAuthHeader this env urlObj method = Ok header ->
  exists items,
    header = js "OAuth " ++ join (js ", ") items
    /\ map param_name items = header_names
    /\ hd [] (map param_name items) = js "realm"
    /\ sorted_by str_leb (tl (map param_name items)) = true
    /\ sorted_by str_leb (map param_name items) = false.
Proof.
  unfold generateOAuthHeader. intros H. bind_inv H. injection H as <-.
  match goal with
  | E : headerItems _ _ _ = Ok ?items |- _ =>
      exists items; unfold headerItems in E; bind_inv E; injection E as <-
  end.
  repeat split; reflexivity.
Qed.

Lemma header_order_witness :
  exists items,
    Sample.header = js "OAuth " ++ join (js ", ") items
    /\ map param_name items = header_names
    /\ hd [] (map param_name items) = js "realm"
    /\ sorted_by str_leb (tl (map param_name items)) = true
    /\ sorted_by str_leb (map param_name items) = false.
Proof.
  apply (header_order Sample.this Sample.env Sample.url (js "POST")).
  vm_compute. reflexivity.
Defined.

(** C7 as stated fails: the names of the header of the worked call are
    not in alphabetical order, [realm] stands before [oauth_consumer_key]. *)
Lemma header_names_not_sorted :
  (items <- headerItems Sample.this Sample.env Sample.signature ;;
   Ok (map param_name items)) = Ok header_names
  /\ sorted_by str_leb header_names = false
  /\ str_leb (js "realm") (js "oauth_consumer_key") = false.
Proof. split_all; vm_compute; reflexivity. Qed.

(* ================================================================== *)
(** ** The signature *)

Lemma be_octets_length (n : nat) (x : N) : length (SHA256.be_octets n x) = n.
Proof.
  revert x. induction n as [|n IH]; intros x; simpl; [reflexivity|].
  rewrite length_app, IH. simpl. lia.
Qed.

Lemma be_octets_bound (n : nat) (x : N) :
  Forall (fun o => o < 256) (SHA256.be_octets n x).
Proof.
  revert x. induction n as [|n IH]; intros x; simpl; [constructor|].
  apply Forall_app. split; [apply IH|].
  constructor; [|constructor].
  change 0xFF with (N.ones 8). rewrite N.land_ones.
  apply N.mod_lt. discriminate.
Qed.

(** A digest is 32 octets. *)
Lemma digest_shape (msg : list N) :
  length (SHA256.digest msg) = 32%nat
  /\ Forall (fun o => o < 256) (SHA256.digest msg).
Proof.
  unfold SHA256.digest. split.
  - cbn [flat_map]. rewrite !length_app, !be_octets_length. reflexivity.
  - apply Forall_flat_map, Forall_forall. intros x _. apply be_octets_bound.
Qed.

Lemma lor_lt (a b n : N) :
  0 < n -> a < 2 ^ n -> b < 2 ^ n -> N.lor a b < 2 ^ n.
Proof.
  intros Hn Ha Hb.
  assert (low : forall c, c < 2 ^ n -> N.log2 c < n).
  { intros c Hc. destruct (N.eq_dec c 0) as [->|Hc0]; [exact Hn|].
    apply N.log2_lt_pow2; lia. }
  destruct (N.eq_dec (N.lor a b) 0) as [->|H0].
  - apply N.neq_0_lt_0. apply N.pow_nonzero. discriminate.
  - apply N.log2_lt_pow2; [lia|].
    rewrite N.log2_lor. apply N.max_lub_lt; auto.
Qed.

Lemma land_ones_lt (x n : N) : N.land x (N.ones n) < 2 ^ n.
Proof.
  rewrite N.land_ones. apply N.mod_lt. apply N.pow_nonzero. discriminate.
Qed.

(** The four indices of a group of three octets are below 64. *)
Lemma b64_index1 (x : N) : x < 256 -> N.shiftr x 2 < 64.
Proof. intros Hx. apply shiftr_lt. simpl. lia. Qed.

Lemma b64_index2' (x : N) : N.shiftl (N.land x 3) 4 < 64.
Proof.
  rewrite N.shiftl_mul_pow2.
  pose proof (land_ones_lt x 2) as H. change (N.ones 2) with 3 in H.
  simpl in *. lia.
Qed.

Lemma b64_index2 (x y : N) :
  y < 256 -> N.lor (N.shiftl (N.land x 3) 4) (N.shiftr y 4) < 64.
Proof.
  intros Hy. apply (lor_lt _ _ 6); [lia|apply b64_index2'|].
  apply N.lt_trans with 16; [|reflexivity]. apply shiftr_lt. simpl. lia.
Qed.

Lemma b64_index3' (y : N) : N.shiftl (N.land y 15) 2 < 64.
Proof.
  rewrite N.shiftl_mul_pow2.
  pose proof (land_ones_lt y 4) as H. change (N.ones 4) with 15 in H.
  simpl in *. lia.
Qed.

Lemma b64_index3 (y z : N) :
  z < 256 -> N.lor (N.shiftl (N.land y 15) 2) (N.shiftr z 6) < 64.
Proof.
  intros Hz. apply (lor_lt _ _ 6); [lia|apply b64_index3'|].
  apply N.lt_trans with 4; [|reflexivity]. apply shiftr_lt. simpl. lia.
Qed.

Lemma b64_alphabet (i : N) :
  i < 64 -> char_in base64_alphabet (b64 i) = true.
Proof.
  revert i.
  apply (forall_below (fun i => char_in base64_alphabet (b64 i)) 64).
  vm_compute. reflexivity.
Qed.

(** Base64 of 32 octets: 43 characters of the standard alphabet and one
    padding character. *)
Lemma base64_of_digest (bs : list N) :
  length bs = 32%nat -> Forall (fun o => o < 256) bs ->
  exists body,
    base64 bs = body ++ js "="
    /\ length body = 43%nat
    /\ forallb (char_in base64_alphabet) body = true.
Proof.
  intros Hlen Hb.
  do 32 (destruct bs as [|? bs]; [discriminate Hlen|]).
  destruct bs; [|discriminate Hlen].
  repeat match goal with
         | H : Forall _ (_ :: _) |- _ => inversion_clear H
         end.
  cbn [base64 app].
  eexists (_ :: _ :: _ :: _ :: _ :: _ :: _ :: _ :: _ :: _ ::
           _ :: _ :: _ :: _ :: _ :: _ :: _ :: _ :: _ :: _ ::
           _ :: _ :: _ :: _ :: _ :: _ :: _ :: _ :: _ :: _ ::
           _ :: _ :: _ :: _ :: _ :: _ :: _ :: _ :: _ :: _ ::
           _ :: _ :: _ :: []).
  split; [reflexivity|]. split; [reflexivity|].
  cbn [forallb].
  repeat (apply andb_true_iff; split); try reflexivity;
    apply b64_alphabet;
    first [ now apply b64_index1 | now apply b64_index2
          | now apply b64_index3 | apply land_63 | apply b64_index3' ].
Qed.

(** C4, as the source has it.  With a consumer secret and a token secret
    that are strings, the signature is the base64 text (standard alphabet,
    padded: 43 characters and one [=]) of the HMAC-SHA256 of the base
    string under the key [encode(consumerSecret) & encode(tokenSecret)];
    for an empty token secret the key ends with the [&].  (The key of a
    configuration without token secret is no other case of this: the
    constructor refuses it.) *)
Theorem signature_hmac (this : NetSuiteDownloader) (base cs ts : jsstring) :
  obj_get (config this) (js "consumerSecret") = JString cs ->
  obj_get (config this) (js "tokenSecret") = JString ts ->
  signingKey this = signing_key (JString cs) (JString ts)
  /\ (ts = [] ->
      signingKey this = (k <- encodeRFC3986 (JString cs) ;; Ok (k ++ js "&")))
  /\ signature this base
     = (k1 <- encodeRFC3986 (JString cs) ;;
        k2 <- encodeRFC3986 (JString ts) ;;
        Ok (base64 (hmac_sha256 (Buffer_from_utf8 (k1 ++ js "&" ++ k2))
                                (Buffer_from_utf8 base))))
  /\ (forall sig,
        signature this base = Ok sig ->
        exists body,
          sig = body ++ js "="
          /\ length body = 43%nat
          /\ forallb (char_in base64_alphabet) body = true).
Proof.
  intros Hcs Hts.
  assert (Hsig : signature this base
                 = (k1 <- encodeRFC3986 (JString cs) ;;
                    k2 <- encodeRFC3986 (JString ts) ;;
                    Ok (base64 (hmac_sha256 (Buffer_from_utf8 (k1 ++ js "&" ++ k2))
                                            (Buffer_from_utf8 base))))).
  { unfold signature, signingKey. rewrite Hcs, Hts.
    destruct (encodeRFC3986 (JString cs)); [|reflexivity].
    destruct (encodeRFC3986 (JString ts)); reflexivity. }
  split; [|split; [|split]].
  - unfold signingKey, signing_key. now rewrite Hcs, Hts.
  - intros ->. unfold signingKey. rewrite Hcs, Hts.
    destruct (encodeRFC3986 (JString cs)); reflexivity.
  - exact Hsig.
  - intros sig H. rewrite Hsig in H. bind_inv H. apply Ok_inj in H. subst sig.
    apply base64_of_digest; apply digest_shape.
Qed.

Lemma signature_hmac_witness :
  signature Sample.this (js "POST&https%3A%2F%2Fexample.com%2Fapp.nl&a%3Db")
  = Ok (js "1DGJ3VhdcaNktP6vpR/Qv9tDh71tPYn7/uFT8ClIsS8=")
  /\ signingKey Sample.this = signing_key (JString (js "CS")) (JString (js "TS")).
Proof.
  split; [vm_compute; reflexivity|].
  apply (signature_hmac Sample.this [] (js "CS") (js "TS")); reflexivity.
Defined.

(** C4 as stated fails where the token secret is absent: the key the
    source would build ends in the text [undefined], not in the [&]; and
    no signer exists for a configuration whose token secret is absent or
    empty, so no signature is ever made with such a key. *)
Lemma signingKey_without_tokenSecret :
  obj_get Sample.cfg_no_token_secret (js "tokenSecret") = JUndefined
  /\ signingKey {| config := Sample.cfg_no_token_secret |}
     = Ok (js "CS&undefined")
  /\ signing_key (JString (js "CS")) JUndefined = Ok (js "CS&")
  /\ sign Sample.cfg_no_token_secret Sample.env Sample.url (js "POST")
     = Throw (Error (js "Missing required configuration: tokenSecret"))
  /\ sign Sample.cfg_blank_token_secret Sample.env Sample.url (js "POST")
     = Throw (Error (js "Missing required configuration: tokenSecret")).
Proof. split_all; vm_compute; reflexivity. Qed.

(* ================================================================== *)
(** ** Nonce and timestamp *)

Lemma digitChar_hex (d : N) :
  d < 16 -> char_in (js "0123456789abcdef") (digitChar d) = true.
Proof.
  revert d.
  apply (forall_below
           (fun d => char_in (js "0123456789abcdef") (digitChar d)) 16).
  vm_compute. reflexivity.
Qed.

Lemma hex_printable (c : N) :
  char_in (js "0123456789abcdef") c = true -> printable c = true.
Proof.
  unfold char_in. simpl. rewrite !orb_true_iff, !N.eqb_eq.
  intros H. unfold printable.
  repeat (destruct H as [->|H]; [reflexivity|]). discriminate H.
Qed.

Lemma digitChar_inj (x y : N) :
  x < 16 -> y < 16 -> digitChar x = digitChar y -> x = y.
Proof.
  unfold digitChar. intros Hx Hy.
  destruct (N.ltb_spec x 10), (N.ltb_spec y 10); lia.
Qed.

Lemma hexEncode_length (bs : list N) :
  length (hexEncode bs) = (2 * length bs)%nat.
Proof. induction bs as [|x bs IH]; simpl; [reflexivity|]. rewrite IH. lia. Qed.

Lemma hexEncode_digits (bs : list N) :
  Forall (fun o => o < 256) bs ->
  forallb (char_in (js "0123456789abcdef")) (hexEncode bs) = true.
Proof.
  induction 1 as [|x bs Hx _ IH]; [reflexivity|].
  cbn [hexEncode flat_map app forallb]. fold (hexEncode bs).
  rewrite IH, !digitChar_hex; [reflexivity| |].
  - apply N.mod_lt. discriminate.
  - apply N.Div0.div_lt_upper_bound. lia.
Qed.

(** The hexadecimal text determines the octets. *)
Lemma hexEncode_inj (bs bs' : list N) :
  Forall (fun o => o < 256) bs -> Forall (fun o => o < 256) bs' ->
  hexEncode bs = hexEncode bs' -> bs = bs'.
Proof.
  intros Hb. revert bs'.
  induction Hb as [|x bs Hx _ IH]; intros bs' Hb' E;
    destruct Hb' as [|y bs' Hy Hb']; try discriminate E; [reflexivity|].
  cbn [hexEncode flat_map app] in E. injection E as E1 E2 E3.
  apply digitChar_inj in E1, E2;
    try (apply N.mod_lt; discriminate);
    try (apply N.Div0.div_lt_upper_bound; lia).
  f_equal.
  - rewrite (N.div_mod x 16), (N.div_mod y 16) by discriminate. congruence.
  - now apply IH.
Qed.

Lemma toRadix_digits (fuel : nat) :
  forall n acc, forallb isDecimalDigit acc = true ->
                forallb isDecimalDigit (toRadix fuel 10 n acc) = true.
Proof.
  induction fuel as [|fuel IH]; intros n acc Hacc; cbn [toRadix];
    [assumption|].
  assert (Hd : isDecimalDigit (digitChar (n mod 10)) = true).
  { pose proof (N.mod_lt n 10 ltac:(discriminate)) as Hm.
    revert Hm. generalize (n mod 10) as m. intros m Hm.
    unfold digitChar, isDecimalDigit.
    rewrite (proj2 (N.ltb_lt _ _) Hm).
    apply andb_true_iff. split; apply N.leb_le; lia. }
  destruct (n / 10 =? 0).
  - cbn [forallb]. now rewrite Hd.
  - apply IH. cbn [forallb]. now rewrite Hd.
Qed.

(** The digits [toRadix] prepends denote [n], when the fuel covers the
    bits of [n]. *)
Lemma toRadix_value (fuel : nat) :
  forall n acc,
    n < 2 ^ N.of_nat fuel ->
    fold_left (fun m c => 10 * m + (c - 48)) (toRadix fuel 10 n acc) 0
    = fold_left (fun m c => 10 * m + (c - 48)) acc n.
Proof.
  induction fuel as [|fuel IH]; intros n acc Hn.
  - simpl in *. f_equal. lia.
  - cbn [toRadix].
    pose proof (N.mod_lt n 10 ltac:(discriminate)) as Hm.
    pose proof (N.div_mod n 10 ltac:(discriminate)) as Hdm.
    rewrite Nat2N.inj_succ, N.pow_succ_r' in Hn.
    revert Hm Hdm. generalize (n mod 10). intros m.
    generalize (n / 10). intros q Hm Hdm.
    assert (Hd : digitChar m - 48 = m).
    { unfold digitChar. rewrite (proj2 (N.ltb_lt _ _) Hm). lia. }
    destruct (N.eqb_spec q 0) as [E|E].
    + cbn [fold_left]. rewrite Hd. f_equal. lia.
    + rewrite IH by lia.
      cbn [fold_left]. rewrite Hd. f_equal. lia.
Qed.

Lemma Number_toString_value (n : N) :
  decimal_value (Number_toString 10 n) = n.
Proof.
  unfold decimal_value, Number_toString. rewrite toRadix_value; [reflexivity|].
  rewrite Nat2N.inj_succ, N2Nat.id.
  destruct (N.eq_dec n 0) as [->|Hn]; [reflexivity|].
  apply N.log2_spec. lia.
Qed.

Lemma Number_toString_digits (n : N) :
  forallb isDecimalDigit (Number_toString 10 n) = true.
Proof. now apply toRadix_digits. Qed.

(** The text of an integral Number denotes it. *)
Lemma Number_ToString_value (t : Z) : integer_value (Number_ToString t) = t.
Proof.
  unfold Number_ToString.
  destruct (Z.ltb_spec t 0) as [Ht|Ht].
  - cbn [js map list_ascii_of_string app]. change (N_of_ascii "-") with 45.
    cbn [integer_value]. rewrite Number_toString_value. lia.
  - unfold integer_value.
    pose proof (Number_toString_digits (Z.to_N t)) as Hd.
    pose proof (Number_toString_value (Z.to_N t)) as Hv.
    destruct (Number_toString 10 (Z.to_N t)) as [|c s] eqn:E.
    + simpl in Hv. lia.
    + assert (Hc : c <> 45).
      { simpl in Hd. apply andb_true_iff in Hd as [Hc _].
        unfold isDecimalDigit in Hc. apply andb_true_iff in Hc as [Hc _].
        apply N.leb_le in Hc. lia. }
      destruct c as [|p]; [rewrite Hv; lia|].
      do 6 (destruct p as [p|p|]; try (rewrite Hv; lia)).
      contradiction.
Qed.

Lemma isDecimalDigit_unreserved (c : N) :
  isDecimalDigit c = true -> unreserved c = true.
Proof.
  unfold unreserved, isDecimalDigit. intros H. rewrite H.
  now rewrite orb_true_r.
Qed.

(** The text of an integral Number is its own encoding. *)
Lemma encodeRFC3986_Number (t : Z) :
  encodeRFC3986 (JNumber t) = Ok (Number_ToString t).
Proof.
  apply (encodeRFC3986_unreserved (Number_ToString t)).
  assert (H : forall n, all_unreserved (Number_toString 10 n) = true).
  { intros n. unfold all_unreserved. apply forallb_forall. intros c Hc.
    apply isDecimalDigit_unreserved.
    pose proof (Number_toString_digits n) as Hd.
    rewrite forallb_forall in Hd. now apply Hd. }
  unfold Number_ToString. destruct (t <? 0)%Z; [|apply H].
  pose proof (H (Z.to_N (- t))) as Hneg.
  unfold all_unreserved in *. rewrite forallb_app. now rewrite Hneg.
Qed.

(** [crypto.randomBytes(size)] gives [size] octets, whatever the source. *)
Lemma crypto_randomBytes_length (env : Env) (size : nat) :
  length (crypto_randomBytes env size) = size.
Proof. unfold crypto_randomBytes. now rewrite length_map, length_seq. Qed.

Lemma crypto_randomBytes_octets (env : Env) (size : nat) :
  Forall (fun o => o < 256) (crypto_randomBytes env size).
Proof.
  unfold crypto_randomBytes. apply Forall_forall. intros o Ho.
  apply in_map_iff in Ho as [i [<- _]].
  pose proof (Byte.to_N_bounded (random_source env i)). lia.
Qed.

Lemma JString_inj (s s' : jsstring) : JString s = JString s' -> s = s'.
Proof. intros H. now injection H. Qed.

Lemma Byte_to_N_inj (x y : Byte.byte) : Byte.to_N x = Byte.to_N y -> x = y.
Proof.
  intros H. pose proof (Byte.of_to_N x) as Hx. rewrite H, Byte.of_to_N in Hx.
  now injection Hx.
Qed.

(** C9, as the source has it.  The nonce is the hexadecimal text of the
    buffer [crypto.randomBytes(16)]: 16 octets, whatever the source, so
    32 printable characters (digits and [a]-[f]) from which the octets,
    all 128 bits, can be read back.  The octets are fresh: the invocation
    that follows takes the next 16 octets of the source, and its nonce is
    the one of this invocation only if the source gives the same 16
    octets twice in a row.  The timestamp is the clock in whole seconds
    (milliseconds divided by 1000, rounded down); it enters the parameter
    set as a Number, not as a string, and it is its decimal text only
    once [encodeRFC3986] has converted it for the parameter string and
    for the header. *)
Theorem nonce_and_timestamp (this : NetSuiteDownloader) (env : Env) :
  (exists n,
      obj_get (oauthParams this env) (js "oauth_nonce") = JString n
      /\ n = hexEncode (crypto_randomBytes env 16)
      /\ length (crypto_randomBytes env 16) = 16%nat
      /\ Forall (fun o => o < 256) (crypto_randomBytes env 16)
      /\ length n = 32%nat
      /\ forallb (char_in (js "0123456789abcdef")) n = true
      /\ forallb printable n = true
      /\ (forall octets, Forall (fun o => o < 256) octets ->
                         hexEncode octets = n ->
                         octets = crypto_randomBytes env 16)
      /\ (forall now,
             obj_get (oauthParams this (next_call env now)) (js "oauth_nonce")
             = JString
                 (hexEncode
                    (map (fun i => Byte.to_N (random_source env (16 + i)))
                         (seq 0 16)))
             /\ (obj_get (oauthParams this (next_call env now)) (js "oauth_nonce")
                 = JString n
                 <-> forall i, (i < 16)%nat ->
                               random_source env (16 + i) = random_source env i)))
  /\ (exists t,
         obj_get (oauthParams this env) (js "oauth_timestamp") = JNumber t
         /\ (1000 * t <= Date_now env < 1000 * t + 1000)%Z
         /\ encodeRFC3986 (JNumber t) = Ok (Number_ToString t)
         /\ integer_value (Number_ToString t) = t).
Proof.
  split.
  - exists (hexEncode (crypto_randomBytes env 16)).
    pose proof (crypto_randomBytes_octets env 16) as Hb.
    pose proof (hexEncode_digits _ Hb) as Hd.
    split_all.
    + reflexivity.
    + reflexivity.
    + apply crypto_randomBytes_length.
    + exact Hb.
    + rewrite hexEncode_length, crypto_randomBytes_length. reflexivity.
    + exact Hd.
    + apply forallb_forall. intros c Hc. apply hex_printable.
      rewrite forallb_forall in Hd. now apply Hd.
    + intros octets Ho E. now apply hexEncode_inj.
    + intros now.
      change (obj_get (oauthParams this (next_call env now)) (js "oauth_nonce"))
        with (JString (hexEncode (crypto_randomBytes (next_call env now) 16))).
      split; [reflexivity|].
      split.
      * intros E i Hi. apply JString_inj in E.
        apply hexEncode_inj in E; try apply crypto_randomBytes_octets.
        unfold crypto_randomBytes in E. cbn [next_call random_source] in E.
        apply Byte_to_N_inj.
        apply (proj1 map_ext_in_iff E i). apply in_seq. lia.
      * intros H. f_equal. f_equal. unfold crypto_randomBytes.
        cbn [next_call random_source].
        apply map_ext_in. intros i Hi. apply in_seq in Hi.
        rewrite H by lia. reflexivity.
  - exists (Date_now env / 1000)%Z. split_all.
    + reflexivity.
    + apply Z.mul_div_le. lia.
    + pose proof (Z.mul_succ_div_gt (Date_now env) 1000 ltac:(lia)). lia.
    + apply encodeRFC3986_Number.
    + apply Number_ToString_value.
Qed.

Lemma nonce_and_timestamp_witness :
  (exists n,
      obj_get (oauthParams Sample.this Sample.env) (js "oauth_nonce") = JString n
      /\ n = hexEncode (crypto_randomBytes Sample.env 16)
      /\ length (crypto_randomBytes Sample.env 16) = 16%nat
      /\ Forall (fun o => o < 256) (crypto_randomBytes Sample.env 16)
      /\ length n = 32%nat
      /\ forallb (char_in (js "0123456789abcdef")) n = true
      /\ forallb printable n = true
      /\ (forall octets, Forall (fun o => o < 256) octets ->
                         hexEncode octets = n ->
                         octets = crypto_randomBytes Sample.env 16)
      /\ (forall now,
             obj_get (oauthParams Sample.this (next_call Sample.env now))
                     (js "oauth_nonce")
             = JString
                 (hexEncode
                    (map (fun i => Byte.to_N (random_source Sample.env (16 + i)))
                         (seq 0 16)))
             /\ (obj_get (oauthParams Sample.this (next_call Sample.env now))
                         (js "oauth_nonce")
                 = JString n
                 <-> forall i, (i < 16)%nat ->
                               random_source Sample.env (16 + i)
                               = random_source Sample.env i)))
  /\ (exists t,
         obj_get (oauthParams Sample.this Sample.env) (js "oauth_timestamp")
         = JNumber t
         /\ (1000 * t <= Date_now Sample.env < 1000 * t + 1000)%Z
         /\ encodeRFC3986 (JNumber t) = Ok (Number_ToString t)
         /\ integer_value (Number_ToString t) = t).
Proof. apply (nonce_and_timestamp Sample.this Sample.env). Defined.

(** The worked call and the one that follows it: the nonce is the text
    of sixteen octets, and the next nonce is another one. *)
Example nonce_sample :
  nonce Sample.env = JString (js "0102030405060708090a0b0c0d0e0fff")
  /\ nonce (next_call Sample.env 1700000001000)
     = JString (js "00000000000000000000000000000000").
Proof. split; vm_compute; reflexivity. Qed.

(** C9 as stated fails for the timestamp: in the parameter set of the
    worked call it is the Number 1700000000, not a string. *)
Lemma timestamp_is_a_number :
  obj_get (oauthParams Sample.this Sample.env) (js "oauth_timestamp")
  = JNumber 1700000000
  /\ is_string (obj_get (oauthParams Sample.this Sample.env)
                        (js "oauth_timestamp")) = false
  /\ is_string (obj_get (oauthParams Sample.this Sample.env)
                        (js "oauth_nonce")) = true.
Proof. repeat split; reflexivity. Qed.

(* ================================================================== *)
(** ** Query parameters named like protocol parameters *)

Lemma obj_get_pair (o : object) (k : jsstring) :
  In k (Object_keys o) -> In (k, obj_get o k) o.
Proof.
  induction o as [|[k0 v0] o IH]; simpl; intros Hin; [contradiction|].
  destruct (str_eqb k k0) eqn:E.
  - apply str_eqb_eq in E. subst k0. now left.
  - right. apply IH. destruct Hin as [->|Hin]; [|assumption].
    rewrite str_eqb_refl in E. discriminate.
Qed.

(** What the loop over [searchParams] leaves under a key. *)
Lemma queryParams_get_fold (l : list (jsstring * jsstring)) :
  forall (o : object) (k : jsstring),
    k <> js "__proto__" ->
    obj_get (fold_left (fun o kv => obj_assign o (fst kv) (JString (snd kv))) l o) k
    = match query_value l k with
      | Some v => JString v
      | None => obj_get o k
      end.
Proof.
  induction l as [|[k0 v0] l IH]; intros o k Hk; [reflexivity|].
  cbn [fold_left query_value fst snd]. rewrite IH by assumption.
  destruct (query_value l k); [reflexivity|].
  unfold obj_assign.
  destruct (str_eqb k0 (js "__proto__")) eqn:E0.
  - apply str_eqb_eq in E0. subst k0.
    destruct (str_eqb k (js "__proto__")) eqn:E; [|reflexivity].
    apply str_eqb_eq in E. contradiction.
  - rewrite obj_get_define. now destruct (str_eqb k k0).
Qed.

Lemma queryParams_get (urlObj : URL) (k : jsstring) (v : jsstring) :
  k <> js "__proto__" -> query_value (searchParams urlObj) k = Some v ->
  obj_get (queryParams urlObj) k = JString v.
Proof.
  intros Hk Hv. unfold queryParams.
  now rewrite queryParams_get_fold, Hv.
Qed.

(** In the merged object a key of the query string has the value of the
    query string. *)
Lemma allParams_get_query this env urlObj (k : jsstring) (v : jsstring) :
  k <> js "__proto__" -> query_value (searchParams urlObj) k = Some v ->
  obj_get (allParams this env urlObj) k = JString v.
Proof.
  intros Hk Hv. pose proof (queryParams_get urlObj k v Hk Hv) as Hq.
  unfold allParams, obj_spread. rewrite fold_left_app.
  apply fold_define_get_in.
  - apply queryParams_NoDup_fold. constructor.
  - rewrite <- Hq. apply obj_get_pair.
    destruct (in_dec (list_eq_dec N.eq_dec) k (Object_keys (queryParams urlObj)))
      as [Hin|Hnin]; [assumption|].
    rewrite obj_get_notin in Hq by assumption. discriminate.
Qed.

Lemma mapM_In {A B} (f : A -> result B) (l : list A) :
  forall ys x, mapM f l = Ok ys -> In x l -> exists y, f x = Ok y /\ In y ys.
Proof.
  induction l as [|a l IH]; intros ys x H Hin; [contradiction|].
  simpl in H. bind_inv H. injection H as <-.
  destruct Hin as [->|Hin].
  - eexists. split; [eassumption|now left].
  - destruct (IH _ x eq_refl Hin) as [y [Hy Hiny]].
    exists y. split; [assumption|now right].
Qed.

Lemma protocol_name_unreserved (k : jsstring) :
  In k protocol_names -> all_unreserved k = true /\ k <> js "__proto__".
Proof.
  simpl. intros H.
  repeat (destruct H as [<-|H]; [split; [reflexivity|discriminate]|]).
  contradiction.
Qed.

(** A call on a URL whose query string names [oauth_token]: the signed
    text names the token of the query string, the header the token of
    the configuration. *)
Example query_overrides_protocol_sample :
  paramString (allParams Sample.this Sample.env Sample.url_override)
  = Ok (js "oauth_consumer_key=CK&oauth_nonce=0102030405060708090a0b0c0d0e0fff&oauth_signature_method=HMAC-SHA256&oauth_timestamp=1700000000&oauth_token=OTHER&oauth_version=1.0&script=1")
  /\ (items <- headerItems Sample.this Sample.env Sample.signature ;;
      Ok (nth 6 items []))
     = Ok (js "oauth_token=" ++ dquote ++ js "TK" ++ dquote).
Proof. split; vm_compute; reflexivity. Qed.

(** The entries of the merged object come from the protocol parameters
    or from the query string. *)
Lemma fold_define_entries (l o : object) (k : jsstring) (v : jsval) :
  In (k, v) (fold_left (fun o kv => obj_define o (fst kv) (snd kv)) l o) ->
  In (k, v) l \/ In (k, v) o.
Proof.
  revert o. induction l as [|[k0 v0] l IH]; simpl; intros o Hin; [now right|].
  apply IH in Hin as [Hin|Hin]; [tauto|].
  assert (H : In (k, v) (obj_define o k0 v0) -> (k, v) = (k0, v0) \/ In (k, v) o).
  { clear. induction o as [|[k1 v1] o IH]; simpl.
    - intros [E|[]]. left. congruence.
    - destruct (str_eqb k0 k1) eqn:E; simpl.
      + apply str_eqb_eq in E. subst k1. intros [E'|Hin]; [|tauto].
        left. congruence.
      + intros [E'|Hin]; [tauto|]. apply IH in Hin. tauto. }
  apply H in Hin. intuition congruence.
Qed.

Lemma queryParams_entries_fold (l : list (jsstring * jsstring)) :
  forall (o : object) (k : jsstring) (v : jsval),
    In (k, v)
       (fold_left (fun o kv => obj_assign o (fst kv) (JString (snd kv))) l o) ->
    (exists s, v = JString s /\ In (k, s) l) \/ In (k, v) o.
Proof.
  induction l as [|[k0 s0] l IH]; simpl; intros o k v Hin; [now right|].
  apply IH in Hin as [[s [E Hin]]|Hin]; [left; exists s; tauto|].
  unfold obj_assign in Hin.
  destruct (str_eqb k0 (js "__proto__")); [now right|].
  pose proof (fold_define_entries [(k0, JString s0)] o k v) as H.
  simpl in H. apply H in Hin as [[E|[]]|Hin]; [|now right].
  injection E as <- <-. left. exists s0. tauto.
Qed.

(* ================================================================== *)
(** ** The order of the query string

    The invariance under the order of the properties holds for the URL as
    well: two query strings that hold the same pairs, each name once, give
    the same parameter string. *)

Lemma query_value_key (q : list (jsstring * jsstring)) (k v : jsstring) :
  query_value q k = Some v -> In (k, v) q.
Proof.
  induction q as [|[k0 v0] q IH]; simpl; [discriminate|].
  destruct (query_value q k) as [v'|].
  - intros H. injection H as ->. right. now apply IH.
  - destruct (str_eqb k k0) eqn:E; [|discriminate].
    apply str_eqb_eq in E. subst k0. intros H. injection H as ->. now left.
Qed.

Lemma query_value_in (q : list (jsstring * jsstring)) (k v : jsstring) :
  NoDup (map fst q) -> In (k, v) q -> query_value q k = Some v.
Proof.
  induction q as [|[k0 v0] q IH]; simpl; intros Hn Hin; [contradiction|].
  inversion Hn as [|? ? Hnin Hn']; subst.
  destruct Hin as [E|Hin].
  - injection E as -> ->.
    destruct (query_value q k) as [v'|] eqn:Hq.
    + exfalso. apply Hnin. apply query_value_key in Hq.
      change k with (fst (k, v')). now apply in_map.
    + now rewrite str_eqb_refl.
  - now rewrite (IH Hn' Hin).
Qed.

Lemma query_value_perm (q1 q2 : list (jsstring * jsstring)) (k : jsstring) :
  NoDup (map fst q1) -> Permutation q1 q2 ->
  query_value q1 k = query_value q2 k.
Proof.
  intros Hn Hp.
  assert (Hn2 : NoDup (map fst q2))
    by (eapply Permutation_NoDup; [apply Permutation_map|]; eassumption).
  destruct (query_value q1 k) as [v|] eqn:H1.
  - symmetry. apply query_value_in; [assumption|].
    eapply Permutation_in; [eassumption|]. now apply query_value_key.
  - destruct (query_value q2 k) as [v|] eqn:H2; [|reflexivity].
    apply query_value_key in H2.
    apply (Permutation_in _ (Permutation_sym Hp)) in H2.
    rewrite (query_value_in q1 k v Hn H2) in H1. discriminate.
Qed.

Lemma fold_define_self (l : object) (k : jsstring) :
  NoDup (Object_keys l) ->
  obj_get (fold_left (fun o kv => obj_define o (fst kv) (snd kv)) l []) k
  = obj_get l k.
Proof.
  intros Hn.
  destruct (in_dec (list_eq_dec N.eq_dec) k (Object_keys l)) as [Hin|Hnin].
  - apply fold_define_get_in; [assumption|now apply obj_get_pair].
  - rewrite fold_define_get_other by assumption.
    symmetry. now apply obj_get_notin.
Qed.

Lemma oauthParams_NoDup this env : NoDup (Object_keys (oauthParams this env)).
Proof.
  change (Object_keys (oauthParams this env)) with protocol_names.
  repeat (constructor; [simpl; intuition discriminate|]). constructor.
Qed.

(** The value of a key in the merged object: that of the query string if
    it names the key, that of the protocol parameters otherwise. *)
Lemma allParams_get this env urlObj (k : jsstring) :
  k <> js "__proto__" ->
  obj_get (allParams this env urlObj) k
  = match query_value (searchParams urlObj) k with
    | Some v => JString v
    | None => obj_get (oauthParams this env) k
    end.
Proof.
  intros Hk. destruct (query_value (searchParams urlObj) k) as [v|] eqn:Hq.
  - now apply allParams_get_query.
  - unfold allParams, obj_spread. rewrite fold_left_app.
    rewrite fold_define_get_other.
    + apply fold_define_self, oauthParams_NoDup.
    + intros Hin. apply obj_get_pair in Hin.
      apply queryParams_entries_fold in Hin as [[s [E Hin]]|[]].
      unfold queryParams in E.
      rewrite queryParams_get_fold, Hq in E by assumption. discriminate E.
Qed.

Lemma queryParams_no_proto_fold (l : list (jsstring * jsstring)) :
  forall o : object,
    ~ In (js "__proto__") (Object_keys o) ->
    ~ In (js "__proto__")
        (Object_keys
           (fold_left (fun o kv => obj_assign o (fst kv) (JString (snd kv))) l o)).
Proof.
  induction l as [|[k0 v0] l IH]; simpl; intros o Hn; [assumption|].
  apply IH. unfold obj_assign.
  destruct (str_eqb k0 (js "__proto__")) eqn:E; [assumption|].
  apply str_eqb_neq in E. rewrite obj_define_keys. intuition congruence.
Qed.

(** The keys of the merged object: the six protocol names and the names
    of the query string, [__proto__] left out. *)
Lemma allParams_keys_iff this env urlObj (k : jsstring) :
  In k (Object_keys (allParams this env urlObj))
  <-> In k protocol_names
      \/ (In k (map fst (searchParams urlObj)) /\ k <> js "__proto__").
Proof.
  unfold allParams, obj_spread.
  rewrite fold_define_keys. unfold Object_keys at 1. rewrite map_app, in_app_iff.
  change (map fst (oauthParams this env)) with protocol_names.
  split.
  - intros [[Hin|Hin]|[]]; [now left|right].
    split.
    + apply (queryParams_keys_fold _ [] k) in Hin as [Hin|[]]. exact Hin.
    + intros ->. revert Hin. apply queryParams_no_proto_fold. intros [].
  - intros [Hin|[Hin Hk]]; left; [now left|right].
    apply in_map_iff in Hin as [[k' v] [E Hin]]. simpl in E. subst k'.
    destruct (in_dec (list_eq_dec N.eq_dec) k (Object_keys (queryParams urlObj)))
      as [Hi|Hn]; [exact Hi|].
    apply obj_get_notin in Hn. unfold queryParams in Hn.
    rewrite queryParams_get_fold in Hn by assumption.
    destruct (query_value (searchParams urlObj) k) as [v'|] eqn:Hq;
      [discriminate Hn|].
    clear Hn. exfalso. revert Hq Hin. generalize (searchParams urlObj).
    induction l as [|[k0 v0] l IH]; simpl; [tauto|].
    destruct (query_value l k); [discriminate|].
    destruct (str_eqb k k0) eqn:E; [discriminate|].
    apply str_eqb_neq in E. intros _ [E'|Hin]; [congruence|].
    now apply IH.
Qed.

(** Re-ordering the query string of the URL leaves the parameter string
    as it is. *)
Lemma paramString_query_order this env (u1 u2 : URL) :
  NoDup (map fst (searchParams u1)) ->
  Permutation (searchParams u1) (searchParams u2) ->
  paramString (allParams this env u1) = paramString (allParams this env u2).
Proof.
  intros Hn Hp. unfold paramString.
  assert (Hkeys : Permutation (Object_keys (allParams this env u1))
                              (Object_keys (allParams this env u2))).
  { apply NoDup_Permutation; try apply allParams_NoDup.
    intros k. rewrite !allParams_keys_iff.
    assert (Hq : In k (map fst (searchParams u1))
                 <-> In k (map fst (searchParams u2))).
    { split; apply Permutation_in; [|symmetry]; now apply Permutation_map. }
    now rewrite Hq. }
  rewrite (sort_by_perm_eq str_leb str_leb_total str_leb_trans str_leb_antisym
             _ _ Hkeys : Array_sort _ = Array_sort _).
  rewrite (mapM_ext_in (paramItem (allParams this env u1))
             (paramItem (allParams this env u2))); [reflexivity|].
  intros k Hk.
  apply (Permutation_in _ (Permutation_sym (Array_sort_perm _))) in Hk.
  assert (Hproto : k <> js "__proto__").
  { apply allParams_keys_iff in Hk as [Hk|[_ Hk]]; [|assumption].
    now apply protocol_name_unreserved. }
  unfold paramItem.
  now rewrite !allParams_get, (query_value_perm _ _ k Hn Hp) by assumption.
Qed.

(* ================================================================== *)
(** ** The signer returns

    The theorems on the header speak of the header returned.  One is
    returned whenever no text that is encoded holds an unpaired surrogate:
    the five credentials and the names and values of the query string; the
    parts of a URL record are ASCII. *)

Lemma isASCII_app (x y : jsstring) :
  isASCII (x ++ y) = isASCII x && isASCII y.
Proof. apply forallb_app. Qed.

Lemma isASCII_join (sep : jsstring) (xs : list jsstring) :
  isASCII sep = true -> Forall (fun x => isASCII x = true) xs ->
  isASCII (join sep xs) = true.
Proof.
  intros Hsep. induction 1 as [|x xs Hx Hxs IH]; [reflexivity|].
  destruct xs as [|y xs]; [exact Hx|].
  change (join sep (x :: y :: xs)) with (x ++ sep ++ join sep (y :: xs)).
  now rewrite !isASCII_app, Hx, Hsep, IH.
Qed.

Lemma isASCII_encodable (s : jsstring) :
  isASCII s = true -> encodable (JString s) = true.
Proof.
  unfold encodable, isWellFormed, isASCII. cbn [ToString].
  induction s as [|c s IH]; [reflexivity|].
  cbn [forallb wf_string code_points]. intros H.
  apply andb_true_iff in H as [Hc Hs]. apply N.ltb_lt in Hc.
  specialize (IH Hs). apply andb_true_iff in IH as [IH1 IH2].
  destruct (isLeadingSurrogate c) eqn:Hl;
    [pose proof (surrogate_above c (or_introl Hl)); lia|].
  destruct (isTrailingSurrogate c) eqn:Ht;
    [pose proof (surrogate_above c (or_intror Ht)); lia|].
  unfold wf_string in IH1. rewrite IH1, andb_true_r.
  destruct (code_points s); [|discriminate].
  cbn [option_map]. rewrite andb_true_r. apply N.ltb_lt. lia.
Qed.

Lemma percent_encode_octets_ASCII (bs : list N) :
  isASCII (percent_encode_octets bs) = true.
Proof.
  induction bs as [|b bs IH]; [reflexivity|].
  change (percent_encode_octets (b :: bs))
    with ((if unreserved b then [b] else pct_escape b)
            ++ percent_encode_octets bs).
  rewrite isASCII_app, IH, andb_true_r.
  destruct (unreserved b) eqn:Hu.
  - destruct (N.lt_ge_cases b 128) as [Hb|Hb].
    + simpl. now rewrite (proj2 (N.ltb_lt _ _) Hb).
    + rewrite unreserved_above in Hu by assumption. discriminate.
  - unfold pct_escape, hexUpper. cbn [isASCII forallb app js map
                                       list_ascii_of_string].
    assert (H : forall i, (nth i (js "0123456789ABCDEF") 0 <? 128) = true).
    { intros i. do 16 (destruct i as [|i]; [reflexivity|]).
      now destruct i. }
    now rewrite !H.
Qed.

(** An encodable value is encoded, into ASCII. *)
Lemma encodeRFC3986_returns (v : jsval) :
  encodable v = true ->
  exists r, encodeRFC3986 v = Ok r /\ isASCII r = true.
Proof.
  unfold encodable. intros H. apply andb_true_iff in H as [Hwf Hw].
  assert (E : encodeRFC3986 v = encodeRFC3986 (JString (ToString v)))
    by reflexivity.
  rewrite E, (encodeRFC3986_percent_encode _ Hwf).
  unfold percent_encode, utf8_of_string. unfold isWellFormed in Hw.
  destruct (code_points (ToString v)); [|discriminate].
  eexists. split; [reflexivity|apply percent_encode_octets_ASCII].
Qed.

Lemma mapM_returns {A B} (f : A -> result B) (P : B -> Prop) (l : list A) :
  (forall x, In x l -> exists y, f x = Ok y /\ P y) ->
  exists ys, mapM f l = Ok ys /\ Forall P ys.
Proof.
  induction l as [|x l IH]; intros H.
  - exists []. split; [reflexivity|constructor].
  - destruct (H x (or_introl eq_refl)) as [y [Hy Py]].
    destruct IH as [ys [Hys Pys]]; [intros; apply H; now right|].
    exists (y :: ys). split; [|now constructor].
    simpl. now rewrite Hy, Hys.
Qed.

Lemma Number_ToString_ASCII (t : Z) : isASCII (Number_ToString t) = true.
Proof.
  assert (H : forall n, isASCII (Number_toString 10 n) = true).
  { intros n. apply forallb_forall. intros c Hc.
    pose proof (Number_toString_digits n) as Hd.
    rewrite forallb_forall in Hd. specialize (Hd c Hc).
    unfold isDecimalDigit in Hd. apply andb_true_iff in Hd as [_ Hd].
    apply N.leb_le in Hd. apply N.ltb_lt. lia. }
  unfold Number_ToString. destruct (t <? 0)%Z; [|apply H].
  now rewrite isASCII_app, H.
Qed.

Lemma hexEncode_ASCII (bs : list N) :
  Forall (fun o => o < 256) bs -> isASCII (hexEncode bs) = true.
Proof.
  intros Hb. apply forallb_forall. intros c Hc.
  pose proof (hexEncode_digits bs Hb) as Hd.
  rewrite forallb_forall in Hd. specialize (Hd c Hc).
  apply hex_printable in Hd. unfold printable in Hd. apply andb_true_iff in Hd as [_ Hd].
  apply N.leb_le in Hd. apply N.ltb_lt. lia.
Qed.

Lemma base64_alphabet_ASCII (c : N) :
  char_in base64_alphabet c = true -> (c <? 128) = true.
Proof.
  intros H. destruct (N.lt_ge_cases c 128) as [Hc|Hc]; [now apply N.ltb_lt|].
  rewrite char_in_above in H by (reflexivity || assumption). discriminate.
Qed.

Section Returns.

Variable this : NetSuiteDownloader.
Variable env : Env.
Variable urlObj : URL.
Variable method : jsstring.

Hypothesis credentials_encodable :
  forall name,
    In name [js "accountId"; js "consumerKey"; js "consumerSecret";
             js "tokenId"; js "tokenSecret"] ->
    encodable (obj_get (config this) name) = true.
Hypothesis octets : Forall (fun o => o < 256) (randomBytes16 env).
Hypothesis url_ASCII :
  isASCII (url_scheme urlObj) = true /\ isASCII (url_host urlObj) = true
  /\ isASCII (url_path urlObj) = true.
Hypothesis query_encodable :
  forall k v, In (k, v) (searchParams urlObj) ->
              encodable (JString k) = true /\ encodable (JString v) = true.

Lemma oauthParams_encodable (k : jsstring) (v : jsval) :
  In (k, v) (oauthParams this env) ->
  encodable (JString k) = true /\ encodable v = true.
Proof.
  unfold oauthParams. simpl.
  intros H.
  repeat (destruct H as [E|H];
          [injection E as <- <-; split; [reflexivity|]|]);
    try contradiction;
    try reflexivity;
    try (apply credentials_encodable; simpl; tauto).
  - apply isASCII_encodable, hexEncode_ASCII, octets.
  - apply (isASCII_encodable (Number_ToString _)), Number_ToString_ASCII.
Qed.

Lemma allParams_encodable (k : jsstring) :
  In k (Object_keys (allParams this env urlObj)) ->
  encodable (JString k) = true
  /\ encodable (obj_get (allParams this env urlObj) k) = true.
Proof.
  intros Hin. apply obj_get_pair in Hin.
  revert Hin. generalize (obj_get (allParams this env urlObj) k) as v.
  intros v Hin. unfold allParams, obj_spread in Hin.
  apply fold_define_entries in Hin as [Hin|[]].
  apply in_app_or in Hin as [Hin|Hin].
  - now apply oauthParams_encodable.
  - apply queryParams_entries_fold in Hin as [[s [E Hin]]|[]].
    rewrite E. now apply query_encodable.
Qed.

Lemma paramString_returns :
  exists p, paramString (allParams this env urlObj) = Ok p /\ isASCII p = true.
Proof.
  unfold paramString.
  destruct (mapM_returns (paramItem (allParams this env urlObj))
              (fun x => isASCII x = true)
              (Array_sort (Object_keys (allParams this env urlObj))))
    as [items [Hitems Hascii]].
  { intros k Hk.
    apply (Permutation_in _ (Permutation_sym (Array_sort_perm _))) in Hk.
    destruct (allParams_encodable k Hk) as [Hkey Hval].
    destruct (encodeRFC3986_returns _ Hkey) as [ek [Ek Ak]].
    destruct (encodeRFC3986_returns _ Hval) as [ev [Ev Av]].
    exists (ek ++ js "=" ++ ev). unfold paramItem. rewrite Ek, Ev.
    split; [reflexivity|]. now rewrite !isASCII_app, Ak, Av. }
  rewrite Hitems. eexists. split; [reflexivity|].
  now apply isASCII_join.
Qed.

Lemma baseUrl_ASCII : isASCII (baseUrl urlObj) = true.
Proof.
  destruct url_ASCII as [Hs [Hh Hp]].
  unfold baseUrl, protocol, host, pathname.
  rewrite !isASCII_app, Hs, Hp. cbn [andb].
  destruct (url_port urlObj) as [port|]; [|now rewrite Hh].
  rewrite !isASCII_app, Hh. cbn [andb].
  pose proof (Number_ToString_ASCII (Z.of_N port)) as H.
  unfold Number_ToString in H.
  destruct (Z.ltb_spec (Z.of_N port) 0) as [Hneg|_]; [lia|].
  rewrite N2Z.id in H. now rewrite H.
Qed.

(** The header is returned. *)
Lemma generateOAuthHeader_returns :
  exists header, generateOAuthHeader this env urlObj method = Ok header.
Proof.
  unfold generateOAuthHeader.
  destruct paramString_returns as [p [Hp Ap]]. rewrite Hp. cbn [bind].
  destruct (encodeRFC3986_returns (JString (baseUrl urlObj))
              (isASCII_encodable _ baseUrl_ASCII)) as [eu [Eu _]].
  destruct (encodeRFC3986_returns (JString p) (isASCII_encodable _ Ap))
    as [ep [Ep _]].
  unfold baseString. rewrite Eu, Ep. cbn [bind].
  destruct (encodeRFC3986_returns _
              (credentials_encodable (js "consumerSecret") ltac:(simpl; tauto)))
    as [cs [Ecs _]].
  destruct (encodeRFC3986_returns _
              (credentials_encodable (js "tokenSecret") ltac:(simpl; tauto)))
    as [ts [Ets _]].
  unfold signature, signingKey. rewrite Ecs, Ets. cbn [bind].
  set (sig := createHmac_sha256_base64 _ _).
  assert (Asig : isASCII sig = true).
  { unfold sig, createHmac_sha256_base64.
    destruct (base64_of_digest (hmac_sha256 (Buffer_from_utf8 (cs ++ js "&" ++ ts))
                                  (Buffer_from_utf8
                                     (method ++ js "&" ++ eu ++ js "&" ++ ep))))
      as [body [E [_ Hbody]]]; try apply digest_shape.
    rewrite E, isASCII_app, andb_true_r.
    apply forallb_forall. intros c Hc. rewrite forallb_forall in Hbody.
    now apply base64_alphabet_ASCII, Hbody. }
  unfold headerItems.
  destruct (encodeRFC3986_returns _
              (credentials_encodable (js "accountId") ltac:(simpl; tauto)))
    as [e1 [E1 _]].
  destruct (encodeRFC3986_returns _
              (credentials_encodable (js "consumerKey") ltac:(simpl; tauto)))
    as [e2 [E2 _]].
  destruct (encodeRFC3986_returns (nonce env)
              (isASCII_encodable _ (hexEncode_ASCII _ octets))) as [e3 [E3 _]].
  destruct (encodeRFC3986_returns (JString sig) (isASCII_encodable _ Asig))
    as [e4 [E4 _]].
  destruct (encodeRFC3986_returns (timestamp env)
              (isASCII_encodable (Number_ToString _) (Number_ToString_ASCII _)))
    as [e5 [E5 _]].
  destruct (encodeRFC3986_returns _
              (credentials_encodable (js "tokenId") ltac:(simpl; tauto)))
    as [e6 [E6 _]].
  rewrite E1, E2, E3, E4, E5, E6. cbn [bind].
  eexists. reflexivity.
Qed.

End Returns.

(* ================================================================== *)
(** ** Further properties: the signer as a whole *)

(** X1.  A signing call from scratch returns a header whenever the six
    required entries are present (truthy), the five credentials and the
    names and values of the query string hold no unpaired surrogate, the
    random source gave octets and the parts of the URL record are ASCII:
    no exception of an encoder can occur then. *)
Theorem sign_returns (cfg : object) (env : Env) (urlObj : URL)
    (method : jsstring) :
  (forall key, In key required -> ToBoolean (obj_get cfg key) = true) ->
  (forall name,
      In name [js "accountId"; js "consumerKey"; js "consumerSecret";
               js "tokenId"; js "tokenSecret"] ->
      encodable (obj_get cfg name) = true) ->
  Forall (fun o => o < 256) (randomBytes16 env) ->
  isASCII (url_scheme urlObj) = true /\ isASCII (url_host urlObj) = true
  /\ isASCII (url_path urlObj) = true ->
  (forall k v, In (k, v) (searchParams urlObj) ->
               encodable (JString k) = true /\ encodable (JString v) = true) ->
  exists header,
    sign cfg env urlObj method = Ok header
    /\ generateOAuthHeader {| config := cfg |} env urlObj method = Ok header.
Proof.
  intros Hreq Hcred Hoct Hurl Hquery.
  destruct (generateOAuthHeader_returns {| config := cfg |} env urlObj method
              Hcred Hoct Hurl Hquery) as [header Hheader].
  exists header. split; [|exact Hheader].
  unfold sign, constructor, validateConfig.
  assert (Hnone : filter (fun key => negb (ToBoolean (obj_get cfg key))) required
                  = []).
  { induction required as [|key keys IH]; [reflexivity|].
    simpl. rewrite (Hreq key (or_introl eq_refl)). simpl.
    apply IH. intros k Hk. apply Hreq. now right. }
  rewrite Hnone. exact Hheader.
Qed.

Lemma sign_returns_witness :
  exists header,
    sign Sample.cfg Sample.env Sample.url (js "POST") = Ok header
    /\ generateOAuthHeader {| config := Sample.cfg |} Sample.env Sample.url
         (js "POST") = Ok header.
Proof.
  apply sign_returns.
  - intros key H. simpl in H.
    repeat (destruct H as [<-|H]; [reflexivity|]). contradiction.
  - intros name H. simpl in H.
    repeat (destruct H as [<-|H]; [reflexivity|]). contradiction.
  - repeat constructor.
  - split_all; reflexivity.
  - intros k v H. simpl in H.
    repeat (destruct H as [E|H]; [injection E as <- <-; split; reflexivity|]).
    contradiction.
Defined.

(** X2.  The order of the query parameters of the URL does not show in
    the header: two URLs with the same scheme, host and path whose query
    strings hold the same pairs, each name once, in any order, give the
    same `Authorization` value in the same environment. *)
Theorem header_query_order this env (u1 u2 : URL) (method : jsstring) :
  baseUrl u1 = baseUrl u2 ->
  NoDup (map fst (searchParams u1)) ->
  Permutation (searchParams u1) (searchParams u2) ->
  generateOAuthHeader this env u1 method = generateOAuthHeader this env u2 method.
Proof.
  intros Hbase Hnodup Hperm. unfold generateOAuthHeader.
  rewrite (paramString_query_order this env u1 u2 Hnodup Hperm).
  now rewrite Hbase.
Qed.

Lemma header_query_order_witness :
  generateOAuthHeader Sample.this Sample.env Sample.url (js "POST")
  = generateOAuthHeader Sample.this Sample.env More.url_swapped (js "POST").
Proof.
  apply header_query_order.
  - reflexivity.
  - simpl. constructor.
    + simpl. intros [H|[]]. discriminate H.
    + constructor; [intros []|constructor].
  - apply perm_swap.
Defined.

(** X3.  The object signed holds every name once: the six protocol
    names and the names of the query string other than [__proto__].  The
    value of a name is that of its last pair in the query string, else
    the protocol value; a pair named [__proto__] is dropped. *)
Theorem merged_parameters this env urlObj (k : jsstring) :
  NoDup (Object_keys (allParams this env urlObj))
  /\ (In k (Object_keys (allParams this env urlObj))
      <-> In k protocol_names
          \/ (In k (map fst (searchParams urlObj)) /\ k <> js "__proto__"))
  /\ (k <> js "__proto__" ->
      obj_get (allParams this env urlObj) k
      = match query_value (searchParams urlObj) k with
        | Some v => JString v
        | None => obj_get (oauthParams this env) k
        end)
  /\ obj_get (allParams this env urlObj) (js "__proto__") = JUndefined.
Proof.
  split_all.
  - apply allParams_NoDup.
  - apply allParams_keys_iff.
  - apply allParams_get.
  - apply obj_get_notin. intros Hin.
    apply allParams_keys_iff in Hin as [Hin|[_ Hin]].
    + now apply protocol_name_unreserved in Hin.
    + now apply Hin.
Qed.

(* ================================================================== *)
(** ** The characters of an encoded text *)

Lemma toRadix_hex (fuel : nat) :
  forall n acc, forallb isHexLower acc = true ->
                forallb isHexLower (toRadix fuel 16 n acc) = true.
Proof.
  induction fuel as [|fuel IH]; intros n acc Hacc; cbn [toRadix];
    [assumption|].
  assert (Hd : isHexLower (digitChar (n mod 16)) = true).
  { pose proof (N.mod_lt n 16 ltac:(discriminate)) as Hm.
    revert Hm. generalize (n mod 16) as m. intros m Hm. revert m Hm.
    apply (forall_below (fun m => isHexLower (digitChar m)) 16).
    vm_compute. reflexivity. }
  destruct (n / 16 =? 0).
  - cbn [forallb]. now rewrite Hd.
  - apply IH. cbn [forallb]. now rewrite Hd.
Qed.

Lemma isHexLower_upper (c : N) :
  isHexLower c = true ->
  isHexUpper (if (97 <=? c) && (c <=? 122) then c - 32 else c) = true.
Proof.
  destruct (N.lt_ge_cases c 128) as [Hc|Hc].
  - intros H.
    assert (G : implb (isHexLower c)
                  (isHexUpper (if (97 <=? c) && (c <=? 122) then c - 32 else c))
                = true).
    { revert c Hc H. intros c Hc _. revert c Hc.
      apply (forall_below
               (fun c => implb (isHexLower c)
                           (isHexUpper
                              (if (97 <=? c) && (c <=? 122) then c - 32 else c)))
               128).
      vm_compute. reflexivity. }
    now rewrite H in G.
  - unfold isHexLower. rewrite char_in_above by (reflexivity || assumption).
    discriminate.
Qed.

Lemma isHexUpper_unreserved (c : N) :
  isHexUpper c = true -> unreserved c = true /\ char_in (js "!'()*") c = false.
Proof.
  destruct (N.lt_ge_cases c 128) as [Hc|Hc].
  - intros H.
    assert (G : implb (isHexUpper c)
                  (unreserved c && negb (char_in (js "!'()*") c)) = true).
    { revert c Hc H. intros c Hc _. revert c Hc.
      apply (forall_below
               (fun c => implb (isHexUpper c)
                           (unreserved c && negb (char_in (js "!'()*") c))) 128).
      vm_compute. reflexivity. }
    rewrite H in G. simpl in G. apply andb_true_iff in G as [G1 G2].
    split; [assumption|]. now apply negb_true_iff.
  - unfold isHexUpper. rewrite char_in_above by (reflexivity || assumption).
    discriminate.
Qed.

(** [toString(16).toUpperCase()], padded or not, is made of upper-case
    hexadecimal digits. *)
Lemma hex_text_upper (o : N) :
  forallb isHexUpper (toUpperCase (Number_toString 16 o)) = true.
Proof.
  unfold Number_toString, toUpperCase.
  assert (H : forallb isHexLower
                (toRadix (S (N.to_nat (N.log2 o))) 16 o []) = true)
    by now apply toRadix_hex.
  revert H. generalize (toRadix (S (N.to_nat (N.log2 o))) 16 o []) as h.
  induction h as [|c h IH]; [reflexivity|].
  cbn [forallb map]. intros H. apply andb_true_iff in H as [Hc Hh].
  rewrite (isHexLower_upper c Hc). now apply IH.
Qed.

Lemma StringPad2_upper (h : jsstring) :
  forallb isHexUpper h = true -> forallb isHexUpper (StringPad2 h) = true.
Proof.
  destruct h as [|c [|d h]]; [reflexivity| |trivial].
  cbn [StringPad2 forallb]. intros H. now rewrite H.
Qed.

Lemma isHexUpper_component (h : jsstring) :
  forallb isHexUpper h = true -> forallb component_char h = true.
Proof.
  induction h as [|c h IH]; [reflexivity|].
  cbn [forallb]. intros H. apply andb_true_iff in H as [Hc Hh].
  apply isHexUpper_unreserved in Hc as [Hc _].
  unfold component_char at 1, escaped_char. rewrite Hc. now apply IH.
Qed.

Lemma encodeOctet_component (o : N) :
  forallb component_char (encodeOctet o) = true.
Proof.
  unfold encodeOctet.
  change (js "%" ++ ?s) with (37 :: s). cbn [forallb].
  change (component_char 37) with true. cbn [andb].
  apply isHexUpper_component, StringPad2_upper, hex_text_upper.
Qed.

Lemma encodeOctets_component (os : list N) :
  forallb component_char (flat_map encodeOctet os) = true.
Proof.
  induction os as [|o os IH]; [reflexivity|].
  cbn [flat_map]. rewrite forallb_app, encodeOctet_component. exact IH.
Qed.

Lemma Encode_component_len (n : nat) :
  forall s r, (length s <= n)%nat ->
              Encode uriUnescaped s = Ok r -> forallb component_char r = true.
Proof.
  induction n as [|n IH]; intros [|c rest] r Hlen; simpl in Hlen; try lia;
    try (intros H; injection H as <-; reflexivity).
  cbn [Encode].
  destruct (uriUnescaped c) eqn:Hu.
  - intros H. bind_inv H. injection H as <-. cbn [forallb].
    rewrite (IH rest r0) by (lia || assumption).
    rewrite uriUnescaped_split in Hu.
    unfold component_char, escaped_char.
    apply orb_true_iff in Hu as [-> | ->]; [reflexivity|].
    now rewrite !orb_true_r.
  - destruct (isLeadingSurrogate c).
    + destruct rest as [|d rest']; [discriminate|].
      destruct (isTrailingSurrogate d); [|discriminate].
      intros H. bind_inv H. injection H as <-.
      rewrite forallb_app, encodeOctets_component.
      apply (IH rest'); [simpl in Hlen; lia|assumption].
    + destruct (isTrailingSurrogate c); [discriminate|].
      intros H. bind_inv H. injection H as <-.
      rewrite forallb_app, encodeOctets_component.
      apply (IH rest); [lia|assumption].
Qed.

Lemma replaceReserved_escaped (s : jsstring) :
  forallb component_char s = true ->
  forallb escaped_char (replaceReserved s) = true.
Proof.
  induction s as [|c s IH]; [reflexivity|].
  cbn [forallb]. intros H. apply andb_true_iff in H as [Hc Hs].
  change (c :: s) with ([c] ++ s).
  rewrite replaceReserved_app, forallb_app, (IH Hs), andb_true_r.
  unfold replaceReserved. cbn [flat_map]. rewrite app_nil_r.
  destruct (char_in (js "!'()*") c) eqn:Hr.
  - change (js "%" ++ ?t) with (37 :: t). cbn [forallb].
    change (escaped_char 37) with true. cbn [andb].
    pose proof (hex_text_upper c) as Hh. revert Hh.
    generalize (toUpperCase (Number_toString 16 c)) as h.
    induction h as [|x h IHh]; [reflexivity|].
    cbn [forallb]. intros Hh. apply andb_true_iff in Hh as [Hx Hh].
    apply isHexUpper_unreserved in Hx as [Hx _].
    unfold escaped_char at 1. rewrite Hx. now apply IHh.
  - cbn [forallb]. rewrite andb_true_r.
    unfold component_char in Hc. rewrite Hr, orb_false_r in Hc. exact Hc.
Qed.

(** Every character an encoder returns is unreserved or [%]. *)
Lemma encodeRFC3986_escaped (v : jsval) (r : jsstring) :
  encodeRFC3986 v = Ok r -> forallb escaped_char r = true.
Proof.
  unfold encodeRFC3986, encodeURIComponent. intros H. bind_inv H.
  injection H as <-. apply replaceReserved_escaped.
  now apply (Encode_component_len (length (ToString v)) (ToString v)).
Qed.

Lemma escaped_char_not (c : N) :
  escaped_char c = true -> ~ In c (js "&=, " ++ dquote).
Proof.
  intros H Hin. simpl in Hin.
  repeat (destruct Hin as [<-|Hin]; [discriminate H|]). contradiction.
Qed.

(** X4.  Whatever its argument, the text an encoder returns is made of
    unreserved characters and [%] only; it holds none of the delimiters
    the signer writes around it: [&], [=], the comma, the space and the
    double quote. *)
Theorem encodeRFC3986_alphabet (v : jsval) (r : jsstring) :
  encodeRFC3986 v = Ok r ->
  forall c, In c r ->
            (unreserved c = true \/ c = 37) /\ ~ In c (js "&=, " ++ dquote).
Proof.
  intros H c Hin. apply encodeRFC3986_escaped in H.
  rewrite forallb_forall in H. specialize (H c Hin).
  split; [|now apply escaped_char_not].
  unfold escaped_char in H. apply orb_true_iff in H as [H|H]; [now left|right].
  now apply N.eqb_eq.
Qed.

Lemma encodeRFC3986_alphabet_witness :
  exists r,
    encodeRFC3986 (JString Sample.text) = Ok r
    /\ forall c, In c r ->
                 (unreserved c = true \/ c = 37)
                 /\ ~ In c (js "&=, " ++ dquote).
Proof.
  eexists. split; [vm_compute; reflexivity|].
  apply (encodeRFC3986_alphabet (JString Sample.text)). vm_compute. reflexivity.
Defined.

(* ================================================================== *)
(** ** Taking the parameter string and the header apart again *)

Lemma lacks_app (sep : N) (x y : jsstring) :
  lacks sep (x ++ y) = lacks sep x && lacks sep y.
Proof. apply forallb_app. Qed.

Lemma split_lacks (sep : N) (x : jsstring) :
  lacks sep x = true -> split sep x = [x].
Proof.
  induction x as [|c x IH]; [reflexivity|].
  cbn [lacks forallb split]. intros H. apply andb_true_iff in H as [Hc Hx].
  apply negb_true_iff in Hc. rewrite Hc. now rewrite (IH Hx).
Qed.

Lemma split_app (sep : N) (x y : jsstring) :
  lacks sep x = true -> split sep (x ++ sep :: y) = x :: split sep y.
Proof.
  induction x as [|c x IH].
  - intros _. cbn [app split]. now rewrite N.eqb_refl.
  - cbn [lacks forallb app split]. intros H.
    apply andb_true_iff in H as [Hc Hx].
    apply negb_true_iff in Hc. rewrite Hc. now rewrite (IH Hx).
Qed.

(** [split] undoes [join] when no item holds the separator. *)
Lemma split_join (sep : N) (x : jsstring) (xs : list jsstring) :
  forallb (lacks sep) (x :: xs) = true ->
  split sep (join [sep] (x :: xs)) = x :: xs.
Proof.
  revert x. induction xs as [|y xs IH]; intros x H;
    cbn [forallb] in H; apply andb_true_iff in H as [Hx Hxs].
  - now apply split_lacks.
  - change (join [sep] (x :: y :: xs)) with (x ++ sep :: join [sep] (y :: xs)).
    rewrite split_app by assumption. now rewrite IH.
Qed.

Lemma split_join_all (sep : N) (l : list jsstring) :
  l <> [] -> forallb (lacks sep) l = true -> split sep (join [sep] l) = l.
Proof.
  destruct l as [|x xs]; [intros H; now elim H|]. intros _. apply split_join.
Qed.

Lemma split_comma_join (x : jsstring) (xs : list jsstring) :
  forallb (lacks 44) (x :: xs) = true ->
  split 44 (join (js ", ") (x :: xs)) = x :: map (cons 32) xs.
Proof.
  revert x. induction xs as [|y xs IH]; intros x H;
    cbn [forallb] in H; apply andb_true_iff in H as [Hx Hxs].
  - now apply split_lacks.
  - change (join (js ", ") (x :: y :: xs))
      with (x ++ 44 :: 32 :: join (js ", ") (y :: xs)).
    rewrite split_app by assumption.
    cbn [split]. change (32 =? 44) with false. cbv iota.
    now rewrite IH.
Qed.

Lemma escaped_lacks (sep : N) (r : jsstring) :
  escaped_char sep = false -> forallb escaped_char r = true ->
  lacks sep r = true.
Proof.
  intros Hsep. induction r as [|c r IH]; [reflexivity|].
  cbn [forallb lacks]. intros H. apply andb_true_iff in H as [Hc Hr].
  fold (lacks sep r). rewrite (IH Hr), andb_true_r.
  apply negb_true_iff. destruct (N.eqb_spec c sep) as [->|]; [|reflexivity].
  congruence.
Qed.

Lemma mapM_Forall {A B} (f : A -> result B) (P : B -> Prop) (l : list A) :
  (forall x y, f x = Ok y -> P y) ->
  forall ys, mapM f l = Ok ys -> Forall P ys.
Proof.
  intros Hf. induction l as [|x l IH]; intros ys H; simpl in H.
  - injection H as <-. constructor.
  - bind_inv H. injection H as <-. constructor; [now apply (Hf x)|now apply IH].
Qed.

Lemma encodePair_escaped (kv : jsstring * jsval) (p : jsstring * jsstring) :
  encodePair kv = Ok p ->
  forallb escaped_char (fst p) = true /\ forallb escaped_char (snd p) = true.
Proof.
  unfold encodePair. intros H. bind_inv H. injection H as <-.
  split; eapply encodeRFC3986_escaped; eassumption.
Qed.

(** The encoded pairs of the object signed, read back from their joined
    form. *)
Lemma encoded_pairs_split this env urlObj (pairs : list (jsstring * jsstring)) :
  mapM encodePair
    (map (fun k => (k, obj_get (allParams this env urlObj) k))
         (Array_sort (Object_keys (allParams this env urlObj))))
  = Ok pairs ->
  map (split 61) (split 38 (join (js "&") (map renderPair pairs)))
  = map (fun kv => [fst kv; snd kv]) pairs.
Proof.
  intros E.
  assert (Hesc : Forall (fun q => forallb escaped_char (fst q) = true
                                  /\ forallb escaped_char (snd q) = true) pairs).
  { eapply mapM_Forall; [|exact E]. intros kv q. apply encodePair_escaped. }
  assert (Hne : pairs <> []).
  { assert (Hin : In (js "oauth_nonce")
                     (Array_sort (Object_keys (allParams this env urlObj)))).
    { apply (Permutation_in _ (Array_sort_perm _)).
      apply allParams_keys_iff. left. simpl. tauto. }
    apply (in_map (fun k => (k, obj_get (allParams this env urlObj) k))) in Hin.
    destruct (mapM_In _ _ _ _ E Hin) as [y [_ Hy]].
    intros ->. exact Hy. }
  clear E. change (js "&") with [38].
  rewrite split_join_all.
  - rewrite map_map. clear Hne. revert Hesc. generalize pairs as l.
    induction l as [|[k v] l IH]; [reflexivity|].
    intros Hesc. inversion Hesc as [|? ? [Hk Hv] Hl]; subst.
    cbn [map fst snd]. f_equal; [|now apply IH].
    unfold renderPair. cbn [fst snd]. change (js "=" ++ v) with (61 :: v).
    rewrite split_app by (apply escaped_lacks; [reflexivity|assumption]).
    now rewrite split_lacks by (apply escaped_lacks; [reflexivity|assumption]).
  - destruct pairs; [now elim Hne|discriminate].
  - clear Hne. revert Hesc. generalize pairs as l.
    induction l as [|[k v] l IH]; [reflexivity|].
    intros Hesc. inversion Hesc as [|? ? [Hk Hv] Hl]; subst.
    cbn [map forallb]. rewrite (IH Hl), andb_true_r.
    unfold renderPair. cbn [fst snd]. change (js "=" ++ v) with (61 :: v).
    rewrite lacks_app. cbn [lacks forallb]. fold (lacks 38 v).
    rewrite !escaped_lacks by (reflexivity || assumption). reflexivity.
Qed.

(** X5.  The parameter string can be taken apart again: cut at every
    [&] and each piece cut at [=], it gives back the encoded name and the
    encoded value of every parameter of the object signed, in the order
    of the sorted names.  No encoded text holds a [&] or a [=] of its
    own. *)
Theorem paramString_splits this env urlObj (p : jsstring) :
  paramString (allParams this env urlObj) = Ok p ->
  exists pairs,
    mapM encodePair
      (map (fun k => (k, obj_get (allParams this env urlObj) k))
           (Array_sort (Object_keys (allParams this env urlObj))))
    = Ok pairs
    /\ map (split 61) (split 38 p) = map (fun kv => [fst kv; snd kv]) pairs.
Proof.
  rewrite paramString_pairs. intros H. bind_inv H. apply Ok_inj in H. subst p.
  rename r into pairs. exists pairs. split; [reflexivity|].
  now apply (encoded_pairs_split this env urlObj).
Qed.

Lemma paramString_splits_witness :
  exists p,
    paramString (allParams Sample.this Sample.env Sample.url_mixed) = Ok p
    /\ exists pairs,
      mapM encodePair
        (map (fun k =>
                (k, obj_get (allParams Sample.this Sample.env Sample.url_mixed) k))
           (Array_sort
              (Object_keys (allParams Sample.this Sample.env Sample.url_mixed))))
      = Ok pairs
      /\ map (split 61) (split 38 p) = map (fun kv => [fst kv; snd kv]) pairs.
Proof.
  eexists. split; [vm_compute; reflexivity|].
  apply (paramString_splits Sample.this Sample.env Sample.url_mixed).
  vm_compute. reflexivity.
Defined.

Lemma skip_spaces_name (name rest : jsstring) :
  field_name name = true -> skip_spaces (name ++ rest) = name ++ rest.
Proof.
  destruct name as [|c name]; [discriminate|].
  cbn [field_name]. intros H.
  apply andb_true_iff in H as [H _]. apply andb_true_iff in H as [H _].
  apply andb_true_iff in H as [H _]. apply negb_true_iff, N.eqb_neq in H.
  cbn [app skip_spaces].
  destruct c as [|p]; [reflexivity|].
  do 6 (destruct p as [p|p|]; try reflexivity). now elim H.
Qed.

Lemma field_name_lacks (name : jsstring) :
  field_name name = true ->
  lacks 61 name = true /\ lacks 44 name = true /\ lacks 34 name = true.
Proof.
  destruct name as [|c name]; [discriminate|].
  unfold field_name. intros H.
  apply andb_true_iff in H as [H H34]. apply andb_true_iff in H as [H H44].
  apply andb_true_iff in H as [_ H61]. now split_all.
Qed.

Lemma read_field_render (f : jsstring * jsstring) :
  field_name (fst f) = true -> field_value (snd f) = true ->
  read_field (render_field f) = Some f
  /\ read_field (32 :: render_field f) = Some f
  /\ lacks 44 (render_field f) = true.
Proof.
  destruct f as [name value]. cbn [fst snd]. intros Hn Hv.
  pose proof (field_name_lacks name Hn) as [Hn61 [Hn44 Hn34]].
  unfold field_value in Hv.
  apply andb_true_iff in Hv as [Hv Hv34]. apply andb_true_iff in Hv as [Hv61 Hv44].
  assert (R : read_field (render_field (name, value)) = Some (name, value)).
  { unfold read_field, render_field. cbn [fst snd].
    rewrite skip_spaces_name by assumption.
    change (js "=" ++ dquote ++ value ++ dquote) with (61 :: 34 :: value ++ [34]).
    rewrite split_app by assumption.
    rewrite split_lacks.
    - cbn [split]. change (34 =? 34) with true. cbv iota.
      rewrite split_app by assumption. reflexivity.
    - cbn [lacks forallb]. fold (lacks 61 (value ++ [34])).
      rewrite lacks_app, Hv61. reflexivity. }
  split_all.
  - exact R.
  - unfold read_field. cbn [skip_spaces]. exact R.
  - unfold render_field. cbn [fst snd].
    change (js "=" ++ dquote ++ value ++ dquote) with (61 :: 34 :: value ++ [34]).
    rewrite lacks_app, Hn44. cbn [lacks forallb andb]. fold (lacks 44 (value ++ [34])).
    rewrite lacks_app, Hv44. reflexivity.
Qed.

(** The reader gets back the fields of any header rendered the way the
    source renders its own. *)
Lemma read_header_render (f : jsstring * jsstring)
    (fs : list (jsstring * jsstring)) :
  Forall (fun f => field_name (fst f) = true /\ field_value (snd f) = true)
         (f :: fs) ->
  read_header (js "OAuth " ++ join (js ", ") (map render_field (f :: fs)))
  = Some (f :: fs).
Proof.
  intros H.
  change (js "OAuth " ++ ?x) with (79 :: 65 :: 117 :: 116 :: 104 :: 32 :: x).
  cbn [read_header map].
  rewrite split_comma_join.
  - inversion H as [|? ? [Hn Hv] Hfs]; subst.
    cbn [read_fields].
    rewrite (proj1 (read_field_render f Hn Hv)).
    assert (R : read_fields (map (cons 32) (map render_field fs)) = Some fs).
    { clear H Hn Hv. induction Hfs as [|g gs [Hn Hv] _ IH]; [reflexivity|].
      cbn [map read_fields].
      rewrite (proj1 (proj2 (read_field_render g Hn Hv))). now rewrite IH. }
    now rewrite R.
  - change (render_field f :: map render_field fs)
      with (map render_field (f :: fs)).
    induction H as [|g gs [Hn Hv] _ IH]; [reflexivity|].
    cbn [map forallb].
    rewrite (proj2 (proj2 (read_field_render g Hn Hv))). exact IH.
Qed.

Lemma escaped_field_value (v : jsval) (r : jsstring) :
  encodeRFC3986 v = Ok r -> field_value r = true.
Proof.
  intros H. apply encodeRFC3986_escaped in H. unfold field_value.
  now rewrite !escaped_lacks by (reflexivity || assumption).
Qed.

(** X6.  The header can be read back: a reader that drops the scheme
    [OAuth], cuts the rest at the commas and takes of each piece the name
    before [=] and the text between the double quotes finds the eight
    parameters in the order written, each with the encoded text of its
    value; no value holds a comma, a [=] or a double quote that would
    mislead it. *)
Theorem header_reads_back this env urlObj (method header : jsstring) :
  generateOAuthHeader this env urlObj method = Ok header ->
  exists paramString' baseString' signature' realm consumer_key nonce' signature''
         timestamp' token,
    paramString (allParams this env urlObj) = Ok paramString'
    /\ baseString method (baseUrl urlObj) paramString' = Ok baseString'
    /\ signature this baseString' = Ok signature'
    /\ encodeRFC3986 (obj_get (config this) (js "accountId")) = Ok realm
    /\ encodeRFC3986 (obj_get (config this) (js "consumerKey")) = Ok consumer_key
    /\ encodeRFC3986 (nonce env) = Ok nonce'
    /\ encodeRFC3986 (JString signature') = Ok signature''
    /\ encodeRFC3986 (timestamp env) = Ok timestamp'
    /\ encodeRFC3986 (obj_get (config this) (js "tokenId")) = Ok token
    /\ read_header header
       = Some [ (js "realm", realm);
                (js "oauth_consumer_key", consumer_key);
                (js "oauth_nonce", nonce');
                (js "oauth_signature", signature'');
                (js "oauth_signature_method", js "HMAC-SHA256");
                (js "oauth_timestamp", timestamp');
                (js "oauth_token", token);
                (js "oauth_version", js "1.0") ].
Proof.
  unfold generateOAuthHeader. intros H. bind_inv H.
  apply Ok_inj in H. subst header.
  unfold headerItems in E2. bind_inv E2. apply Ok_inj in E2. subst r2.
  exists r, r0, r1, r3, r4, r5, r6, r7, r8.
  split_all; try reflexivity; try assumption.
  apply (read_header_render (js "realm", r3)
           [ (js "oauth_consumer_key", r4);
             (js "oauth_nonce", r5);
             (js "oauth_signature", r6);
             (js "oauth_signature_method", js "HMAC-SHA256");
             (js "oauth_timestamp", r7);
             (js "oauth_token", r8);
             (js "oauth_version", js "1.0") ]).
  repeat match goal with
         | |- Forall _ (_ :: _) => apply Forall_cons
         | |- Forall _ [] => apply Forall_nil
         end;
    (split; [reflexivity|]); cbn [snd];
    try (eapply escaped_field_value; eassumption); reflexivity.
Qed.

Lemma header_reads_back_witness :
  exists header,
    generateOAuthHeader Sample.this Sample.env Sample.url (js "POST") = Ok header
    /\ exists paramString' baseString' signature' realm consumer_key nonce'
              signature'' timestamp' token,
      paramString (allParams Sample.this Sample.env Sample.url) = Ok paramString'
      /\ baseString (js "POST") (baseUrl Sample.url) paramString' = Ok baseString'
      /\ signature Sample.this baseString' = Ok signature'
      /\ encodeRFC3986 (obj_get (config Sample.this) (js "accountId")) = Ok realm
      /\ encodeRFC3986 (obj_get (config Sample.this) (js "consumerKey"))
         = Ok consumer_key
      /\ encodeRFC3986 (nonce Sample.env) = Ok nonce'
      /\ encodeRFC3986 (JString signature') = Ok signature''
      /\ encodeRFC3986 (timestamp Sample.env) = Ok timestamp'
      /\ encodeRFC3986 (obj_get (config Sample.this) (js "tokenId")) = Ok token
      /\ read_header header
         = Some [ (js "realm", realm);
                  (js "oauth_consumer_key", consumer_key);
                  (js "oauth_nonce", nonce');
                  (js "oauth_signature", signature'');
                  (js "oauth_signature_method", js "HMAC-SHA256");
                  (js "oauth_timestamp", timestamp');
                  (js "oauth_token", token);
                  (js "oauth_version", js "1.0") ].
Proof.
  eexists. split; [vm_compute; reflexivity|].
  apply (header_reads_back Sample.this Sample.env Sample.url (js "POST")).
  vm_compute. reflexivity.
Defined.

(** X7.  The base string and the signing key can be taken apart again:
    when the method token has no [&], the base string cut at [&] is the
    method, the encoded address and the encoded parameter string, and the
    signing key cut at [&] is the encoded consumer secret and the encoded
    token secret.  No secret can pass for part of the other. *)
Theorem baseString_splits this (method baseUrl' paramString' b k : jsstring) :
  lacks 38 method = true ->
  baseString method baseUrl' paramString' = Ok b ->
  signingKey this = Ok k ->
  exists u p cs ts,
    encodeRFC3986 (JString baseUrl') = Ok u
    /\ encodeRFC3986 (JString paramString') = Ok p
    /\ encodeRFC3986 (obj_get (config this) (js "consumerSecret")) = Ok cs
    /\ encodeRFC3986 (obj_get (config this) (js "tokenSecret")) = Ok ts
    /\ split 38 b = [method; u; p]
    /\ split 38 k = [cs; ts].
Proof.
  intros Hm Hb Hk. unfold baseString in Hb. unfold signingKey in Hk.
  bind_inv Hb. bind_inv Hk. apply Ok_inj in Hb, Hk. subst b k.
  exists r, r0, r1, r2. split_all; try reflexivity.
  - change (js "&" ++ ?x) with (38 :: x).
    rewrite split_app by assumption.
    change (js "&" ++ ?x) with (38 :: x).
    rewrite split_app
      by (apply escaped_lacks; [reflexivity|eapply encodeRFC3986_escaped; eassumption]).
    now rewrite split_lacks
      by (apply escaped_lacks; [reflexivity|eapply encodeRFC3986_escaped; eassumption]).
  - change (js "&" ++ ?x) with (38 :: x).
    rewrite split_app
      by (apply escaped_lacks; [reflexivity|eapply encodeRFC3986_escaped; eassumption]).
    now rewrite split_lacks
      by (apply escaped_lacks; [reflexivity|eapply encodeRFC3986_escaped; eassumption]).
Qed.

Lemma baseString_splits_witness :
  exists b k,
    baseString (js "POST") (js "https://example.com/a&b") (js "x=1&y=2") = Ok b
    /\ signingKey {| config := [ (js "consumerSecret", JString (js "a&"));
                                (js "tokenSecret", JString (js "b")) ] |} = Ok k
    /\ exists u p cs ts,
      encodeRFC3986 (JString (js "https://example.com/a&b")) = Ok u
      /\ encodeRFC3986 (JString (js "x=1&y=2")) = Ok p
      /\ encodeRFC3986 (JString (js "a&")) = Ok cs
      /\ encodeRFC3986 (JString (js "b")) = Ok ts
      /\ split 38 b = [js "POST"; u; p]
      /\ split 38 k = [cs; ts].
Proof.
  eexists. eexists. split; [vm_compute; reflexivity|].
  split; [vm_compute; reflexivity|].
  apply (baseString_splits
           {| config := [ (js "consumerSecret", JString (js "a&"));
                          (js "tokenSecret", JString (js "b")) ] |}
           (js "POST") (js "https://example.com/a&b") (js "x=1&y=2"));
    vm_compute; reflexivity.
Defined.

(** X8.  What is signed is what is sent.  When the query string uses
    none of the six protocol names, the header read back carries, for
    each of them, exactly the encoded text of the value that entered the
    signature; a server that rebuilds the parameter string from the
    header and the query string signs the same text.  (With such a name
    in the query string the two differ, as shown for C10.) *)
Theorem header_carries_signed_values this env urlObj (method header : jsstring) :
  (forall k, In k protocol_names -> query_value (searchParams urlObj) k = None) ->
  generateOAuthHeader this env urlObj method = Ok header ->
  exists fields,
    read_header header = Some fields
    /\ forall k, In k protocol_names ->
                 exists ev,
                   encodeRFC3986 (obj_get (allParams this env urlObj) k) = Ok ev
                   /\ In (k, ev) fields.
Proof.
  intros Hq. unfold generateOAuthHeader. intros H. bind_inv H.
  apply Ok_inj in H. subst header.
  unfold headerItems in E2. bind_inv E2. apply Ok_inj in E2. subst r2.
  eexists. split.
  - apply (read_header_render (js "realm", r3)
             [ (js "oauth_consumer_key", r4);
               (js "oauth_nonce", r5);
               (js "oauth_signature", r6);
               (js "oauth_signature_method", js "HMAC-SHA256");
               (js "oauth_timestamp", r7);
               (js "oauth_token", r8);
               (js "oauth_version", js "1.0") ]).
    repeat match goal with
           | |- Forall _ (_ :: _) => apply Forall_cons
           | |- Forall _ [] => apply Forall_nil
           end;
      (split; [reflexivity|]); cbn [snd];
      try (eapply escaped_field_value; eassumption); reflexivity.
  - intros k Hk.
    assert (Hget : obj_get (allParams this env urlObj) k
                   = obj_get (oauthParams this env) k).
    { rewrite allParams_get by now apply protocol_name_unreserved.
      now rewrite (Hq k Hk). }
    rewrite Hget. clear Hget Hq.
    cbn [protocol_names In] in Hk.
    destruct Hk as [<-|[<-|[<-|[<-|[<-|[<-|[]]]]]]].
    + exists r4. split; [exact E4|]. cbn [In]. tauto.
    + exists r5. split; [exact E5|]. cbn [In]. tauto.
    + exists (js "HMAC-SHA256"). split; [vm_compute; reflexivity|].
      cbn [In]. tauto.
    + exists r7. split; [exact E7|]. cbn [In]. tauto.
    + exists r8. split; [exact E8|]. cbn [In]. tauto.
    + exists (js "1.0"). split; [vm_compute; reflexivity|]. cbn [In]. tauto.
Qed.

Lemma header_carries_signed_values_witness :
  exists header,
    generateOAuthHeader Sample.this Sample.env Sample.url (js "POST") = Ok header
    /\ exists fields,
      read_header header = Some fields
      /\ forall k, In k protocol_names ->
                   exists ev,
                     encodeRFC3986
                       (obj_get (allParams Sample.this Sample.env Sample.url) k)
                     = Ok ev
                     /\ In (k, ev) fields.
Proof.
  eexists. split; [vm_compute; reflexivity|].
  apply (header_carries_signed_values Sample.this Sample.env Sample.url (js "POST")).
  - intros k Hk. cbn [protocol_names In] in Hk.
    repeat (destruct Hk as [<-|Hk]; [reflexivity|]). contradiction.
  - vm_compute. reflexivity.
Defined.

(* ================================================================== *)
(** ** Reading an encoded text back *)

Lemma unescape_octets (bs : list N) :
  Forall (fun b => b < 256) bs -> unescape (percent_encode_octets bs) = bs.
Proof.
  induction 1 as [|b bs Hb _ IH]; [reflexivity|].
  change (percent_encode_octets (b :: bs))
    with ((if unreserved b then [b] else pct_escape b)
            ++ percent_encode_octets bs).
  destruct (unreserved b) eqn:Hu.
  - cbn [app unescape].
    destruct (N.eqb_spec b 37) as [->|_]; [discriminate Hu|]. now rewrite IH.
  - destruct (pct_escape_value b Hb) as (h & l & -> & _ & _ & Hv).
    cbn [app unescape]. change (37 =? 37) with true. cbv iota.
    now rewrite IH, Hv.
Qed.

Lemma lor_plus (k : N) (n : nat) (x : N) :
  forallb (fun x => N.lor k x =? k + x) (map N.of_nat (seq 0 n)) = true ->
  x < N.of_nat n -> N.lor k x = k + x.
Proof.
  intros H Hx. apply N.eqb_eq. revert x Hx.
  now apply (forall_below (fun x => N.lor k x =? k + x)).
Qed.

Lemma lor_plus_80 (x : N) : x < 64 -> N.lor 0x80 x = 0x80 + x.
Proof. apply (lor_plus 0x80 64). vm_compute. reflexivity. Qed.

Lemma lor_plus_C0 (x : N) : x < 32 -> N.lor 0xC0 x = 0xC0 + x.
Proof. apply (lor_plus 0xC0 32). vm_compute. reflexivity. Qed.

Lemma lor_plus_E0 (x : N) : x < 16 -> N.lor 0xE0 x = 0xE0 + x.
Proof. apply (lor_plus 0xE0 16). vm_compute. reflexivity. Qed.

Lemma lor_plus_F0 (x : N) : x < 8 -> N.lor 0xF0 x = 0xF0 + x.
Proof. apply (lor_plus 0xF0 8). vm_compute. reflexivity. Qed.

(** The six low bits of [x], as a remainder; the bits above, as a
    quotient. *)
Lemma land_63_mod (x : N) : N.land x 0x3F = x mod 64.
Proof. change 0x3F with (N.ones 6). apply N.land_ones. Qed.

Lemma shiftr_div (x k : N) : N.shiftr x k = x / 2 ^ k.
Proof. apply N.shiftr_div_pow2. Qed.

Lemma continuation_octet (x : N) :
  N.lor 0x80 (N.land x 0x3F) = 0x80 + x mod 64.
Proof.
  rewrite land_63_mod. apply lor_plus_80. apply N.mod_lt. discriminate.
Qed.

(** The decoder reads the octets of a code point back. *)
Lemma utf8_decode_octets (cp : N) (rest : list N) :
  cp < 0x110000 ->
  utf8_decode (utf8_octets cp ++ rest) = cp :: utf8_decode rest.
Proof.
  intros Hcp. unfold utf8_octets.
  destruct (N.ltb_spec cp 0x80) as [H1|H1].
  - cbn [app utf8_decode]. now rewrite (proj2 (N.ltb_lt _ _) H1).
  - destruct (N.ltb_spec cp 0x800) as [H2|H2];
      [|destruct (N.ltb_spec cp 0x10000) as [H3|H3]];
      rewrite ?continuation_octet, !shiftr_div.
    + assert (Hq : cp / 2 ^ 6 < 32)
        by (apply N.Div0.div_lt_upper_bound; simpl; lia).
      rewrite lor_plus_C0 by assumption.
      pose proof (N.div_mod cp 64 ltac:(discriminate)) as Hdm.
      pose proof (N.mod_lt cp 64 ltac:(discriminate)) as Hm.
      change (2 ^ 6) with 64 in *.
      revert Hdm Hm Hq. generalize (cp mod 64) as r. generalize (cp / 64) as q.
      intros q r Hdm Hm Hq.
      cbn [app utf8_decode].
      destruct (N.ltb_spec (0xC0 + q) 0x80); [lia|].
      destruct (N.ltb_spec (0xC0 + q) 0xE0); [|lia].
      f_equal. lia.
    + assert (Hq : cp / 2 ^ 12 < 16)
        by (apply N.Div0.div_lt_upper_bound; simpl; lia).
      rewrite lor_plus_E0 by assumption.
      change (2 ^ 12) with (64 * 64) in *. change (2 ^ 6) with 64 in *.
      rewrite <- N.Div0.div_div in *.
      pose proof (N.div_mod cp 64 ltac:(discriminate)) as Hdm.
      pose proof (N.mod_lt cp 64 ltac:(discriminate)) as Hm.
      pose proof (N.div_mod (cp / 64) 64 ltac:(discriminate)) as Hdm'.
      pose proof (N.mod_lt (cp / 64) 64 ltac:(discriminate)) as Hm'.
      revert Hdm Hm Hdm' Hm' Hq.
      generalize (cp mod 64) as r. generalize ((cp / 64) mod 64) as r'.
      generalize (cp / 64 / 64) as q'. generalize (cp / 64) as q.
      intros q q' r' r Hdm Hm Hdm' Hm' Hq.
      cbn [app utf8_decode].
      destruct (N.ltb_spec (0xE0 + q') 0x80); [lia|].
      destruct (N.ltb_spec (0xE0 + q') 0xE0); [lia|].
      destruct (N.ltb_spec (0xE0 + q') 0xF0); [|lia].
      f_equal. lia.
    + assert (Hq : cp / 2 ^ 18 < 8)
        by (apply N.Div0.div_lt_upper_bound; simpl; lia).
      rewrite lor_plus_F0 by assumption.
      change (2 ^ 18) with (64 * 64 * 64) in *.
      change (2 ^ 12) with (64 * 64) in *. change (2 ^ 6) with 64 in *.
      rewrite <- !N.Div0.div_div in *.
      pose proof (N.div_mod cp 64 ltac:(discriminate)) as Hdm.
      pose proof (N.mod_lt cp 64 ltac:(discriminate)) as Hm.
      pose proof (N.div_mod (cp / 64) 64 ltac:(discriminate)) as Hdm'.
      pose proof (N.mod_lt (cp / 64) 64 ltac:(discriminate)) as Hm'.
      pose proof (N.div_mod (cp / 64 / 64) 64 ltac:(discriminate)) as Hdm''.
      pose proof (N.mod_lt (cp / 64 / 64) 64 ltac:(discriminate)) as Hm''.
      revert Hdm Hm Hdm' Hm' Hdm'' Hm'' Hq.
      generalize (cp mod 64) as r. generalize ((cp / 64) mod 64) as r'.
      generalize ((cp / 64 / 64) mod 64) as r''.
      generalize (cp / 64 / 64 / 64) as q''.
      generalize (cp / 64 / 64) as q'. generalize (cp / 64) as q.
      intros q q' q'' r'' r' r Hdm Hm Hdm' Hm' Hdm'' Hm'' Hq.
      cbn [app utf8_decode].
      destruct (N.ltb_spec (0xF0 + q'') 0x80); [lia|].
      destruct (N.ltb_spec (0xF0 + q'') 0xE0); [lia|].
      destruct (N.ltb_spec (0xF0 + q'') 0xF0); [lia|].
      f_equal. lia.
Qed.

Lemma utf8_octets_bound (cp : N) :
  cp < 0x110000 -> Forall (fun o => o < 256) (utf8_octets cp).
Proof.
  intros Hcp. destruct (N.lt_ge_cases cp 128) as [H|H].
  - unfold utf8_octets. rewrite (proj2 (N.ltb_lt _ _) H).
    constructor; [lia|constructor].
  - eapply Forall_impl; [|now apply utf8_octets_high].
    intros o [_ Ho]. exact Ho.
Qed.

Lemma utf8_decode_code_points (cps : list N) :
  Forall (fun cp => cp < 0x110000) cps ->
  Forall (fun o => o < 256) (flat_map utf8_octets cps)
  /\ utf8_decode (flat_map utf8_octets cps) = cps.
Proof.
  induction 1 as [|cp cps Hcp _ [IH1 IH2]]; [split; [constructor|reflexivity]|].
  cbn [flat_map]. split.
  - apply Forall_app. split; [now apply utf8_octets_bound|assumption].
  - rewrite utf8_decode_octets by assumption. now rewrite IH2.
Qed.

(** The code points of a string are code points, and their UTF-16 form
    is the string. *)
Lemma code_points_units (n : nat) :
  forall s cps, (length s <= n)%nat -> wf_string s = true ->
                code_points s = Some cps ->
                Forall (fun cp => cp < 0x110000) cps
                /\ flat_map utf16_units cps = s.
Proof.
  induction n as [|n IH]; intros [|c rest] cps Hlen Hwf Hcps;
    simpl in Hlen; try lia;
    try (injection Hcps as <-; split; [constructor|reflexivity]).
  cbn [wf_string forallb] in Hwf. apply andb_true_iff in Hwf as [Hc Hrest].
  apply N.ltb_lt in Hc. cbn [code_points] in Hcps.
  destruct (isLeadingSurrogate c) eqn:Hl.
  - destruct rest as [|d rest']; [discriminate|].
    destruct (isTrailingSurrogate d) eqn:Ht; [|discriminate].
    destruct (code_points rest') as [cps'|] eqn:E; [|discriminate].
    injection Hcps as <-.
    cbn [forallb] in Hrest. apply andb_true_iff in Hrest as [_ Hrest'].
    destruct (IH rest' cps' ltac:(simpl in Hlen; lia) Hrest' E) as [IH1 IH2].
    pose proof (surrogate_pair_range c d Hl Ht) as [Hlo Hhi].
    split; [constructor; assumption|].
    cbn [flat_map]. rewrite IH2. unfold utf16_units.
    destruct (N.ltb_spec (UTF16SurrogatePairToCodePoint c d) 0x10000); [lia|].
    unfold isLeadingSurrogate in Hl. unfold isTrailingSurrogate in Ht.
    apply andb_true_iff in Hl as [Hl1 Hl2]. apply andb_true_iff in Ht as [Ht1 Ht2].
    apply N.leb_le in Hl1, Hl2, Ht1, Ht2.
    unfold UTF16SurrogatePairToCodePoint.
    replace ((c - 0xD800) * 0x400 + (d - 0xDC00) + 0x10000 - 0x10000)
      with ((d - 0xDC00) + (c - 0xD800) * 0x400) by lia.
    rewrite N.div_add by discriminate. rewrite N.Div0.mod_add.
    rewrite N.div_small by lia. rewrite N.mod_small by lia.
    cbn [app]. f_equal; [lia|]. f_equal. lia.
  - destruct (isTrailingSurrogate c); [discriminate|].
    destruct (code_points rest) as [cps'|] eqn:E; [|discriminate].
    injection Hcps as <-.
    destruct (IH rest cps' ltac:(lia) Hrest E) as [IH1 IH2].
    split; [constructor; [lia|assumption]|].
    cbn [flat_map]. rewrite IH2. unfold utf16_units.
    now rewrite (proj2 (N.ltb_lt _ _) Hc).
Qed.

(** The reader undoes the encoder. *)
Lemma decode_encode (s r : jsstring) :
  wf_string s = true -> encodeRFC3986 (JString s) = Ok r -> decodeRFC3986 r = s.
Proof.
  intros Hwf H. rewrite encodeRFC3986_percent_encode in H by assumption.
  unfold percent_encode, utf8_of_string in H.
  destruct (code_points s) as [cps|] eqn:E; [|discriminate H].
  cbn [option_map] in H. apply Ok_inj in H. subst r.
  destruct (code_points_units (length s) s cps (le_n _) Hwf E) as [Hcps Hs].
  destruct (utf8_decode_code_points cps Hcps) as [Hoct Hdec].
  unfold decodeRFC3986. now rewrite unescape_octets, Hdec.
Qed.

(** X9.  The encoder loses nothing: a reader that turns every [%XX]
    into its octet, reads the octets as UTF-8 and writes UTF-16 gets the
    string back from its encoded text.  Two different strings therefore
    never have the same encoded text, in the parameter string, the base
    string, the signing key or the header. *)
Theorem encodeRFC3986_decodes (s r : jsstring) :
  wf_string s = true ->
  encodeRFC3986 (JString s) = Ok r ->
  decodeRFC3986 r = s
  /\ forall s', wf_string s' = true -> encodeRFC3986 (JString s') = Ok r ->
                s' = s.
Proof.
  intros Hwf H. split; [now apply decode_encode|].
  intros s' Hwf' H'.
  rewrite <- (decode_encode s r Hwf H). symmetry. now apply decode_encode.
Qed.

Lemma encodeRFC3986_decodes_witness :
  exists r,
    encodeRFC3986 (JString Sample.text) = Ok r
    /\ decodeRFC3986 r = Sample.text
    /\ forall s', wf_string s' = true -> encodeRFC3986 (JString s') = Ok r ->
                  s' = Sample.text.
Proof.
  eexists. split; [vm_compute; reflexivity|].
  apply (encodeRFC3986_decodes Sample.text); vm_compute; reflexivity.
Defined.

Lemma escaped_char_ASCII (r : jsstring) :
  forallb escaped_char r = true -> isASCII r = true.
Proof.
  induction r as [|c r IH]; [reflexivity|].
  cbn [forallb isASCII]. intros H. apply andb_true_iff in H as [Hc Hr].
  fold (isASCII r). rewrite (IH Hr), andb_true_r.
  apply N.ltb_lt. destruct (N.lt_ge_cases c 128) as [Hlt|Hge]; [assumption|].
  unfold escaped_char in Hc. rewrite unreserved_above in Hc by assumption.
  cbn [orb] in Hc. apply N.eqb_eq in Hc. lia.
Qed.

Lemma isASCII_wf (s : jsstring) : isASCII s = true -> wf_string s = true.
Proof.
  unfold isASCII, wf_string. rewrite !forallb_forall. intros H c Hc.
  specialize (H c Hc). apply N.ltb_lt in H. apply N.ltb_lt. lia.
Qed.

Lemma mapM_Forall2 {A B} (f : A -> result B) (l : list A) :
  forall ys, mapM f l = Ok ys -> Forall2 (fun x y => f x = Ok y) l ys.
Proof.
  induction l as [|x l IH]; intros ys H; simpl in H.
  - injection H as <-. constructor.
  - bind_inv H. injection H as <-. constructor; [assumption|now apply IH].
Qed.

(** X10.  The signed text determines the request.  From the signature
    base string a reader gets back, by cutting at [&] and decoding, the
    method, the address without its query, and the parameter string; and
    from the parameter string, by cutting at [&] and [=] and decoding,
    every name of the object signed with the text of its value, in sorted
    order.  (The strings are taken as sequences of 16-bit code units, and
    the method without [&].) *)
Theorem baseString_reads_back this env urlObj (method p b : jsstring) :
  lacks 38 method = true ->
  wf_string (baseUrl urlObj) = true ->
  (forall k, In k (Object_keys (allParams this env urlObj)) ->
             wf_string k = true
             /\ wf_string (ToString (obj_get (allParams this env urlObj) k))
                = true) ->
  paramString (allParams this env urlObj) = Ok p ->
  baseString method (baseUrl urlObj) p = Ok b ->
  exists u p',
    split 38 b = [method; u; p']
    /\ decodeRFC3986 u = baseUrl urlObj
    /\ decodeRFC3986 p' = p
    /\ map (fun item => map decodeRFC3986 (split 61 item)) (split 38 p)
       = map (fun k => [k; ToString (obj_get (allParams this env urlObj) k)])
             (Array_sort (Object_keys (allParams this env urlObj))).
Proof.
  intros Hm Hurl Hwf Hp Hb.
  rewrite paramString_pairs in Hp. bind_inv Hp. apply Ok_inj in Hp.
  rename r into pairs.
  assert (Hascii : isASCII p = true).
  { subst p. apply isASCII_join; [reflexivity|].
    eapply Forall_forall. intros item Hitem.
    apply in_map_iff in Hitem as [[k v] [<- Hin]].
    pose proof (mapM_Forall _ (fun q => forallb escaped_char (fst q) = true
                                        /\ forallb escaped_char (snd q) = true)
                  _ (fun kv q => encodePair_escaped kv q) _ E) as Hesc.
    rewrite Forall_forall in Hesc. destruct (Hesc _ Hin) as [Hk Hv].
    unfold renderPair. cbn [fst snd] in *.
    rewrite !isASCII_app.
    now rewrite (escaped_char_ASCII k Hk), (escaped_char_ASCII v Hv). }
  unfold baseString in Hb. bind_inv Hb. apply Ok_inj in Hb. subst b.
  exists r, r0. split_all.
  - change (js "&" ++ ?x) with (38 :: x).
    rewrite split_app by assumption.
    change (js "&" ++ ?x) with (38 :: x).
    rewrite split_app
      by (apply escaped_lacks; [reflexivity|eapply encodeRFC3986_escaped; eassumption]).
    now rewrite split_lacks
      by (apply escaped_lacks; [reflexivity|eapply encodeRFC3986_escaped; eassumption]).
  - now apply decode_encode.
  - apply decode_encode; [now apply isASCII_wf|assumption].
  - subst p. clear Hascii E0 E1. rewrite <- map_map with (f := split 61).
    rewrite (encoded_pairs_split this env urlObj pairs E).
    apply mapM_Forall2 in E. rewrite map_map.
    assert (Hkeys : forall k,
               In k (Array_sort (Object_keys (allParams this env urlObj))) ->
               wf_string k = true
               /\ wf_string (ToString (obj_get (allParams this env urlObj) k))
                  = true).
    { intros k Hk. apply Hwf.
      now apply (Permutation_in _ (Permutation_sym (Array_sort_perm _))). }
    revert pairs E Hkeys.
    generalize (Array_sort (Object_keys (allParams this env urlObj))) as keys.
    induction keys as [|k keys IH]; intros pairs E Hkeys;
      inversion E as [|? q ? pairs' Hq Hrest]; subst; [reflexivity|].
    cbn [map]. f_equal.
    + unfold encodePair in Hq. cbn [fst snd] in Hq. bind_inv Hq.
      apply Ok_inj in Hq. subst q. cbn [fst snd map].
      destruct (Hkeys k (or_introl eq_refl)) as [Hk Hv].
      rewrite (decode_encode k r1 Hk E0).
      now rewrite (decode_encode (ToString (obj_get (allParams this env urlObj) k))
                     r2 Hv E1).
    + apply IH; [assumption|]. intros k' Hk'. apply Hkeys. now right.
Qed.

Lemma baseString_reads_back_witness :
  exists p b,
    paramString (allParams Sample.this Sample.env Sample.url_mixed) = Ok p
    /\ baseString (js "POST") (baseUrl Sample.url_mixed) p = Ok b
    /\ exists u p',
      split 38 b = [js "POST"; u; p']
      /\ decodeRFC3986 u = baseUrl Sample.url_mixed
      /\ decodeRFC3986 p' = p
      /\ map (fun item => map decodeRFC3986 (split 61 item)) (split 38 p)
         = map (fun k =>
                  [k; ToString
                        (obj_get (allParams Sample.this Sample.env Sample.url_mixed)
                                 k)])
               (Array_sort
                  (Object_keys
                     (allParams Sample.this Sample.env Sample.url_mixed))).
Proof.
  eexists. eexists. split; [vm_compute; reflexivity|].
  split; [vm_compute; reflexivity|].
  apply (baseString_reads_back Sample.this Sample.env Sample.url_mixed (js "POST")).
  - reflexivity.
  - reflexivity.
  - intros k Hk. vm_compute in Hk.
    repeat (destruct Hk as [<-|Hk]; [split; vm_compute; reflexivity|]).
    contradiction.
  - vm_compute. reflexivity.
  - vm_compute. reflexivity.
Defined.

(* ================================================================== *)
(** ** Further properties: the caller's constructor *)

(** X11.  [new DueDateLogAnalyzer()] fails with the message of the
    downloader, listing the missing ones of its six entries, when one of
    them is missing (variable unset or empty); with [Gemini API key is
    required] when the six are there and the key is missing; and returns
    otherwise.  The validation of the caller itself, which runs last,
    never throws: no message lists [geminiApiKey]. *)
Theorem analyzer_constructor_cases (process_env : jsstring -> option jsstring) :
  (filter (fun key =>
             negb (ToBoolean
                     (obj_get (DueDateLogAnalyzer.config_of process_env) key)))
          required <> [] ->
   DueDateLogAnalyzer.constructor process_env
   = Throw (Error
              (js "Missing required configuration: "
                 ++ join (js ", ")
                      (filter
                         (fun key =>
                            negb (ToBoolean
                                    (obj_get
                                       (DueDateLogAnalyzer.config_of process_env)
                                       key)))
                         required))))
  /\ (filter (fun key =>
                negb (ToBoolean
                        (obj_get (DueDateLogAnalyzer.config_of process_env) key)))
             required = [] ->
      (ToBoolean
         (DueDateLogAnalyzer.process_env_get process_env (js "GEMINI_API_KEY"))
       = false ->
       DueDateLogAnalyzer.constructor process_env
       = Throw (Error (js "Gemini API key is required")))
      /\ (ToBoolean
            (DueDateLogAnalyzer.process_env_get process_env (js "GEMINI_API_KEY"))
          = true ->
          DueDateLogAnalyzer.validateConfig
            (DueDateLogAnalyzer.config_of process_env) = Ok tt
          /\ DueDateLogAnalyzer.constructor process_env
             = Ok {| DueDateLogAnalyzer.config :=
                       DueDateLogAnalyzer.config_of process_env;
                     DueDateLogAnalyzer.netsuiteDownloader :=
                       {| config := DueDateLogAnalyzer.config_of process_env |};
                     DueDateLogAnalyzer.geminiAnalyzer :=
                       DueDateLogAnalyzer.process_env_get process_env
                         (js "GEMINI_API_KEY") |})).
Proof.
  assert (Hkey : obj_get (DueDateLogAnalyzer.config_of process_env)
                   (js "geminiApiKey")
                 = DueDateLogAnalyzer.process_env_get process_env
                     (js "GEMINI_API_KEY")) by reflexivity.
  unfold DueDateLogAnalyzer.constructor, constructor, validateConfig.
  rewrite Hkey.
  set (key := DueDateLogAnalyzer.process_env_get process_env (js "GEMINI_API_KEY"))
    in *.
  split.
  - intros Hmissing.
    destruct (filter _ required) as [|m missing]; [now elim Hmissing|].
    reflexivity.
  - intros Hnone. rewrite Hnone. cbn [length Nat.ltb Nat.leb bind].
    unfold GeminiAnalyzer.constructor.
    assert (Hown : ToBoolean key = true ->
                   DueDateLogAnalyzer.validateConfig
                     (DueDateLogAnalyzer.config_of process_env) = Ok tt).
    { intros Ht. unfold DueDateLogAnalyzer.validateConfig.
      change DueDateLogAnalyzer.required with (required ++ [js "geminiApiKey"]).
      rewrite filter_app, Hnone. cbn [filter app]. rewrite Hkey, Ht.
      reflexivity. }
    split; intros Ht.
    + rewrite Ht. reflexivity.
    + split; [now apply Hown|]. rewrite Ht. cbn [negb bind].
      rewrite (Hown Ht). reflexivity.
Qed.

(** With the token secret empty and the key of the analyzer unset, the
    message names the token secret only. *)
Example analyzer_constructor_sample :
  DueDateLogAnalyzer.constructor process_env_partial
  = Throw (Error (js "Missing required configuration: tokenSecret"))
  /\ DueDateLogAnalyzer.validateConfig
       (DueDateLogAnalyzer.config_of process_env_partial)
     = Throw (Error (js "Missing required configuration: tokenSecret, geminiApiKey"))
  /\ exists a, DueDateLogAnalyzer.constructor process_env_full = Ok a.
Proof. split_all; [vm_compute; reflexivity ..|eexists; vm_compute; reflexivity]. Qed.

(* ================================================================== *)
(** ** Further properties: the address [testAuth] asks *)

Lemma toLowerCase_app (x y : jsstring) :
  toLowerCase (x ++ y) = toLowerCase x ++ toLowerCase y.
Proof. apply map_app. Qed.

Lemma toLowerCase_lacks (x : jsstring) :
  lacks 95 x = true -> lacks 95 (toLowerCase x) = true.
Proof.
  induction x as [|c x IH]; [reflexivity|].
  cbn [lacks forallb toLowerCase map]. intros H.
  apply andb_true_iff in H as [Hc Hx].
  fold (toLowerCase x). fold (lacks 95 (toLowerCase x)).
  rewrite (IH Hx), andb_true_r.
  apply negb_true_iff, N.eqb_neq in Hc. apply negb_true_iff, N.eqb_neq.
  destruct ((65 <=? c) && (c <=? 90)) eqn:E; [|assumption].
  apply andb_true_iff in E as [E1 E2]. apply N.leb_le in E1, E2. lia.
Qed.

Lemma replace_lacks (pattern replacement : N) (x : jsstring) :
  lacks pattern x = true -> replace pattern replacement x = x.
Proof.
  induction x as [|c x IH]; [reflexivity|].
  cbn [lacks forallb replace]. intros H. apply andb_true_iff in H as [Hc Hx].
  apply negb_true_iff in Hc. rewrite Hc. now rewrite (IH Hx).
Qed.

Lemma replace_first (pattern replacement : N) (x y : jsstring) :
  lacks pattern x = true ->
  replace pattern replacement (x ++ pattern :: y) = x ++ replacement :: y.
Proof.
  induction x as [|c x IH].
  - intros _. cbn [app replace]. now rewrite N.eqb_refl.
  - cbn [lacks forallb app replace]. intros H.
    apply andb_true_iff in H as [Hc Hx].
    apply negb_true_iff in Hc. rewrite Hc. now rewrite (IH Hx).
Qed.

(** X12.  For an ASCII account id, [testAuth] asks the host made of the
    id in lower case with its first underscore, and only that one, turned
    into a hyphen: an id without underscore is only lower-cased, and a
    second underscore stays in the host name. *)
Theorem testAuth_url_host this (accountId : jsstring) :
  obj_get (config this) (js "accountId") = JString accountId ->
  isASCII accountId = true ->
  (lacks 95 accountId = true ->
   testAuth_url this
   = Normal (js "https://" ++ toLowerCase accountId
               ++ js ".suitetalk.api.netsuite.com/services/rest/record/v1/metadata-catalog"))
  /\ (forall a b,
         accountId = a ++ js "_" ++ b -> lacks 95 a = true ->
         testAuth_url this
         = Normal (js "https://" ++ toLowerCase a ++ js "-" ++ toLowerCase b
                     ++ js ".suitetalk.api.netsuite.com/services/rest/record/v1/metadata-catalog")).
Proof.
  intros Hid _. unfold testAuth_url. rewrite Hid. split.
  - intros Hl. rewrite replace_lacks by now apply toLowerCase_lacks.
    now rewrite <- !app_assoc.
  - intros a b -> Hl. rewrite toLowerCase_app.
    change (toLowerCase (js "_" ++ b)) with (95 :: toLowerCase b).
    rewrite replace_first by now apply toLowerCase_lacks.
    now rewrite <- !app_assoc.
Qed.

Lemma testAuth_url_host_witness :
  testAuth_url More.test_account
  = Normal (js "https://1234567-sb1_rp.suitetalk.api.netsuite.com/services/rest/record/v1/metadata-catalog").
Proof.
  exact (proj2 (testAuth_url_host More.test_account (js "1234567_SB1_RP")
                  eq_refl eq_refl)
               (js "1234567") (js "SB1_RP") eq_refl eq_refl).
Defined.

(* ================================================================== *)
(** ** Further properties: the checks on the response, and the caller *)

Lemma Get_truthy (v : value) (name : jsstring) :
  truthy v = true -> exists w, Get v name = Normal w.
Proof.
  destruct v; try discriminate; intros _; cbn [Get];
    try destruct (str_eqb name (js "length")); eauto.
Qed.

Lemma Get_plain (v : value) (name : jsstring) :
  is_plain v = true -> str_eqb name (js "length") = false ->
  Get v name = Normal VUndefined.
Proof.
  destruct v; try discriminate; intros _ Hn; cbn [Get]; now rewrite ?Hn.
Qed.

(** A truthy member [error] ends the call with an exception. *)
Lemma checkResponse_error (response error : value) :
  Get response (js "error") = Normal error -> truthy error = true ->
  exists e, checkResponse response = Abrupt e.
Proof.
  intros HG Ht. unfold checkResponse. rewrite HG. cbn [cbind]. rewrite Ht.
  destruct (Get_truthy error (js "code") Ht) as [code ->].
  destruct (Get_truthy error (js "message") Ht) as [message ->].
  cbn [cbind]. unfold throw_Error.
  destruct (strict_equals_string code (js "INVALID_LOGIN_ATTEMPT")).
  - destruct (ToStringV message); cbn [cbind]; eauto.
  - destruct (ToStringV code); cbn [cbind]; [|eauto].
    destruct (ToStringV message); cbn [cbind]; eauto.
Qed.

(** X13.  The checks accept a response exactly when it is an object
    whose member [success] is the boolean [true] and whose member [error]
    is absent or falsy; every other response ends the download with an
    exception, before any file is written. *)
Theorem checkResponse_accepts (response : value) :
  checkResponse response = Normal tt
  <-> exists members,
      response = VObject members
      /\ truthy (member members (js "error")) = false
      /\ member members (js "success") = VBoolean true.
Proof.
  split.
  - intros H. destruct response as [| |b|n|s|items|members];
      try (cbn in H; discriminate H).
    + destruct b; cbn in H; discriminate H.
    + unfold checkResponse in H. cbn [Get cbind truthy] in H.
      destruct (n =? 0)%Z; cbn in H; discriminate H.
    + destruct s; cbn in H; discriminate H.
    + exists members. split; [reflexivity|].
      destruct (truthy (member members (js "error"))) eqn:Ht.
      * destruct (checkResponse_error (VObject members) _ eq_refl Ht) as [e He].
        rewrite He in H. discriminate H.
      * split; [reflexivity|].
        unfold checkResponse in H. cbn [Get cbind] in H. rewrite Ht in H.
        cbn [truthy negb] in H. unfold throw_Error in H.
        destruct (member members (js "success")) as [| |[|]| | | |];
          cbn [strict_equals_boolean Bool.eqb negb] in H;
          try discriminate H; [reflexivity|].
        destruct (ToStringV _); discriminate H.
  - intros [members [-> [Ht Hs]]]. unfold checkResponse. cbn [Get cbind].
    rewrite Ht, Hs. reflexivity.
Qed.

(** X14.  A response that is not an object: [null] stops the checks with
    a TypeError, not with a message of their own; a falsy boolean, Number
    or string is reported as [No response received]; a truthy one, and
    any array, as [Unexpected response format]. *)
Theorem checkResponse_not_object (response : value) :
  is_plain response = true ->
  checkResponse VNull = Abrupt TypeError
  /\ checkResponse response
     = throw_Error
         (if truthy response
          then js "NetSuite RESTlet error: Unexpected response format"
          else js "NetSuite RESTlet error: No response received").
Proof.
  intros Hp. split; [reflexivity|].
  unfold checkResponse.
  rewrite !(Get_plain response) by (assumption || reflexivity).
  cbn [cbind truthy]. destruct (truthy response); reflexivity.
Qed.

Lemma checkResponse_not_object_witness :
  checkResponse VNull = Abrupt TypeError
  /\ checkResponse (VNumber 0)
     = throw_Error
         (if truthy (VNumber 0)
          then js "NetSuite RESTlet error: Unexpected response format"
          else js "NetSuite RESTlet error: No response received").
Proof. apply checkResponse_not_object. reflexivity. Defined.

(** X15.  The text of a member [error] never reaches the message.  When
    the member is truthy and not an object (a string, say), the exception
    is [NetSuite API error: undefined - undefined], whatever the text and
    whatever [success] and [message] hold; when it is falsy and [success]
    is [false], the message shows the member [message] if truthy and
    [Unknown error] otherwise. *)
Theorem error_text_not_reported (members : list (jsstring * value)) :
  is_object (member members (js "error")) = false ->
  (truthy (member members (js "error")) = true ->
   checkResponse (VObject members)
   = throw_Error (js "NetSuite API error: undefined - undefined"))
  /\ (truthy (member members (js "error")) = false ->
      member members (js "success") = VBoolean false ->
      checkResponse (VObject members)
      = (text <~ ToStringV (if truthy (member members (js "message"))
                            then member members (js "message")
                            else VString (js "Unknown error")) ;;
         throw_Error (js "NetSuite RESTlet error: " ++ text))).
Proof.
  intros Ho. split.
  - intros Ht. unfold checkResponse. cbn [Get cbind]. rewrite Ht.
    assert (Hp : is_plain (member members (js "error")) = true)
      by (destruct (member members (js "error")); try discriminate; reflexivity).
    rewrite !(Get_plain _ _ Hp) by reflexivity. reflexivity.
  - intros Ht Hs. unfold checkResponse. cbn [Get cbind]. rewrite Ht, Hs.
    cbn [truthy negb strict_equals_boolean Bool.eqb]. reflexivity.
Qed.

Lemma error_text_not_reported_witness :
  checkResponse response_error_text
  = throw_Error (js "NetSuite API error: undefined - undefined").
Proof.
  apply (proj1 (error_text_not_reported
                  [ (js "success", VBoolean false);
                    (js "error", VString (js "Search limit exceeded")) ]
                  eq_refl)).
  reflexivity.
Defined.

Lemma Get_named (logData : value) (name : jsstring) :
  named logData = true -> exists v, Get logData name = Normal v.
Proof.
  unfold named. destruct logData; try discriminate; intros _; cbn [Get];
    try destruct (str_eqb name (js "length")); eauto.
Qed.

Lemma ToStringV_primitive (v : value) :
  is_primitive v = true -> exists s, ToStringV v = Normal s.
Proof. destruct v; try discriminate; intros _; cbn [ToStringV]; eauto. Qed.

Lemma fileName_named today (i : nat) (logData : value) :
  named logData = true ->
  exists name, fileName today i logData = Normal (VString name).
Proof.
  intros Hu. unfold fileName. unfold named in Hu.
  destruct (Get logData (js "name")) as [v|]; [|discriminate].
  cbn [cbind]. unfold or_else.
  destruct v; cbn [truthy negb] in *; try discriminate; eauto.
  - destruct b; [discriminate|eauto].
  - destruct (n =? 0)%Z; cbn [negb] in *; [eauto|discriminate].
  - destruct s; eauto.
Qed.

(** A round on a usable entry asks one write, of the content of the
    entry or the empty string, under the name of the entry or the name
    of its position, and pushes a record with this name and path. *)
Lemma processLogData_usable path_join logsDir today (i : nat) (logData : value) :
  usable logData = true ->
  exists name content' record,
    fileName today i logData = Normal (VString name)
    /\ Get logData (js "content") = Normal content'
    /\ processLogData path_join logsDir today i logData
       = ([(path_join logsDir name, or_else content' (VString []))],
          Normal record)
    /\ Get record (js "name") = Normal (VString name)
    /\ Get record (js "path") = Normal (VString (path_join logsDir name))
    /\ Get record (js "content") = Normal VUndefined
    /\ exists type,
        Get logData (js "type") = Normal type
        /\ Get record (js "type") = Normal (or_else type (VString (js "duedate"))).
Proof.
  intros Hu. unfold usable in Hu.
  apply andb_true_iff in Hu as [Hu Hsize]. apply andb_true_iff in Hu as [Hu Hcontent].
  destruct (fileName_named today i logData Hu) as [name Hname].
  destruct (Get logData (js "content")) as [content'|] eqn:Hc; [|discriminate].
  destruct (Get logData (js "size")) as [size|] eqn:Hs; [|discriminate].
  destruct (Get_named logData (js "type") Hu) as [type Ht].
  destruct (Get_named logData (js "modified") Hu) as [modified Hm].
  destruct (Get_named logData (js "fileId") Hu) as [fileId Hf].
  assert (Hl : exists n, Get (or_else content' (VString [])) (js "length")
                         = Normal (VNumber n)).
  { unfold or_else.
    destruct content'; cbn [truthy negb] in *; try discriminate;
      try (exists 0%Z; reflexivity).
    - destruct b; [discriminate|exists 0%Z; reflexivity].
    - destruct (n =? 0)%Z; cbn [negb] in *; [exists 0%Z; reflexivity|discriminate].
    - destruct s; eexists; reflexivity. }
  destruct Hl as [n Hl].
  assert (Htext : exists s, ToStringV (or_else size (VNumber n)) = Normal s).
  { apply ToStringV_primitive. unfold or_else. now destruct (truthy size). }
  destruct Htext as [s Htext].
  exists name, content'. eexists. split; [exact Hname|]. split; [reflexivity|].
  unfold processLogData.
  rewrite Hname, Hc, Ht, Hs. cbn [cbind]. rewrite Hl. cbn [cbind].
  rewrite Hm, Hf. cbn [cbind]. rewrite Htext. cbn [cbind].
  split_all; try reflexivity.
  exists type. split; reflexivity.
Qed.

Lemma processLogFiles_usable path_join logsDir today (entries : list value) :
  Forall (fun logData => usable logData = true) entries ->
  forall i0 writes0 logFiles0,
  exists writes logFiles,
    processLogFiles path_join logsDir today i0 entries writes0 logFiles0
    = (writes0 ++ writes, Normal (logFiles0 ++ logFiles))
    /\ length writes = length entries
    /\ length logFiles = length entries
    /\ forall i logData,
        nth_error entries i = Some logData ->
        exists name content' record,
          fileName today (i0 + i) logData = Normal (VString name)
          /\ Get logData (js "content") = Normal content'
          /\ nth_error writes i
             = Some (path_join logsDir name, or_else content' (VString []))
          /\ nth_error logFiles i = Some record
          /\ Get record (js "name") = Normal (VString name)
          /\ Get record (js "path") = Normal (VString (path_join logsDir name))
          /\ Get record (js "content") = Normal VUndefined
          /\ exists type,
              Get logData (js "type") = Normal type
              /\ Get record (js "type")
                 = Normal (or_else type (VString (js "duedate"))).
Proof.
  induction 1 as [|logData entries Hu _ IH]; intros i0 writes0 logFiles0.
  - exists [], []. rewrite !app_nil_r. split_all; try reflexivity.
    intros [|i] logData H; discriminate H.
  - destruct (processLogData_usable path_join logsDir today i0 logData Hu)
      as (name & content' & record & Hname & Hc & Hp & Hrn & Hrp & Hrc & Hrt).
    destruct (IH (S i0) (writes0 ++ [(path_join logsDir name,
                                      or_else content' (VString []))])
                 (logFiles0 ++ [record]))
      as (writes & logFiles & Hloop & Hlw & Hll & Hnth).
    exists ((path_join logsDir name, or_else content' (VString [])) :: writes),
           (record :: logFiles).
    split_all.
    + cbn [processLogFiles]. rewrite Hp, Hloop. now rewrite <- !app_assoc.
    + cbn [length]. now rewrite Hlw.
    + cbn [length]. now rewrite Hll.
    + intros [|i] logData' Hi; cbn [nth_error] in *.
      * injection Hi as <-. rewrite Nat.add_0_r.
        exists name, content', record. now split_all.
      * destruct (Hnth i logData' Hi)
          as (name' & c' & record' & H1 & H2 & H3 & H4 & H5 & H6 & H7 & H8).
        exists name', c', record'.
        replace (i0 + S i)%nat with (S i0 + i)%nat by lia. now split_all.
Qed.




(** The three entries on a known date: the files written and the names
    recorded. *)
Example processLogFiles_sample :
  exists logFiles,
    processLogFiles join_plain (js "/work/logs") (js "2025-01-31") 0
      MoreResponses.entries [] []
    = ([ (js "/work/logs/a.txt", VString (js "line"));
         (js "/work/logs/dueDateLogs-2025-01-31-2.txt", VString (js "other"));
         (js "/work/logs/dueDateLogs-2025-01-31-3.txt", VString []) ],
       Normal logFiles).
Proof. eexists. vm_compute. reflexivity. Qed.

(** X17.  The loop does not undo anything.  When an entry is [null] or
    has a name that is truthy and not a string (a Number, say), the call
    ends with a TypeError at that entry: the files of the usable entries
    before it have been written, its own file and those of the entries
    after it have not.  An entry whose size has no text (an object with
    a member [toString]) ends the call too, after its file was written. *)
Theorem processLogFiles_stops path_join logsDir today
    (good rest : list value) (bad : value) :
  Forall (fun logData => usable logData = true) good ->
  named bad = false ->
  (exists writes,
      processLogFiles path_join logsDir today 0 (good ++ bad :: rest) [] []
      = (writes, Abrupt TypeError)
      /\ length writes = length good)
  /\ exists writes,
      processLogFiles path_join logsDir today 0
        (good ++ entry_without_size_text :: rest) [] []
      = (writes, Abrupt TypeError)
      /\ length writes = S (length good).
Proof.
  intros Hgood Hbad.
  assert (Hb : forall i, processLogData path_join logsDir today i bad
                         = ([], Abrupt TypeError)).
  { intros i. unfold processLogData, fileName. unfold named in Hbad.
    destruct (Get bad (js "name")) as [v|e] eqn:Hv.
    - cbn [cbind]. unfold or_else.
      destruct v; cbn [truthy negb] in *; try discriminate; try reflexivity.
      + destruct b; [reflexivity|discriminate].
      + destruct (n =? 0)%Z; cbn [negb] in *; [discriminate|reflexivity].
    - destruct bad; cbn [Get] in Hv; try discriminate Hv;
        try (destruct (str_eqb (js "name") (js "length")); discriminate Hv);
        injection Hv as <-; reflexivity. }
  assert (G : forall entry written,
             (forall i, processLogData path_join logsDir today i entry
                        = (written, Abrupt TypeError)) ->
             forall i0 writes0 logFiles0,
             exists writes,
               processLogFiles path_join logsDir today i0 (good ++ entry :: rest)
                 writes0 logFiles0
               = (writes0 ++ writes, Abrupt TypeError)
               /\ length writes = (length good + length written)%nat).
  { intros entry written Hentry.
    induction Hgood as [|logData good Hu _ IH]; intros i0 writes0 logFiles0.
    - exists written. cbn [app processLogFiles]. rewrite Hentry. now split.
    - destruct (processLogData_usable path_join logsDir today i0 logData Hu)
        as (name & content' & record & _ & _ & Hp & _).
      destruct (IH (S i0) (writes0 ++ [(path_join logsDir name,
                                        or_else content' (VString []))])
                   (logFiles0 ++ [record])) as (writes & Hloop & Hlen).
      eexists (_ :: writes). cbn [app processLogFiles]. rewrite Hp, Hloop.
      rewrite <- app_assoc. split; [reflexivity|]. cbn [length]. now rewrite Hlen. }
  split.
  - destruct (G bad [] Hb 0%nat [] []) as (writes & Hloop & Hlen).
    exists writes. split; [exact Hloop|]. rewrite Hlen. cbn [length]. lia.
  - destruct (G entry_without_size_text
                [(path_join logsDir (js "b.txt"), VString [])]
                (fun i => eq_refl) 0%nat [] []) as (writes & Hloop & Hlen).
    exists writes. split; [exact Hloop|]. rewrite Hlen. cbn [length]. lia.
Qed.

Lemma processLogFiles_stops_witness :
  (exists writes,
      processLogFiles join_plain (js "/work/logs") (js "2025-01-31") 0
        (MoreResponses.entries ++ VNull :: MoreResponses.entries) [] []
      = (writes, Abrupt TypeError)
      /\ length writes = length MoreResponses.entries)
  /\ exists writes,
      processLogFiles join_plain (js "/work/logs") (js "2025-01-31") 0
        (MoreResponses.entries ++ entry_without_size_text
           :: MoreResponses.entries) [] []
      = (writes, Abrupt TypeError)
      /\ length writes = S (length MoreResponses.entries).
Proof.
  apply processLogFiles_stops; [repeat constructor|reflexivity].
Defined.

(** The download on three responses: one without files, one with two
    files, and one that passes the checks and stops at line 121, where
    its message has no text. *)
Example downloadTodaysDueDateLogs_sample :
  (exists result,
      downloadTodaysDueDateLogs join_plain (js "/work/logs") (js "2025-01-31")
        response_accepted
      = Some ([], Normal result))
  /\ (exists result,
         downloadTodaysDueDateLogs join_plain (js "/work/logs") (js "2025-01-31")
           response_two_files
         = Some ([ (js "/work/logs/a.txt", VString (js "line"));
                   (js "/work/logs/dueDateLogs-2025-01-31-2.txt",
                     VString (js "other")) ],
                 Normal result))
  /\ checkResponse response_message_without_text = Normal tt
  /\ downloadTodaysDueDateLogs join_plain (js "/work/logs") (js "2025-01-31")
       response_message_without_text
     = Some ([], Abrupt TypeError).
Proof.
  split_all; try (eexists; vm_compute; reflexivity); vm_compute; reflexivity.
Qed.

(** A round that succeeds has asked one write. *)
Lemma processLogData_normal path_join logsDir today (i : nat)
    (logData record : value) (written : list (jsstring * value)) :
  processLogData path_join logsDir today i logData = (written, Normal record) ->
  length written = 1%nat.
Proof.
  unfold processLogData.
  destruct (fileName today i logData) as [[| | | |name| |]|e];
    try (intros H; discriminate H).
  destruct (Get logData (js "content")) as [content'|e];
    [|intros H; discriminate H].
  intros H. injection H as <- _. reflexivity.
Qed.

(** A loop that succeeds has asked one write and pushed one record for
    every entry. *)
Lemma processLogFiles_normal path_join logsDir today (entries : list value) :
  forall i writes0 logFiles0 writes logFiles,
    processLogFiles path_join logsDir today i entries writes0 logFiles0
    = (writes, Normal logFiles) ->
    length writes = (length writes0 + length entries)%nat
    /\ length logFiles = (length logFiles0 + length entries)%nat.
Proof.
  induction entries as [|logData entries IH];
    intros i writes0 logFiles0 writes logFiles H; cbn [processLogFiles] in H.
  - injection H as <- <-. cbn [length]. lia.
  - destruct (processLogData path_join logsDir today i logData)
      as [written [record|e]] eqn:E; [|discriminate H].
    apply processLogData_normal in E.
    apply IH in H as [H1 H2]. rewrite H1, H2, !length_app, E.
    cbn [length]. lia.
Qed.

(** What a download that returns has returned. *)
Lemma downloadTodaysDueDateLogs_returns path_join logsDir today
    (response result : value) (writes : list (jsstring * value)) :
  downloadTodaysDueDateLogs path_join logsDir today response
  = Some (writes, Normal result) ->
  exists logFiles message,
    result = VObject [ (js "success", VBoolean true);
                       (js "logFiles", VArray logFiles);
                       (js "totalFiles", VNumber (Z.of_nat (length logFiles)));
                       (js "date", VString today);
                       (js "message", message) ]
    /\ length logFiles = length writes
    /\ checkResponse response = Normal tt
    /\ Get response (js "message") = Normal message
    /\ exists text, ToStringV message = Normal text.
Proof.
  unfold downloadTodaysDueDateLogs.
  destruct (checkResponse response) as [[]|e] eqn:Hc; cbn [cbind];
    [|intros H; discriminate H].
  destruct (Get response (js "message")) as [message|e]; cbn [cbind];
    [|intros H; discriminate H].
  destruct (ToStringV message) as [text|e] eqn:Ht; cbn [cbind];
    [|intros H; discriminate H].
  destruct (Get response (js "logFiles")) as [logFiles'|e]; cbn [cbind];
    [|intros H; discriminate H].
  destruct (entries_of logFiles') as [entries|]; [|intros H; discriminate H].
  destruct (processLogFiles path_join logsDir today 0 entries [] [])
    as [writes' [logFiles|e]] eqn:Hloop; intros H; [|discriminate H].
  injection H as <- <-.
  apply processLogFiles_normal in Hloop as [H1 H2]. cbn [length] in H1, H2.
  exists logFiles, message.
  split_all; [reflexivity|lia|reflexivity|reflexivity|now exists text].
Qed.

(** X18.  Whenever the download returns, the response has passed the
    checks, its message has been converted to text by the template
    literal of line 121 and is the message of the object returned; and
    the first step of the caller ends in its handler with a TypeError:
    the value returned is an object, which has neither a [length] nor a
    [forEach], so the report that no log was found is not written even
    when no file came, and no file reaches the analysis.  An array, as
    the caller expects, would lead to the report when empty; an exception
    of the download reaches the handler unchanged. *)
Theorem runDailyAnalysis_after_download path_join logsDir today
    (response result : value) (writes : list (jsstring * value)) :
  downloadTodaysDueDateLogs path_join logsDir today response
  = Some (writes, Normal result) ->
  checkResponse response = Normal tt
  /\ (exists message text,
         Get response (js "message") = Normal message
         /\ ToStringV message = Normal text
         /\ Get result (js "message") = Normal message)
  /\ runDailyAnalysis (Normal result) = createErrorReport TypeError
  /\ runDailyAnalysis (Normal (VArray [])) = createNoLogsReport
  /\ (forall e, runDailyAnalysis (Abrupt e) = createErrorReport e).
Proof.
  intros H.
  apply downloadTodaysDueDateLogs_returns in H
    as (logFiles & message & -> & _ & Hc & Hm & text & Ht).
  split_all; try reflexivity; [exact Hc|].
  exists message, text. split_all; [exact Hm|exact Ht|reflexivity].
Qed.

Lemma runDailyAnalysis_after_download_witness :
  exists writes result,
    downloadTodaysDueDateLogs join_plain (js "/work/logs") (js "2025-01-31")
      response_two_files
    = Some (writes, Normal result)
    /\ checkResponse response_two_files = Normal tt
    /\ (exists message text,
           Get response_two_files (js "message") = Normal message
           /\ ToStringV message = Normal text
           /\ Get result (js "message") = Normal message)
    /\ runDailyAnalysis (Normal result) = createErrorReport TypeError
    /\ runDailyAnalysis (Normal (VArray [])) = createNoLogsReport
    /\ (forall e, runDailyAnalysis (Abrupt e) = createErrorReport e).
Proof.
  eexists. eexists. split; [vm_compute; reflexivity|].
  eapply (runDailyAnalysis_after_download join_plain (js "/work/logs")
            (js "2025-01-31") response_two_files).
  vm_compute. reflexivity.
Defined.

(** X19.  The later caller of [part_004] does take the files out of the
    object: whenever the download returns (the message of the response
    has then been converted to text at line 121), its first step leads
    to the report that no log was found exactly when no record was
    pushed, that is when no file was written, and to its analysis of the
    records otherwise. *)
Theorem part_004_runDailyAnalysis_after_download path_join logsDir today
    (response result : value) (writes : list (jsstring * value)) :
  downloadTodaysDueDateLogs path_join logsDir today response
  = Some (writes, Normal result) ->
  exists logFiles message text,
    Get response (js "message") = Normal message
    /\ ToStringV message = Normal text
    /\ Get result (js "logFiles") = Normal (VArray logFiles)
    /\ length logFiles = length writes
    /\ part_004.runDailyAnalysis (Normal result)
       = match logFiles with
         | [] => createNoLogsReport
         | _ => analyzeLogFiles (VArray logFiles)
         end.
Proof.
  intros H.
  apply downloadTodaysDueDateLogs_returns in H
    as (logFiles & message & -> & Hlen & _ & Hm & text & Ht).
  exists logFiles, message, text.
  split_all; [exact Hm|exact Ht|reflexivity|exact Hlen|].
  unfold part_004.runDailyAnalysis.
  cbn [cbind Get member str_eqb N.eqb Pos.eqb andb js map list_ascii_of_string
         N_of_ascii N_of_digits].
  destruct logFiles as [|logFile logFiles]; [reflexivity|].
  change (member _ (js "logFiles")) with (VArray (logFile :: logFiles)).
  cbn [or_else truthy Get str_eqb cbind ToStringV strict_equals_number length].
  change (str_eqb (js "length") (js "length")) with true. cbv iota.
  cbn [cbind ToStringV strict_equals_number].
  destruct (Z.eqb_spec (Z.of_nat (S (length logFiles))) 0) as [E|_]; [lia|].
  reflexivity.
Qed.

Lemma part_004_runDailyAnalysis_after_download_witness :
  exists writes result logFiles message text,
    downloadTodaysDueDateLogs join_plain (js "/work/logs") (js "2025-01-31")
      response_two_files
    = Some (writes, Normal result)
    /\ Get response_two_files (js "message") = Normal message
    /\ ToStringV message = Normal text
    /\ Get result (js "logFiles") = Normal (VArray logFiles)
    /\ length logFiles = length writes
    /\ part_004.runDailyAnalysis (Normal result)
       = match logFiles with
         | [] => createNoLogsReport
         | _ => analyzeLogFiles (VArray logFiles)
         end.
Proof.
  eexists. eexists.
  destruct (part_004_runDailyAnalysis_after_download join_plain (js "/work/logs")
              (js "2025-01-31") response_two_files _ _
              ltac:(vm_compute; reflexivity))
    as (logFiles & message & text & Hm & Ht & H1 & H2 & H3).
  exists logFiles, message, text.
  split_all; [vm_compute; reflexivity|exact Hm|exact Ht|exact H1|exact H2|exact H3].
Defined.

(** X20.  The analysis of [part_004] never sees a line.  The records the
    download pushes carry the name, the path, the type, the size, the
    date and the id of a file, not its content; the callback reads the
    member [content] of a record, finds none, and counts the lines of the
    empty string.  So for every record of a response whose entries are
    usable (and have a type that is no array or object), the number of
    lines counted is zero, whatever was written to the file. *)
Theorem part_004_counts_no_line path_join logsDir today (entries : list value) :
  Forall (fun logData => analyzable logData = true) entries ->
  exists writes logFiles,
    processLogFiles path_join logsDir today 0 entries [] []
    = (writes, Normal logFiles)
    /\ length logFiles = length entries
    /\ forall logFile, In logFile logFiles -> part_004.lines logFile = Normal 0%Z.
Proof.
  intros H.
  assert (H' : Forall (fun logData => usable logData = true) entries).
  { eapply Forall_impl; [|exact H]. intros logData Hu.
    unfold analyzable in Hu. now apply andb_true_iff in Hu. }
  destruct (processLogFiles_usable path_join logsDir today entries H' 0 [] [])
    as (writes & logFiles & Hloop & _ & Hll & Hnth).
  exists writes, logFiles. split_all; try assumption.
  intros logFile Hin. apply In_nth_error in Hin as [i Hi].
  assert (Hlt : (i < length entries)%nat)
    by (rewrite <- Hll; apply nth_error_Some; congruence).
  destruct (nth_error entries i) as [logData|] eqn:He;
    [|apply nth_error_None in He; lia].
  destruct (Hnth i logData He)
    as (name & content' & record & _ & _ & _ & Hr & Hn & _ & Hc & type & Ht & Hrt).
  rewrite Hi in Hr. injection Hr as <-.
  assert (Hprim : is_primitive (or_else type (VString (js "duedate"))) = true).
  { rewrite Forall_forall in H. apply nth_error_In in He.
    specialize (H logData He). unfold analyzable in H.
    apply andb_true_iff in H as [_ H]. rewrite Ht in H.
    unfold or_else. now destruct (truthy type). }
  destruct (ToStringV_primitive _ Hprim) as [s Hs].
  unfold part_004.lines. rewrite Hn, Hrt, Hc. cbn [cbind ToStringV].
  rewrite Hs. reflexivity.
Qed.

Lemma part_004_counts_no_line_witness :
  exists writes logFiles,
    processLogFiles join_plain (js "/work/logs") (js "2025-01-31") 0
      MoreResponses.entries [] []
    = (writes, Normal logFiles)
    /\ length logFiles = length MoreResponses.entries
    /\ forall logFile, In logFile logFiles -> part_004.lines logFile = Normal 0%Z.
Proof.
  apply part_004_counts_no_line. repeat constructor.
Defined.

(** The count itself, on a content of three lines, one of them blank. *)
Example part_004_lines_sample :
  part_004.lines
    (VObject [ (js "name", VString (js "a.txt"));
               (js "content", VString [108; 49; 10; 32; 9; 10; 108; 50]) ])
  = Normal 2%Z.
Proof. vm_compute. reflexivity. Qed.


(* ================================================================== *)
(** ** The values of the header, and the query string against the
    protocol parameters *)





(** The same call, value by value: the marks [!], ['], [(], [)], [*] and
    the space of the configuration, and the [+], [/] and [=] of the
    signature, are escaped in the header. *)
Example header_marks_values :
  generateOAuthHeader More.this_marks Sample.env Sample.url (js "POST")
  = Ok More.header_marks
  /\ percent_encode (js "AC!'CT 1") = Ok (js "AC%21%27CT%201")
  /\ percent_encode (js "C(K)") = Ok (js "C%28K%29")
  /\ percent_encode (js "T*K") = Ok (js "T%2AK")
  /\ percent_encode (js "WyOKDyWvmwjw8+1JZKqQhqNWmXQ7d2bJjiZe7sPltO4=")
     = Ok (js "WyOKDyWvmwjw8%2B1JZKqQhqNWmXQ7d2bJjiZe7sPltO4%3D")
  /\ read_header More.header_marks
     = Some [ (js "realm", js "AC%21%27CT%201");
              (js "oauth_consumer_key", js "C%28K%29");
              (js "oauth_nonce", js "0102030405060708090a0b0c0d0e0fff");
              (js "oauth_signature",
                js "WyOKDyWvmwjw8%2B1JZKqQhqNWmXQ7d2bJjiZe7sPltO4%3D");
              (js "oauth_signature_method", js "HMAC-SHA256");
              (js "oauth_timestamp", js "1700000000");
              (js "oauth_token", js "T%2AK");
              (js "oauth_version", js "1.0") ].
Proof. split_all; vm_compute; reflexivity. Qed.

(* ------------------------------------------------------------------ *)










